(** * Route Optimizer: ordering, distance and route calculation

    A shallow embedding of the route-ordering and route-calculation core of
    [app.js] (delivered inside [src/sw.js]): the haversine distance, the
    nearest-neighbour order optimizer with position pinning, the
    multi-provider route calculator with retries and straight-line fallback,
    the location resolver, the summary shown after an optimization, the
    operations on the destination list, the optimize command that ties them
    together and the export of the optimized order as a directions address.

    Modelling conventions.
    - A JavaScript number is a real number of [R]: arithmetic is exact, there
      is no rounding, and so none of the [NaN]s that rounding can produce
      (the square root of a number just below 0 at antipodal points).  Where
      the source distinguishes [NaN], [Infinity], [null] or [undefined] from
      ordinary numbers, the model carries an explicit constructor for them
      ([JsValue], [JsField], [option]).
    - [Math.sin], [Math.cos], [Math.sqrt] are the functions [sin], [cos],
      [sqrt] of the standard library of reals; [Math.atan2] is defined below
      from [atan].
    - An [async] function is a function into the monad [M]: it produces the
      trace of the effects it issued (network requests, pauses, toasts) and
      either a returned value or a thrown error message.  What the network
      answers is given by an oracle passed as first argument.
    - [console.log]/[console.warn]/[console.error] calls are not traced.
    - Updates of the page (DOM, map) are not modelled and are taken to
      succeed.  An event handler runs to completion before the next one
      starts; for the asynchronous [optimizeRoute] this is a run during
      whose [await]s no other handler changes the session, and what is
      proved of a run is proved of such runs.
    - Built-ins whose result depends on the engine are parameters of the
      definitions that call them: [String.prototype.trim], the text a number
      takes in a template literal, the message of a [TypeError]. *)

From Stdlib Require Import String DecimalString.
From Stdlib Require Import Reals Lra Lia List Bool Arith Permutation Sorted.
Import ListNotations.

(** ** Numbers *)

Definition Rltb (x y : R) : bool := if Rlt_dec x y then true else false.
Definition Reqb (x y : R) : bool := if Req_dec_T x y then true else false.

(** [Math.atan2(y, x)] on the reals. *)
Definition Math_atan2 (y x : R) : R :=
  if Rlt_dec 0 x then atan (y / x)
  else if Rlt_dec x 0 then
         (if Rle_dec 0 y then atan (y / x) + PI else atan (y / x) - PI)%R
  else if Rlt_dec 0 y then (PI / 2)%R
  else if Rlt_dec y 0 then (- (PI / 2))%R
  else 0%R.

Definition Math_max (x y : R) : R := Rmax x y.

(** ** Geospatial math *)

Module Geo.
Local Open Scope R_scope.

Definition toRad (deg : R) : R := deg * PI / 180.

(** Haversine distance in kilometres. *)
Definition calculateDistance (lat1 lon1 lat2 lon2 : R) : R :=
  let R := 6371 in
  let dLat := toRad (lat2 - lat1) in
  let dLon := toRad (lon2 - lon1) in
  let a := sin (dLat / 2) * sin (dLat / 2) +
           cos (toRad lat1) * cos (toRad lat2) *
           sin (dLon / 2) * sin (dLon / 2) in
  let c := 2 * Math_atan2 (sqrt a) (sqrt (1 - a)) in
  R * c.

End Geo.

(** ** Data model *)

(** A resolved location.  The display address plays no role in ordering or
    routing and is kept on the destination only. *)
Record Location := mkLocation { lat : R; lng : R }.

(** A destination of the session list ([addDestination]); [location] is the
    resolved place, which [findOptimalOrder] requires to be present. *)
Record Destination := mkDestination {
  id : nat;
  address : string;
  location : Location;
  locked : bool
}.

(** ** Array helpers *)

Section ArrayHelpers.
Context {A : Type}.

(** [arr.findIndex(p)]; [None] stands for [-1]. *)
Fixpoint findIndex (p : A -> bool) (arr : list A) : option nat :=
  match arr with
  | [] => None
  | x :: rest =>
      if p x then Some 0
      else match findIndex p rest with
           | Some i => Some (S i)
           | None => None
           end
  end.

(** The array left by [arr.splice(idx, 1)]. *)
Fixpoint spliceOut (idx : nat) (arr : list A) : list A :=
  match arr, idx with
  | [], _ => []
  | _ :: rest, 0 => rest
  | x :: rest, S i => x :: spliceOut i rest
  end.

End ArrayHelpers.

(** ** Order optimizer *)

Module Optimizer.

(** [dist < nearestDist], where [nearestDist] starts as [Infinity]
    (encoded by [None]). *)
Definition lessThan (dist : R) (nearestDist : option R) : bool :=
  match nearestDist with
  | None => true
  | Some d => Rltb dist d
  end.

(** The inner [for (let j = 0; j < unvisited.length; j++)] loop; the list
    argument holds [unvisited[j..]]. *)
Fixpoint nearestLoop (current : Location) (rest : list Destination)
    (j nearestIdx : nat) (nearestDist : option R) : nat :=
  match rest with
  | [] => nearestIdx
  | u :: rest' =>
      let dist := Geo.calculateDistance (lat current) (lng current)
                    (lat (location u)) (lng (location u)) in
      if lessThan dist nearestDist
      then nearestLoop current rest' (S j) j (Some dist)
      else nearestLoop current rest' (S j) nearestIdx nearestDist
  end.

Definition nearestIndex (current : Location) (unvisited : list Destination) : nat :=
  nearestLoop current unvisited 0 0 None.

(** The mutable locals of [findOptimalOrder]. *)
Record State := mkState {
  result : list Destination;
  unvisited : list Destination;
  current : Location
}.

(** Select the nearest unvisited destination, splice it out and push it. *)
Definition visitNearest (st : State) : State :=
  let nearestIdx := nearestIndex (current st) (unvisited st) in
  match nth_error (unvisited st) nearestIdx with
  | Some nearest =>
      {| result := result st ++ [nearest];
         unvisited := spliceOut nearestIdx (unvisited st);
         current := location nearest |}
  | None => st
  end.

(** One iteration of [for (let i = 0; i < destinations.length; i++)]. *)
Definition step (st : State) (originalDest : Destination) : State :=
  if locked originalDest then
    {| result := result st ++ [originalDest];
       current := location originalDest;
       unvisited :=
         match findIndex (fun d => Nat.eqb (id d) (id originalDest)) (unvisited st) with
         | Some idx => spliceOut idx (unvisited st)
         | None => unvisited st
         end |}
  else if Nat.ltb 0 (length (unvisited st)) then visitNearest st
  else st.

(** [while (unvisited.length > 0)], unrolled at most [fuel] times. *)
Fixpoint drain (fuel : nat) (st : State) : State :=
  match fuel with
  | 0 => st
  | S fuel' =>
      if Nat.ltb 0 (length (unvisited st)) then drain fuel' (visitNearest st)
      else st
  end.

Definition findOptimalOrder (start : Location) (destinations : list Destination)
    (returnToStart : bool) : list Destination :=
  let unlocked := filter (fun d => negb (locked d)) destinations in
  if Nat.leb (length unlocked) 1 then destinations
  else
    let st0 := {| result := []; unvisited := unlocked; current := start |} in
    let st1 := fold_left step destinations st0 in
    let st2 := drain (length (unvisited st1)) st1 in
    result st2.

End Optimizer.

(** ** Effects *)

(** What a call does to the outside world, in the order it does it. *)
Inductive Event :=
  | RouteRequest (serverUrl : string) (waypoints : list Location)
      (** [fetch] of [/route/v1/driving/<coords>?overview=full...]; the
          coordinate string is determined by the waypoints *)
  | DrivingTimeRequest (serverUrl : string) (origin target : Location)
      (** [fetch] of [/route/v1/driving/<coords>?overview=false] *)
  | SearchRequest (query : string) (viewbox : option (R * R * R * R))
      (** [fetch] of the Nominatim search URL, with its [viewbox] if any *)
  | ConnectivityProbe
      (** [HEAD] request to [status.php] *)
  | Pause (milliseconds : nat)
      (** [await new Promise(resolve => setTimeout(resolve, ms))] *)
  | Toast (message kind : string).

Inductive Completion (A : Type) :=
  | Returned (value : A)
  | Thrown (message : string).
Arguments Returned {A} value.
Arguments Thrown {A} message.

Definition M (A : Type) : Type := (list Event * Completion A)%type.

Definition ret {A} (a : A) : M A := ([], Returned a).
Definition throw {A} (message : string) : M A := ([], Thrown message).
Definition emit (e : Event) : M unit := ([e], Returned tt).

Definition bind {A B} (m : M A) (k : A -> M B) : M B :=
  match m with
  | (t1, Returned a) => let (t2, r) := k a in (t1 ++ t2, r)
  | (t1, Thrown e) => (t1, Thrown e)
  end.

Declare Scope js_scope.
Delimit Scope js_scope with js.
Notation "x <- m ;; k" := (bind m (fun x => k))
  (at level 61, m at next level, right associativity) : js_scope.
Notation "m ;; k" := (bind m (fun _ => k))
  (at level 61, right associativity) : js_scope.

Definition trace {A} (m : M A) : list Event := fst m.
Definition completion {A} (m : M A) : Completion A := snd m.

(** ** Strings *)

Definition string_of_nat (n : nat) : string := NilZero.string_of_uint (Nat.to_uint n).

(** [hay.includes(needle)]. *)
Fixpoint includes (needle hay : string) : bool :=
  if String.prefix needle hay then true
  else match hay with
       | EmptyString => false
       | String _ hay' => includes needle hay'
       end.

(** ** Route calculator *)

Module RouteCalculator.
Local Open Scope string_scope.
Local Open Scope list_scope.

(** A GeoJSON geometry. *)
Record Geometry := mkGeometry {
  gtype : string;
  coordinates : list (R * R)
}.

(** A route result; [isFallback] is [false] where the source object has no
    such field. *)
Record RouteResult := mkRouteResult {
  duration : R;
  distance : R;
  geometry : Geometry;
  isFallback : bool
}.

(** The routing servers, primary first. *)
Definition ROUTING_SERVERS : list string :=
  [ "https://router.project-osrm.org";
    "https://routing.openstreetmap.de/routed-car" ].

(** *** Waypoint validation *)

(** The value of a coordinate field of a waypoint object. *)
Inductive JsValue :=
  | JsNumber (r : R)                 (** a finite number *)
  | JsNaN
  | JsInfinity (negative : bool)
  | JsOther.                         (** [typeof] is not ['number'] *)

(** A waypoint as passed in; [None] is a [null] or [undefined] array entry. *)
Record RawWaypoint := mkRaw { raw_lat : JsValue; raw_lng : JsValue }.
Definition Waypoint := option RawWaypoint.

Definition typeofNumber (v : JsValue) : bool :=
  match v with JsOther => false | _ => true end.

(** [v < c] and [v > c] for a finite constant [c]; never consulted on
    [JsOther], which the [typeof] test rejects first. *)
Definition ltConst (v : JsValue) (c : R) : bool :=
  match v with
  | JsNumber r => Rltb r c
  | JsInfinity negative => negative
  | JsNaN | JsOther => false
  end.
Definition gtConst (v : JsValue) (c : R) : bool :=
  match v with
  | JsNumber r => Rltb c r
  | JsInfinity negative => negb negative
  | JsNaN | JsOther => false
  end.
Definition isNaN (v : JsValue) : bool :=
  match v with JsNaN => true | _ => false end.

Record Validation := mkValidation { valid : bool; error : string }.

(** The [for] loop of [validateWaypoints]; [i] is the index of the head. *)
Fixpoint validateFrom (i : nat) (waypoints : list Waypoint) : Validation :=
  match waypoints with
  | [] => {| valid := true; error := "" |}
  | wp :: rest =>
      match wp with
      | None =>
          {| valid := false;
             error := ("Invalid coordinates for waypoint " ++ string_of_nat (i + 1)
                      ++ ". Please re-enter the address.")%string |}
      | Some w =>
          if negb (typeofNumber (raw_lat w)) || negb (typeofNumber (raw_lng w)) then
            {| valid := false;
               error := ("Invalid coordinates for waypoint " ++ string_of_nat (i + 1)
                        ++ ". Please re-enter the address.")%string |}
          else if ltConst (raw_lat w) (-90) || gtConst (raw_lat w) 90
                  || ltConst (raw_lng w) (-180) || gtConst (raw_lng w) 180 then
            {| valid := false;
               error := ("Coordinates out of range for waypoint " ++ string_of_nat (i + 1)
                        ++ ". Please re-enter the address.")%string |}
          else if isNaN (raw_lat w) || isNaN (raw_lng w) then
            {| valid := false;
               error := ("Invalid coordinates for waypoint " ++ string_of_nat (i + 1)
                        ++ ". Please re-enter the address.")%string |}
          else validateFrom (S i) rest
      end
  end.

Definition validateWaypoints (waypoints : list Waypoint) : Validation :=
  if Nat.ltb (length waypoints) 2 then
    {| valid := false; error := "At least two locations are required for routing." |}
  else validateFrom 0 waypoints.

(** The numeric reading of a waypoint.  Entries without one are mapped to the
    origin; [validateWaypoints] rejects them, so the rest of [calculateRoute]
    never sees that case (lemma [validateWaypoints_typed]). *)
Definition numberOf (v : JsValue) : R :=
  match v with JsNumber r => r | _ => 0%R end.
Definition asLocation (wp : Waypoint) : Location :=
  match wp with
  | Some w => {| lat := numberOf (raw_lat w); lng := numberOf (raw_lng w) |}
  | None => {| lat := 0; lng := 0 |}
  end.
Definition raw (l : Location) : Waypoint :=
  Some {| raw_lat := JsNumber (lat l); raw_lng := JsNumber (lng l) |}.

(** *** Talking to a routing server *)

Record OsrmRoute := mkOsrmRoute {
  route_duration : R;
  route_distance : R;
  route_geometry : Geometry
}.

(** The parsed JSON body; a missing [code] is the empty string (both are
    falsy and differ from every code the source tests for), a missing
    [routes] is [None]. *)
Record OsrmBody := mkOsrmBody {
  code : string;
  routes : option (list OsrmRoute)
}.

(** How one [fetch] (with the [response.json()] that follows it) ends. *)
Inductive FetchOutcome :=
  | FetchRejects (name message : string)   (** an [Error] is thrown *)
  | HttpStatus (status : nat)              (** [response.ok] is false *)
  | JsonBody (data : OsrmBody).

(** The network as seen by one call of [calculateRoute]: whether
    [navigator.onLine !== false], the answer to the request sent to
    [serverUrl] on the given attempt (counted from 0), and the answer to the
    connectivity probe. *)
Record Network := mkNetwork {
  navigator_onLine : bool;
  routeFetch : string -> nat -> FetchOutcome;
  probeFetch : option bool   (** [Some ok]: a response; [None]: the probe throws *)
}.

Definition isOnline (net : Network) : bool := navigator_onLine net.

Definition testNetworkConnectivity (net : Network) : M bool :=
  (emit ConnectivityProbe ;;
   match probeFetch net with
   | Some ok => ret ok
   | None => ret false
   end)%js.

(** What [tryRouteServer] resolves to; [errorInfo] is only logged. *)
Inductive ServerResult :=
  | Success (data : RouteResult)
  | Failure (retryable : bool) (error : string).

Definition classify (outcome : FetchOutcome) : ServerResult :=
  match outcome with
  | HttpStatus status =>
      if Nat.eqb status 429 then Failure true "Rate limited"
      else if Nat.leb 500 status then Failure true "Server error"
      else if Nat.eqb status 400 then Failure false "Invalid request"
      else Failure true ("HTTP " ++ string_of_nat status)%string
  | JsonBody data =>
      if String.eqb (code data) "NoRoute" then
        Failure false "No driving route exists between these locations. They may be on different landmasses or not accessible by road."
      else if String.eqb (code data) "NoSegment" then
        Failure false "One or more locations are too far from a road. Please choose locations closer to roads."
      else if String.eqb (code data) "InvalidInput" || String.eqb (code data) "InvalidQuery" then
        Failure false "Invalid location coordinates. Please re-enter the addresses."
      else if String.eqb (code data) "TooBig" then
        Failure false "Route is too long. Please reduce the number of destinations or choose closer locations."
      else
        match (if negb (String.eqb (code data) "Ok") then None else routes data) with
        | Some (route0 :: _) =>
            Success {| duration := route_duration route0;
                       distance := route_distance route0;
                       geometry := route_geometry route0;
                       isFallback := false |}
        | _ =>
            Failure true ("Unexpected response from routing service: "
                          ++ (if String.eqb (code data) "" then "No routes returned"
                              else code data))%string
        end
  | FetchRejects name message =>
      if String.eqb name "AbortError" then Failure true "Request timed out"
      else if String.eqb name "TypeError" then Failure true "Network error"
      else Failure true (if String.eqb message "" then "Unknown error" else message)
  end.

Definition tryRouteServer (net : Network) (serverUrl : string)
    (waypoints : list Location) (attempt : nat) : M ServerResult :=
  (emit (RouteRequest serverUrl waypoints) ;;
   ret (classify (routeFetch net serverUrl attempt)))%js.

(** *** Straight-line fallback *)

(** The loop of [calculateFallbackRoute]; [prev] is [waypoints[i-1]], absent
    when [i = 0]. *)
Fixpoint fallbackLoop (prev : option Location) (waypoints : list Location)
    (totalDistance : R) (coords : list (R * R)) : R * list (R * R) :=
  match waypoints with
  | [] => (totalDistance, coords)
  | wp :: rest =>
      let coords' := coords ++ [(lng wp, lat wp)] in
      let totalDistance' :=
        match prev with
        | Some p =>
            (totalDistance +
             Geo.calculateDistance (lat p) (lng p) (lat wp) (lng wp) * 1000)%R
        | None => totalDistance
        end in
      fallbackLoop (Some wp) rest totalDistance' coords'
  end.

Definition calculateFallbackRoute (waypoints : list Location) : RouteResult :=
  let (totalDistance, coords) := fallbackLoop None waypoints 0%R [] in
  let estimatedDuration := ((totalDistance / 1000) / 50 * 3600)%R in
  {| duration := estimatedDuration;
     distance := totalDistance;
     geometry := {| gtype := "LineString"; coordinates := coords |};
     isFallback := true |}.

(** *** The provider loop *)

Record Options := mkOptions { maxRetries : nat; useFallback : bool }.
Definition defaultOptions : Options := {| maxRetries := 2; useFallback := true |}.

Record ErrorRecord := mkErrorRecord {
  err_server : string;
  err_attempt : nat;
  err_error : string
}.

(** [Math.min(1000 * Math.pow(2, attempt), 5000)], in milliseconds. *)
Definition waitTime (attempt : nat) : nat := Nat.min (1000 * 2 ^ attempt) 5000.

(** [for (let attempt = 0; attempt <= maxRetries; attempt++)]: [fuel] is the
    number of iterations left, [maxRetries + 1 - attempt].  The loop ends with
    the route found, or with the errors recorded so far. *)
Fixpoint attemptLoop (net : Network) (serverUrl : string) (waypoints : list Location)
    (maxRetries fuel attempt : nat) (errors : list ErrorRecord)
    : M (RouteResult + list ErrorRecord) :=
  match fuel with
  | 0 => ret (inr errors)
  | S fuel' =>
      (result <- tryRouteServer net serverUrl waypoints attempt ;;
       match result with
       | Success data => ret (inl data)
       | Failure retryable error =>
           let errors' := errors ++ [ {| err_server := serverUrl;
                                         err_attempt := attempt + 1;
                                         err_error := error |} ] in
           if negb retryable then ret (inr errors')
           else
             (if Nat.ltb attempt maxRetries
              then emit (Pause (waitTime attempt))
              else ret tt) ;;
             attemptLoop net serverUrl waypoints maxRetries fuel' (S attempt) errors'
       end)%js
  end.

(** [for (const serverUrl of ROUTING_SERVERS)]. *)
Fixpoint serverLoop (net : Network) (waypoints : list Location) (maxRetries : nat)
    (servers : list string) (errors : list ErrorRecord)
    : M (RouteResult + list ErrorRecord) :=
  match servers with
  | [] => ret (inr errors)
  | serverUrl :: servers' =>
      (r <- attemptLoop net serverUrl waypoints maxRetries (S maxRetries) 0 errors ;;
       match r with
       | inl data => ret (inl data)
       | inr errors' => serverLoop net waypoints maxRetries servers' errors'
       end)%js
  end.

Definition isNetworkError (e : ErrorRecord) : bool :=
  String.eqb (err_error e) "Network error" || String.eqb (err_error e) "Request timed out".

Definition isNonRetryable (e : ErrorRecord) : bool :=
  includes "No driving route" (err_error e)
  || includes "too far from a road" (err_error e)
  || includes "Invalid location" (err_error e)
  || includes "too long" (err_error e).

Definition fallbackWithToast (message : string) (waypoints : list Location) : M RouteResult :=
  (emit (Toast message "warning") ;; ret (calculateFallbackRoute waypoints))%js.

Definition calculateRoute (net : Network) (waypoints : list Waypoint)
    (options : Options) : M RouteResult :=
  let validation := validateWaypoints waypoints in
  if negb (valid validation) then throw (error validation)
  else
    let wps := map asLocation waypoints in
    if negb (isOnline net) then
      if useFallback options
      then fallbackWithToast "Offline: Using estimated route" wps
      else throw "You appear to be offline. Please check your internet connection and try again."
    else
      (r <- serverLoop net wps (maxRetries options) ROUTING_SERVERS [] ;;
       match r with
       | inl data => ret data
       | inr errors =>
           let allNetworkErrors := forallb isNetworkError errors in
           if allNetworkErrors then
             hasConnectivity <- testNetworkConnectivity net ;;
             if negb hasConnectivity then
               if useFallback options
               then fallbackWithToast "Network issue: Using estimated route" wps
               else throw "Unable to connect to routing services. Please check your internet connection and try again."
             else
               if useFallback options
               then fallbackWithToast "Routing servers unavailable: Using estimated route" wps
               else throw "Routing services are temporarily unavailable. Please try again in a few minutes."
           else
             match find isNonRetryable errors with
             | Some nonRetryableError => throw (err_error nonRetryableError)
             | None =>
                 if existsb (fun e => String.eqb (err_error e) "Rate limited") errors
                 then throw "Route calculation service is busy. Please wait a moment and try again."
                 else if useFallback options
                 then fallbackWithToast "Route calculation failed: Using estimated route" wps
                 else throw "Unable to calculate route. Please verify your destinations and try again."
             end
       end)%js.

End RouteCalculator.

(** ** Location resolver *)

Module LocationResolver.
Import RouteCalculator.
Local Open Scope string_scope.
Local Open Scope list_scope.

(** An object field that may be missing, [null] or a number. *)
Inductive JsField :=
  | Absent
  | Null
  | Number (r : R).

(** A candidate as returned by the geocoder and decorated afterwards.
    [res_lat] and [res_lon] are [parseFloat(result.lat)] and
    [parseFloat(result.lon)]. *)
Record SearchResult := mkSearchResult {
  display_name : string;
  res_lat : R;
  res_lon : R;
  straightLineDistance : JsField;
  drivingTime : JsField;
  drivingDistance : JsField
}.

(** How the geocoder request ends: any failure (rejected [fetch], response
    that is not ok, unparsable body) lands in the [catch]. *)
Inductive SearchOutcome :=
  | SearchFails
  | SearchResults (results : list SearchResult).

(** The network as seen by one call of [searchLocationWithTimes]: the
    geocoder's answer to a query and viewbox, and the routing servers' answer
    to the driving-time request for the candidate of the given rank. *)
Record Network := mkNetwork {
  searchFetch : string -> option (R * R * R * R) -> SearchOutcome;
  drivingFetch : nat -> string -> FetchOutcome
}.

(** Truthiness of a [nearLat]/[nearLng] argument; [None] is [null]. *)
Definition truthy (x : option R) : bool :=
  match x with
  | None => false
  | Some r => negb (Reqb r 0)
  end.

(** The number an argument stands for in arithmetic ([null] counts as 0). *)
Definition valueOf (x : option R) : R :=
  match x with Some r => r | None => 0%R end.

(** [Array.prototype.sort(compare)]: a stable sort; a comparator result that
    is [NaN] ([None]) counts as 0.  [insert x sorted] keeps [x] in front of
    the elements it does not have to follow. *)
Section ArraySort.
Context {A : Type} (compare : A -> A -> option R).

Definition negative (v : option R) : bool :=
  match v with Some r => Rltb r 0 | None => false end.

Fixpoint insert (x : A) (sorted : list A) : list A :=
  match sorted with
  | [] => [x]
  | y :: rest => if negative (compare y x) then y :: insert x rest else x :: y :: rest
  end.

Definition arraySort (arr : list A) : list A := fold_right insert [] arr.
End ArraySort.

(** [a - b] on fields: [undefined] makes the difference [NaN], [null] is 0. *)
Definition fieldMinus (a b : JsField) : option R :=
  match a, b with
  | Absent, _ | _, Absent => None
  | Null, Null => Some 0%R
  | Null, Number y => Some (0 - y)%R
  | Number x, Null => Some (x - 0)%R
  | Number x, Number y => Some (x - y)%R
  end.

(** [field || 0]. *)
Definition orZero (a : JsField) : JsField :=
  match a with
  | Absent | Null => Number 0
  | Number r => if Reqb r 0 then Number 0 else Number r
  end.

Definition notNull (a : JsField) : bool :=
  match a with Null => false | _ => true end.

Definition byStraightLine (a b : SearchResult) : option R :=
  fieldMinus (straightLineDistance a) (straightLineDistance b).

Definition searchLocation (net : Network) (query : string) (nearLat nearLng : option R)
    : M (list SearchResult) :=
  let hasReference := truthy nearLat && truthy nearLng in
  let viewbox :=
    if hasReference
    then Some (valueOf nearLng - 0.5, valueOf nearLat - 0.5,
               valueOf nearLng + 0.5, valueOf nearLat + 0.5)%R
    else None in
  (emit (SearchRequest query viewbox) ;;
   match searchFetch net query viewbox with
   | SearchFails => ret []
   | SearchResults results =>
       if hasReference && Nat.ltb 0 (length results) then
         let results' :=
           map (fun result =>
                  {| display_name := display_name result;
                     res_lat := res_lat result;
                     res_lon := res_lon result;
                     straightLineDistance :=
                       Number (Geo.calculateDistance (valueOf nearLat) (valueOf nearLng)
                                 (res_lat result) (res_lon result));
                     drivingTime := drivingTime result;
                     drivingDistance := drivingDistance result |}) results in
         ret (arraySort byStraightLine results')
       else ret results
   end)%js.

(** The object returned by [estimateDrivingTime]; [isEstimate] is [false]
    where the source object has no such field. *)
Record TimeInfo := mkTimeInfo {
  duration : R;
  distance : R;
  isEstimate : bool
}.

(** [for (const serverUrl of ROUTING_SERVERS)] in [estimateDrivingTime];
    [fetchOf] answers the request sent to a server. *)
Fixpoint estimateLoop (fetchOf : string -> FetchOutcome) (origin target : Location)
    (servers : list string) : M (option TimeInfo) :=
  match servers with
  | [] => ret None
  | serverUrl :: servers' =>
      (emit (DrivingTimeRequest serverUrl origin target) ;;
       match fetchOf serverUrl with
       | JsonBody data =>
           match (if String.eqb (code data) "Ok" then routes data else None) with
           | Some (route0 :: _) =>
               ret (Some {| duration := route_duration route0;
                            distance := route_distance route0;
                            isEstimate := false |})
           | _ => estimateLoop fetchOf origin target servers'
           end
       | HttpStatus _ => estimateLoop fetchOf origin target servers'
       | FetchRejects _ _ => estimateLoop fetchOf origin target servers'
       end)%js
  end.

Definition estimateDrivingTime (fetchOf : string -> FetchOutcome)
    (fromLat fromLng toLat toLng : R) : M TimeInfo :=
  let origin := {| lat := fromLat; lng := fromLng |} in
  let target := {| lat := toLat; lng := toLng |} in
  (found <- estimateLoop fetchOf origin target ROUTING_SERVERS ;;
   match found with
   | Some timeInfo => ret timeInfo
   | None =>
       let straightLineKm := Geo.calculateDistance fromLat fromLng toLat toLng in
       ret {| duration := (straightLineKm / 40) * 3600;
              distance := straightLineKm * 1000;
              isEstimate := true |}
   end)%js.

(** [for (let i = 0; i < topResults.length; i++)]; the list argument holds
    [topResults[i..]], [n] is [topResults.length].  [timeInfo] is an object,
    hence truthy, so [drivingTime] and [drivingDistance] receive its fields. *)
Fixpoint timesLoop (net : Network) (nearLat nearLng : option R) (n i : nat)
    (rest : list SearchResult) (resultsWithTimes : list SearchResult)
    : M (list SearchResult) :=
  match rest with
  | [] => ret resultsWithTimes
  | result :: rest' =>
      (timeInfo <- estimateDrivingTime (drivingFetch net i)
                     (valueOf nearLat) (valueOf nearLng)
                     (res_lat result) (res_lon result) ;;
       let resultsWithTimes' :=
         resultsWithTimes ++
         [ {| display_name := display_name result;
              res_lat := res_lat result;
              res_lon := res_lon result;
              straightLineDistance := straightLineDistance result;
              drivingTime := Number (duration timeInfo);
              drivingDistance := Number (distance timeInfo) |} ] in
       (if Nat.ltb i (n - 1) then emit (Pause 100) else ret tt) ;;
       timesLoop net nearLat nearLng n (S i) rest' resultsWithTimes')%js
  end.

(** The comparator of the final sort. *)
Definition byDrivingTime (a b : SearchResult) : option R :=
  if notNull (drivingTime a) && notNull (drivingTime b)
  then fieldMinus (drivingTime a) (drivingTime b)
  else if notNull (drivingTime a) then Some (-1)%R
  else if notNull (drivingTime b) then Some 1%R
  else fieldMinus (orZero (straightLineDistance a)) (orZero (straightLineDistance b)).

Definition searchLocationWithTimes (net : Network) (query : string)
    (nearLat nearLng : option R) : M (list SearchResult) :=
  (results <- searchLocation net query nearLat nearLng ;;
   if negb (truthy nearLat) || negb (truthy nearLng) || Nat.eqb (length results) 0
   then ret results
   else
     let topResults := firstn 3 results in
     resultsWithTimes <- timesLoop net nearLat nearLng (length topResults) 0 topResults [] ;;
     ret (arraySort byDrivingTime resultsWithTimes))%js.

End LocationResolver.

(** ** Result summary *)

Module Display.
Import RouteCalculator.

(** The figures [displayResults] derives before rendering them. *)
Record Summary := mkSummary {
  timeSaved : R;
  isEstimated : bool
}.

Definition displayResults (optimizedOrder : list Destination)
    (optimizedRoute originalRoute : RouteResult) : Summary :=
  {| timeSaved := Math_max 0 (duration originalRoute - duration optimizedRoute);
     isEstimated := isFallback optimizedRoute || isFallback originalRoute |}.

End Display.

(** ** Session: the destination list and the optimize command *)

Module Session.
Import RouteCalculator.
Local Open Scope string_scope.
Local Open Scope list_scope.

(** A destination object of [state.destinations]; [stop_location] is [null]
    until the address is resolved.  As in [Location], the display address of
    a location object is left out: it is only shown. *)
Record Stop := mkStop {
  stop_id : nat;
  stop_address : string;
  stop_location : option Location;
  stop_locked : bool
}.

(** The fields of [state] that the operations below read or write, together
    with the module-level [destinationCounter]. *)
Record State := mkSession {
  startLocation : option Location;
  destinations : list Stop;
  returnToStart : bool;
  isOptimizing : bool;
  destinationCounter : nat
}.

(** The [state] literal and [let destinationCounter = 0]. *)
Definition initialState : State :=
  {| startLocation := None;
     destinations := [];
     returnToStart := true;
     isOptimizing := false;
     destinationCounter := 0 |}.

Definition withDestinations (st : State) (ds : list Stop) : State :=
  {| startLocation := startLocation st;
     destinations := ds;
     returnToStart := returnToStart st;
     isOptimizing := isOptimizing st;
     destinationCounter := destinationCounter st |}.

Definition withOptimizing (st : State) (b : bool) : State :=
  {| startLocation := startLocation st;
     destinations := destinations st;
     returnToStart := returnToStart st;
     isOptimizing := b;
     destinationCounter := destinationCounter st |}.

(** *** Array helpers *)

(** The array after the object returned by [arr.find(p)] has been mutated
    by [f]. *)
Fixpoint updateFirst {A : Type} (p : A -> bool) (f : A -> A) (arr : list A) : list A :=
  match arr with
  | [] => []
  | x :: rest => if p x then f x :: rest else x :: updateFirst p f rest
  end.

(** Where [arr.splice(index, ...)] operates on an array of [len] elements,
    for an index delivered by [findIndex]: [-1] ([None]) counts from the
    end, an index past the end is clamped. *)
Definition spliceStart (index : option nat) (len : nat) : nat :=
  match index with
  | Some i => Nat.min i len
  | None => len - 1
  end.

(** The array left by [arr.splice(idx, 0, x)]. *)
Definition spliceIn {A : Type} (idx : nat) (x : A) (arr : list A) : list A :=
  firstn idx arr ++ x :: skipn idx arr.

(** *** Destination management *)

Definition addDestination (st : State) : State :=
  let id := S (destinationCounter st) in
  let destination :=
    {| stop_id := id; stop_address := ""; stop_location := None; stop_locked := false |} in
  {| startLocation := startLocation st;
     destinations := destinations st ++ [destination];
     returnToStart := returnToStart st;
     isOptimizing := isOptimizing st;
     destinationCounter := id |}.

Definition removeDestination (id : nat) (st : State) : State :=
  withDestinations st (filter (fun d => negb (Nat.eqb (stop_id d) id)) (destinations st)).

Definition toggled (d : Stop) : Stop :=
  {| stop_id := stop_id d;
     stop_address := stop_address d;
     stop_location := stop_location d;
     stop_locked := negb (stop_locked d) |}.

Definition toggleDestinationLock (id : nat) (st : State) : list Event * State :=
  match find (fun d => Nat.eqb (stop_id d) id) (destinations st) with
  | Some destination =>
      ([Toast (if negb (stop_locked destination)
               then "Destination locked" else "Destination unlocked") "success"],
       withDestinations st
         (updateFirst (fun d => Nat.eqb (stop_id d) id) toggled (destinations st)))
  | None => ([], st)
  end.

(** The two closures [createDestinationElement] attaches to the input of a
    destination: the selection of a suggestion stores its name and its
    coordinates, leaving the field with another text forgets the resolved
    location.  The destination object they close over is the one carrying
    the identifier. *)
Definition selectSuggestion (id : nat) (name : string) (place : Location) (st : State)
    : State :=
  withDestinations st
    (updateFirst (fun d => Nat.eqb (stop_id d) id)
       (fun d => {| stop_id := stop_id d;
                    stop_address := name;
                    stop_location := Some place;
                    stop_locked := stop_locked d |})
       (destinations st)).

Definition blurInput (id : nat) (value : string) (st : State) : State :=
  withDestinations st
    (updateFirst (fun d => Nat.eqb (stop_id d) id)
       (fun d => if negb (String.eqb value (stop_address d))
                 then {| stop_id := stop_id d;
                         stop_address := value;
                         stop_location := None;
                         stop_locked := stop_locked d |}
                 else d)
       (destinations st)).

(** [handleDrop]: the dragged list item and the item it is dropped on are
    given by the identifiers they carry ([renderDestinations] creates one
    item per destination).  [None] stands for the one case the model has no
    value for: on an empty array [removed] is [undefined] and is inserted as
    such. *)
Definition handleDrop (draggedId targetId : nat) (st : State) : option State :=
  if Nat.eqb draggedId targetId then Some st
  else
    let draggedIndex := findIndex (fun d => Nat.eqb (stop_id d) draggedId) (destinations st) in
    let targetIndex := findIndex (fun d => Nat.eqb (stop_id d) targetId) (destinations st) in
    let start := spliceStart draggedIndex (length (destinations st)) in
    match nth_error (destinations st) start with
    | Some removed =>
        let remaining := spliceOut start (destinations st) in
        Some (withDestinations st
                (spliceIn (spliceStart targetIndex (length remaining)) removed remaining))
    | None => None
    end.

(** The assignments to [state.startLocation] (a suggestion selected for the
    start field, a detected position) and [handleReturnToStartChange]. *)
Definition setStartLocation (place : Location) (st : State) : State :=
  {| startLocation := Some place;
     destinations := destinations st;
     returnToStart := returnToStart st;
     isOptimizing := isOptimizing st;
     destinationCounter := destinationCounter st |}.

Definition handleReturnToStartChange (checked : bool) (st : State) : State :=
  {| startLocation := startLocation st;
     destinations := destinations st;
     returnToStart := checked;
     isOptimizing := isOptimizing st;
     destinationCounter := destinationCounter st |}.

(** *** The optimize command *)

(** The network as seen by one run of [optimizeRoute]: by the lookup of the
    destination that is the [k]-th one with an address, by the route
    calculation for the order as entered and by the one for the optimized
    order. *)
Record World := mkWorld {
  geocoder : nat -> LocationResolver.Network;
  originalNet : RouteCalculator.Network;
  optimizedNet : RouteCalculator.Network
}.

(** A destination whose location is present, as the order optimizer takes
    it. *)
Definition resolved (d : Stop) : option Destination :=
  match stop_location d with
  | Some l => Some {| id := stop_id d; address := stop_address d;
                      location := l; locked := stop_locked d |}
  | None => None
  end.

Fixpoint resolveAll (ds : list Stop) : option (list Destination) :=
  match ds with
  | [] => Some []
  | d :: rest =>
      match resolved d, resolveAll rest with
      | Some r, Some rs => Some (r :: rs)
      | _, _ => None
      end
  end.

(** A location or [null] as an entry of a waypoint array. *)
Definition waypointOf (l : option Location) : Waypoint :=
  match l with
  | Some l => raw l
  | None => None
  end.

Section Engine.
(** [String.prototype.trim], and the message of the [TypeError] the engine
    raises when a property of [null] is read. *)
Variable trim : string -> string.
Variable typeErrorMessage : string.

(** [d.address.trim() !== ''] *)
Definition hasAddress (d : Stop) : bool :=
  negb (String.eqb (trim (stop_address d)) "").

(** The value [updateOptimizeButton] gives to [optimizeBtn.disabled]. *)
Definition updateOptimizeButton (st : State) : bool :=
  let hasStart := match startLocation st with Some _ => true | None => false end in
  let hasValidDestinations := existsb hasAddress (destinations st) in
  negb hasStart || negb hasValidDestinations || isOptimizing st.

(** [for (const dest of validDestinations)].  The elements of
    [validDestinations] are the objects of [state.destinations] that have an
    address, in the same order, so the loop is run over [state.destinations]
    and passes over the others; [k] counts the destinations with an address
    seen so far.  The result is the trace, the array as the loop leaves it
    and the message of the error that ended it, if any. *)
Fixpoint geocodeLoop (world : World) (start : option Location) (k : nat)
    (dests : list Stop) : list Event * list Stop * option string :=
  match dests with
  | [] => ([], [], None)
  | dest :: rest =>
      if negb (hasAddress dest) then
        let '(t, rest', failure) := geocodeLoop world start k rest in
        (t, dest :: rest', failure)
      else
        match stop_location dest with
        | Some _ =>
            let '(t, rest', failure) := geocodeLoop world start (S k) rest in
            (t, dest :: rest', failure)
        | None =>
            match start with
            | None => ([], dests, Some typeErrorMessage)
            | Some s =>
                match LocationResolver.searchLocationWithTimes (geocoder world k)
                        (stop_address dest) (Some (lat s)) (Some (lng s)) with
                | (t, Thrown message) => (t, dests, Some message)
                | (t, Returned []) =>
                    (t, dests, Some ("Could not find location: " ++ stop_address dest)%string)
                | (t, Returned (nearest :: _)) =>
                    let dest' :=
                      {| stop_id := stop_id dest;
                         stop_address := stop_address dest;
                         stop_location :=
                           Some {| lat := LocationResolver.res_lat nearest;
                                   lng := LocationResolver.res_lon nearest |};
                         stop_locked := stop_locked dest |} in
                    let '(t', rest', failure) := geocodeLoop world start (S k) rest in
                    (t ++ t', dest' :: rest', failure)
                end
            end
        end
  end.

(** The [try] block from ['Calculating optimal route...'] on;
    [validDestinations] holds the destinations as the lookup loop left
    them.  Once [calculateRoute] has accepted the waypoints, the start and
    every location are present; the last branch stands for the [TypeError]
    that reading them would raise otherwise. *)
Definition planRoute (world : World) (start : option Location) (returnToStart : bool)
    (validDestinations : list Stop) : M (list Destination * Display.Summary) :=
  (emit (Toast "Calculating optimal route..." "success") ;;
   let allWaypoints :=
     [waypointOf start]
     ++ map (fun d => waypointOf (stop_location d)) validDestinations
     ++ (if returnToStart then [waypointOf start] else []) in
   originalRoute <- calculateRoute (originalNet world) allWaypoints defaultOptions ;;
   match start, resolveAll validDestinations with
   | Some s, Some dests =>
       let unlockedDests := filter (fun d => negb (locked d)) dests in
       let optimizedOrder :=
         if Nat.ltb 1 (length unlockedDests)
         then Optimizer.findOptimalOrder s dests returnToStart
         else dests in
       let optimizedWaypoints :=
         [raw s]
         ++ map (fun d => raw (location d)) optimizedOrder
         ++ (if returnToStart then [raw s] else []) in
       optimizedRoute <- calculateRoute (optimizedNet world) optimizedWaypoints defaultOptions ;;
       let summary := Display.displayResults optimizedOrder optimizedRoute originalRoute in
       (if Display.isEstimated summary
        then emit (Toast "Route optimized (estimated times - check Google Maps for accuracy)"
                     "warning")
        else emit (Toast "Route optimized!" "success")) ;;
       ret (optimizedOrder, summary)
   | _, _ => throw typeErrorMessage
   end)%js.

(** [catch] and [finally]: the error is shown in a toast, the busy flag is
    cleared either way.  The last component is what [displayResults] was
    given, if it was reached. *)
Definition settle {A : Type} (st : State) (m : M A) : list Event * State * option A :=
  match m with
  | (t, Returned a) => (t, withOptimizing st false, Some a)
  | (t, Thrown message) =>
      (t ++ [Toast (if String.eqb message "" then "Optimization failed" else message)
               "error"],
       withOptimizing st false, None)
  end.

(** One click on the optimize button, for a run that no other handler
    interleaves with: every [await] resumes with the session as the run
    left it.  The source yields at each [await]; what a handler running in
    between does to the session is outside this definition. *)
Definition optimizeRoute (world : World) (st : State)
    : list Event * State * option (list Destination * Display.Summary) :=
  if isOptimizing st then ([], st, None)
  else
    let validDestinations := filter hasAddress (destinations st) in
    if Nat.eqb (length validDestinations) 0 then
      settle st (throw "Please add at least one destination")
    else
      let '(t1, destinations', failure) :=
        geocodeLoop world (startLocation st) 0 (destinations st) in
      let st' := withDestinations st destinations' in
      match failure with
      | Some message =>
          settle st' (Toast "Finding nearest locations..." "success" :: t1, Thrown message)
      | None =>
          let (t2, c) :=
            planRoute world (startLocation st) (returnToStart st)
              (filter hasAddress destinations') in
          settle st' (Toast "Finding nearest locations..." "success" :: t1 ++ t2, c)
      end.

End Engine.

(** *** Export *)

Section Directions.
(** The text a number takes in a template literal, and the [TypeError]
    message as above. *)
Variable numberToString : R -> string.
Variable typeErrorMessage : string.

(** [`${l.lat},${l.lng}`] *)
Definition coordinatePair (l : Location) : string :=
  (numberToString (lat l) ++ "," ++ numberToString (lng l))%string.

(** [state.optimizedOrder.map(d => `${d.location.lat},${d.location.lng}`)];
    [None] when a location is [null]. *)
Fixpoint pairsOf (order : list Stop) : option (list string) :=
  match order with
  | [] => Some []
  | d :: rest =>
      match stop_location d, pairsOf rest with
      | Some l, Some ps => Some (coordinatePair l :: ps)
      | _, _ => None
      end
  end.

(** [for (let i = 0; i < waypointCount; i++) url += `/${waypoints[i]}`];
    an index past the end reads [undefined]. *)
Definition appendWaypoints (waypoints : list string) (waypointCount : nat) (url : string)
    : string :=
  fold_left (fun url i => (url ++ "/" ++ nth i waypoints "undefined")%string)
    (seq 0 waypointCount) url.

(** [openInGoogleMaps], reading [state.startLocation], [state.optimizedOrder]
    (absent or empty: [[]]), [state.returnToStart] and whether
    [state.departureTime] is set.  The value returned is the address given
    to [window.open], if it is reached. *)
Definition openInGoogleMaps (startLocation : option Location) (optimizedOrder : list Stop)
    (returnToStart departureTime : bool) : M (option string) :=
  if Nat.eqb (length optimizedOrder) 0 then
    (emit (Toast "Please optimize route first" "error") ;; ret None)%js
  else
    match startLocation with
    | None => throw typeErrorMessage
    | Some start =>
        let origin := coordinatePair start in
        match pairsOf optimizedOrder with
        | None => throw typeErrorMessage
        | Some waypoints =>
            let destination :=
              if returnToStart then origin
              else nth (length waypoints - 1) waypoints "undefined" in
            let url := ("https://www.google.com/maps/dir/" ++ origin)%string in
            let waypointCount :=
              if returnToStart then length waypoints else length waypoints - 1 in
            let url := appendWaypoints waypoints waypointCount url in
            let url := (url ++ "/" ++ destination)%string in
            let url := if departureTime then (url ++ "?travelmode=driving")%string else url in
            (emit (Toast "Opening Google Maps with traffic data..." "success") ;;
             ret (Some url))%js
        end
    end.

End Directions.

(** *** Labels *)

Definition truncateAddress (address : string) : string :=
  if Nat.ltb 50 (String.length address)
  then (String.substring 0 47 address ++ "...")%string
  else address.

End Session.

(** * Specification vocabulary

    The predicates and measures in which the properties below are stated,
    and the concrete situations they are instantiated on. *)

Section OptimizerVocabulary.
Import Optimizer.

(** The unlocked and the locked destinations of a list, in order. *)
Definition unlockedOf (l : list Destination) : list Destination :=
  filter (fun d => negb (locked d)) l.

Definition lockedOf (l : list Destination) : list Destination :=
  filter locked l.

(** No unlocked destination carries the identifier of a locked one. *)
Definition ids_apart (dests : list Destination) : Prop :=
  forall d u, In d dests -> In u dests ->
    locked d = true -> locked u = false -> id u <> id d.

(** The invariant of the main loop once the prefix [p] of the destinations
    has been walked and [s] is still ahead. *)
Record Inv (dests p s : list Destination) (st : State) : Prop := mkInv {
  inv_length : length (result st) = length p;
  inv_pinned : forall i d, nth_error p i = Some d -> locked d = true ->
                           nth_error (result st) i = Some d;
  inv_perm : Permutation (result st ++ unvisited st) (unlockedOf dests ++ lockedOf p);
  inv_left : length (unvisited st) = length (unlockedOf s);
  inv_free : Forall (fun u => In u dests /\ locked u = false) (unvisited st)
}.

End OptimizerVocabulary.

(** The routing requests a trace sends to a server, and their number. *)
Definition isRequestTo (serverUrl : string) (e : Event) : bool :=
  match e with
  | RouteRequest s _ => String.eqb s serverUrl
  | _ => false
  end.

Definition requestsTo (serverUrl : string) (t : list Event) : nat :=
  length (filter (isRequestTo serverUrl) t).

Section RouteVocabulary.
Import RouteCalculator.
Local Open Scope string_scope.
Local Open Scope list_scope.

(** A finite number within the given bounds. *)
Definition numberWithin (lo hi : R) (v : JsValue) : Prop :=
  match v with
  | JsNumber r => (lo <= r <= hi)%R
  | _ => False
  end.

(** A waypoint with numeric, non-NaN, in-range latitude and longitude. *)
Definition wellFormed (wp : Waypoint) : Prop :=
  match wp with
  | Some w =>
      numberWithin (-90)%R 90%R (raw_lat w) /\ numberWithin (-180)%R 180%R (raw_lng w)
  | None => False
  end.

(** A request that [tryRouteServer] reports as a network error or a timeout. *)
Definition networkClass (outcome : FetchOutcome) : Prop :=
  exists retryable e,
    classify outcome = Failure retryable e /\
    (e = "Network error" \/ e = "Request timed out").

(** The primary and the secondary routing provider. *)
Definition primaryServer : string := nth 0 RouteCalculator.ROUTING_SERVERS EmptyString.

Definition secondaryServer : string := nth 1 RouteCalculator.ROUTING_SERVERS EmptyString.

(** The cumulative straight-line distance, in kilometres, over the
    consecutive pairs of a waypoint list. *)
Fixpoint straightLineKm (waypoints : list Location) : R :=
  match waypoints with
  | a :: rest =>
      match rest with
      | b :: _ =>
          (Geo.calculateDistance (lat a) (lng a) (lat b) (lng b) + straightLineKm rest)%R
      | [] => 0%R
      end
  | [] => 0%R
  end.

(** The straight line through the waypoints, as GeoJSON positions. *)
Definition straightLine (waypoints : list Location) : list (R * R) :=
  map (fun wp => (lng wp, lat wp)) waypoints.

End RouteVocabulary.

Section ResolverVocabulary.
Import RouteCalculator LocationResolver.
Local Open Scope string_scope.
Local Open Scope list_scope.

(** A driving-time request that yields no usable route: the request is
    rejected, the response is not ok, or the body is not an ["Ok"] answer
    with at least one route. *)
Definition lookupFails (outcome : FetchOutcome) : Prop :=
  match outcome with
  | JsonBody data =>
      code data <> "Ok" \/ routes data = None \/ routes data = Some []
  | HttpStatus _ | FetchRejects _ _ => True
  end.

(** The straight-line estimate of [estimateDrivingTime]. *)
Definition straightLineEstimate (fromLat fromLng toLat toLng : R) : TimeInfo :=
  let straightLineKm := Geo.calculateDistance fromLat fromLng toLat toLng in
  {| duration := (straightLineKm / 40) * 3600;
     distance := straightLineKm * 1000;
     isEstimate := true |}.

(** A list in ascending order of a real-valued key. *)
Definition ascending {A : Type} (key : A -> R) : list A -> Prop :=
  StronglySorted (fun a b => (key a <= key b)%R).

(** The straight-line distance a candidate carries, 0 when it carries none. *)
Definition distanceKey (r : SearchResult) : R :=
  match straightLineDistance r with Number d => d | _ => 0%R end.

Definition hasDistance (r : SearchResult) : Prop :=
  exists d, straightLineDistance r = Number d.

(** The driving time a candidate carries, 0 when it carries none. *)
Definition timeKey (r : SearchResult) : R :=
  match drivingTime r with Number t => t | _ => 0%R end.

Definition hasDrivingTime (r : SearchResult) : Prop :=
  exists t, drivingTime r = Number t.

(** The order the final comparator stands for: candidates with a driving
    time come first, by ascending time; those whose driving time is [null]
    follow, by ascending straight-line distance. *)
Definition drivingOrder (a b : SearchResult) : Prop :=
  match drivingTime a, drivingTime b with
  | Number x, Number y => (x <= y)%R
  | Number _, _ => True
  | _, Number _ => False
  | _, _ => (distanceKey a <= distanceKey b)%R
  end.

(** A candidate decorated with its distance from the reference point. *)
Definition withDistance (nearLat nearLng : R) (result : SearchResult) : SearchResult :=
  {| display_name := display_name result;
     res_lat := res_lat result;
     res_lon := res_lon result;
     straightLineDistance :=
       Number (Geo.calculateDistance nearLat nearLng (res_lat result) (res_lon result));
     drivingTime := drivingTime result;
     drivingDistance := drivingDistance result |}.

(** A candidate decorated with the outcome of its driving-time lookup. *)
Definition withTime (result : SearchResult) (timeInfo : TimeInfo) : SearchResult :=
  {| display_name := display_name result;
     res_lat := res_lat result;
     res_lon := res_lon result;
     straightLineDistance := straightLineDistance result;
     drivingTime := Number (duration timeInfo);
     drivingDistance := Number (distance timeInfo) |}.

(** [entry] is the candidate of rank [i] with the time its lookup returned;
    when every provider fails for it, that time is the straight-line
    estimate. *)
Definition timedEntry (net : Network) (nearLat nearLng : R)
    (i : nat) (result entry : SearchResult) : Prop :=
  exists timeInfo,
    completion (estimateDrivingTime (drivingFetch net i) nearLat nearLng
                  (res_lat result) (res_lon result)) = Returned timeInfo /\
    entry = withTime result timeInfo /\
    ((forall s, In s ROUTING_SERVERS -> lookupFails (drivingFetch net i s)) ->
     timeInfo = straightLineEstimate nearLat nearLng (res_lat result) (res_lon result)).

Definition timedEntries (net : Network) (nearLat nearLng : R) (first : nat)
    (candidates entries : list SearchResult) : Prop :=
  Forall2 (fun p entry => timedEntry net nearLat nearLng (fst p) (snd p) entry)
          (combine (seq first (length candidates)) candidates) entries.

End ResolverVocabulary.

Section ResolverInstances.
Import RouteCalculator LocationResolver.
Local Open Scope R_scope.

(** A candidate as the geocoder delivers it. *)
Definition candidate (name : string) (la lo : R) : SearchResult :=
  {| display_name := name; res_lat := la; res_lon := lo;
     straightLineDistance := Absent; drivingTime := Absent; drivingDistance := Absent |}.

(** A geocoder that lists a candidate one degree east of the reference point
    [(0, 10)] before a candidate at the reference point itself. *)
Definition equatorNet : Network :=
  {| searchFetch := fun _ _ =>
       SearchResults [candidate "East" 0 11; candidate "Here" 0 10];
     drivingFetch := fun _ _ => FetchRejects "TypeError" "Failed to fetch" |}.

Definition demoRoute : OsrmRoute :=
  {| route_duration := 600; route_distance := 5000;
     route_geometry := {| gtype := "LineString"; coordinates := [] |} |}.

(** Around the reference point [(1, 1)]: the geocoder finds a candidate at
    the reference point and one a degree to the east; every driving-time
    request for the first is rejected, the requests for the second are
    answered with a ten-minute route. *)
Definition demoNet : Network :=
  {| searchFetch := fun _ _ =>
       SearchResults [candidate "Here" 1 1; candidate "There" 1 2];
     drivingFetch := fun i _ =>
       match i with
       | O => FetchRejects "TypeError" "Failed to fetch"
       | S _ => JsonBody {| code := "Ok"; routes := Some [demoRoute] |}
       end |}.

(** The two candidates after [searchLocation], and after the final ranking. *)
Definition hereNear : SearchResult :=
  {| display_name := "Here"; res_lat := 1; res_lon := 1;
     straightLineDistance := Number 0;
     drivingTime := Absent; drivingDistance := Absent |}.

Definition thereNear : SearchResult :=
  {| display_name := "There"; res_lat := 1; res_lon := 2;
     straightLineDistance := Number (Geo.calculateDistance 1 1 1 2);
     drivingTime := Absent; drivingDistance := Absent |}.

Definition hereRanked : SearchResult :=
  {| display_name := "Here"; res_lat := 1; res_lon := 1;
     straightLineDistance := Number 0;
     drivingTime := Number 0; drivingDistance := Number 0 |}.

Definition thereRanked : SearchResult :=
  {| display_name := "There"; res_lat := 1; res_lon := 2;
     straightLineDistance := Number (Geo.calculateDistance 1 1 1 2);
     drivingTime := Number 600; drivingDistance := Number 5000 |}.

End ResolverInstances.

Section RouteInstances.
Import RouteCalculator.
Local Open Scope R_scope.

(** The start of the pinned scenario. *)
Definition origin : Location := {| lat := 0; lng := 0 |}.

(** The three stops of the pinned scenario: A and C free, B locked in the
    middle slot. *)
Definition stopA : Destination :=
  {| id := 1; address := "A"; location := {| lat := 1; lng := 0 |}; locked := false |}.

Definition stopB : Destination :=
  {| id := 2; address := "B"; location := {| lat := 5; lng := 5 |}; locked := true |}.

Definition stopC : Destination :=
  {| id := 3; address := "C"; location := {| lat := 2; lng := 0 |}; locked := false |}.

(** Four stops of which an unlocked one carries the identifier of a locked
    one, which [addDestination] never produces. *)
Definition pinnedFirst : Destination :=
  {| id := 1; address := "Bank"; location := {| lat := 1; lng := 0 |}; locked := true |}.

Definition sharesIdentifier : Destination :=
  {| id := 1; address := "Gym"; location := {| lat := 2; lng := 0 |}; locked := false |}.

Definition freeStop : Destination :=
  {| id := 2; address := "Shop"; location := {| lat := 3; lng := 0 |}; locked := false |}.

Definition pinnedLast : Destination :=
  {| id := 3; address := "Home"; location := {| lat := 4; lng := 0 |}; locked := true |}.

(** Two waypoints one degree apart, and the same pair with a latitude of 91. *)
Definition twoWaypoints : list Waypoint :=
  [ raw {| lat := 0; lng := 0 |}; raw {| lat := 1; lng := 1 |} ].

Definition latitude91 : list Waypoint :=
  [ raw {| lat := 0; lng := 0 |}; raw {| lat := 91; lng := 1 |} ].

(** A route as a provider returns it. *)
Definition sampleRoute : OsrmRoute :=
  {| route_duration := 900; route_distance := 12000;
     route_geometry := {| gtype := "LineString"; coordinates := [(0, 0); (1, 1)] |} |}.

(** The primary provider never answers in time; the secondary one does. *)
Definition primaryDown : Network :=
  {| navigator_onLine := true;
     routeFetch := fun serverUrl _ =>
       if String.eqb serverUrl primaryServer
       then FetchRejects "AbortError" "The operation was aborted."
       else JsonBody {| code := "Ok"; routes := Some [sampleRoute] |};
     probeFetch := Some true |}.

(** Nothing can be reached. *)
Definition unreachable : Network :=
  {| navigator_onLine := true;
     routeFetch := fun _ _ => FetchRejects "TypeError" "Failed to fetch";
     probeFetch := None |}.

End RouteInstances.

(** ** Vocabulary of the further properties *)

(** The straight-line distance from a cursor position to a destination. *)
Definition distFrom (cursor : Location) (d : Destination) : R :=
  Geo.calculateDistance (lat cursor) (lng cursor) (lat (location d)) (lng (location d)).

(** A visiting order is greedy from a cursor when every unlocked stop is at
    least as near to the position reached before it as every unlocked stop
    that comes later. *)
Fixpoint greedyFrom (cursor : Location) (order : list Destination) : Prop :=
  match order with
  | [] => True
  | x :: rest =>
      (locked x = false ->
       Forall (fun y => locked y = false -> (distFrom cursor x <= distFrom cursor y)%R) rest)
      /\ greedyFrom (location x) rest
  end.

(** The position reached after visiting [visited], starting from [start]. *)
Definition cursorAfter (start : Location) (visited : list Destination) : Location :=
  last (map location visited) start.

(** What the loops keep true: the cursor is the place last visited, and
    every unlocked stop placed so far was at least as near to the cursor of
    its slot as whatever unlocked stop was placed after it or is still
    unvisited. *)
Definition Greedy (start : Location) (st : Optimizer.State) : Prop :=
  Optimizer.current st = cursorAfter start (Optimizer.result st) /\
  forall pre x post,
    Optimizer.result st = pre ++ x :: post -> locked x = false ->
    Forall (fun y => locked y = false ->
                     distFrom (cursorAfter start pre) x <= distFrom (cursorAfter start pre) y)%R
           post /\
    Forall (fun u => distFrom (cursorAfter start pre) x <= distFrom (cursorAfter start pre) u)%R
           (Optimizer.unvisited st).

(** An answer after which [tryRouteServer] gives the server up without a
    retry: HTTP 400, or one of the OSRM codes that state a fact about the
    request. *)
Definition givenUp (outcome : RouteCalculator.FetchOutcome) : Prop :=
  outcome = RouteCalculator.HttpStatus 400 \/
  exists data,
    outcome = RouteCalculator.JsonBody data /\
    In (RouteCalculator.code data)
       ["NoRoute"; "NoSegment"; "InvalidInput"; "InvalidQuery"; "TooBig"]%string.

(** The requests and pauses of [count] consecutive failed attempts on one
    server, the first being attempt [first]: after each attempt but the last
    allowed one, a pause of [waitTime attempt] milliseconds. *)
Definition retrySchedule (serverUrl : string) (waypoints : list Location)
    (maxRetries first count : nat) : list Event :=
  flat_map (fun attempt =>
              RouteRequest serverUrl waypoints ::
              (if Nat.ltb attempt maxRetries
               then [Pause (RouteCalculator.waitTime attempt)] else []))
           (seq first count).

(** The error records of [count] consecutive attempts failing with the same
    message. *)
Definition recordedErrors (serverUrl error : string) (first count : nat)
    : list RouteCalculator.ErrorRecord :=
  map (fun attempt =>
         {| RouteCalculator.err_server := serverUrl;
            RouteCalculator.err_attempt := attempt + 1;
            RouteCalculator.err_error := error |})
      (seq first count).

(** What a trace of [calculateRoute] may contain: routing requests to the
    configured servers, pauses between one and five seconds, the
    connectivity probe and toasts. *)
Definition orderlyEvent (e : Event) : Prop :=
  match e with
  | RouteRequest serverUrl _ => In serverUrl RouteCalculator.ROUTING_SERVERS
  | Pause milliseconds => 1000 <= milliseconds <= 5000
  | ConnectivityProbe | Toast _ _ => True
  | DrivingTimeRequest _ _ _ | SearchRequest _ _ => False
  end.

(** The number of connectivity probes in a trace. *)
Definition probes (t : list Event) : nat :=
  length (filter (fun e => match e with ConnectivityProbe => true | _ => false end) t).

(** The number of network requests of any kind in a trace. *)
Definition networkRequests (t : list Event) : nat :=
  length (filter (fun e => match e with
                           | RouteRequest _ _ | DrivingTimeRequest _ _ _
                           | SearchRequest _ _ | ConnectivityProbe => true
                           | Pause _ | Toast _ _ => false
                           end) t).

(** The events of one server's attempts, and of the whole provider loop
    over [servers], for the waypoints [wps]. *)
Definition attemptEvent (wps : list Location) (s : string) (e : Event) : Prop :=
  e = RouteRequest s wps \/ exists k, e = Pause (RouteCalculator.waitTime k).

Definition loopEvent (wps : list Location) (servers : list string) (e : Event) : Prop :=
  (exists s, In s servers /\ e = RouteRequest s wps) \/
  exists k, e = Pause (RouteCalculator.waitTime k).

(** The browser reports itself offline. *)
Definition offlineNet : RouteCalculator.Network :=
  {| RouteCalculator.navigator_onLine := false;
     RouteCalculator.routeFetch := fun _ _ =>
       RouteCalculator.FetchRejects "TypeError" "Failed to fetch";
     RouteCalculator.probeFetch := None |}.

(** The primary provider answers the third request; until then it times
    out. *)
Definition slowPrimary : RouteCalculator.Network :=
  {| RouteCalculator.navigator_onLine := true;
     RouteCalculator.routeFetch := fun _ attempt =>
       if Nat.ltb attempt 2
       then RouteCalculator.FetchRejects "AbortError" "The operation was aborted."
       else RouteCalculator.JsonBody
              {| RouteCalculator.code := "Ok";
                 RouteCalculator.routes := Some [sampleRoute] |};
     RouteCalculator.probeFetch := Some true |}.

(** Both providers report that no route exists. *)
Definition noRouteNet : RouteCalculator.Network :=
  {| RouteCalculator.navigator_onLine := true;
     RouteCalculator.routeFetch := fun _ _ =>
       RouteCalculator.JsonBody
         {| RouteCalculator.code := "NoRoute"; RouteCalculator.routes := None |};
     RouteCalculator.probeFetch := Some true |}.

(** Both providers answer every request with the given HTTP status. *)
Definition statusNet (status : nat) : RouteCalculator.Network :=
  {| RouteCalculator.navigator_onLine := true;
     RouteCalculator.routeFetch := fun _ _ => RouteCalculator.HttpStatus status;
     RouteCalculator.probeFetch := Some true |}.




(** A candidate five kilometres away whose driving time is [null], and one
    ten kilometres away reached in ten minutes. *)
Definition untimedNear : LocationResolver.SearchResult :=
  {| LocationResolver.display_name := "Near";
     LocationResolver.res_lat := 1; LocationResolver.res_lon := 1;
     LocationResolver.straightLineDistance := LocationResolver.Number 5;
     LocationResolver.drivingTime := LocationResolver.Null;
     LocationResolver.drivingDistance := LocationResolver.Null |}.

Definition timedFar : LocationResolver.SearchResult :=
  {| LocationResolver.display_name := "Far";
     LocationResolver.res_lat := 1; LocationResolver.res_lon := 2;
     LocationResolver.straightLineDistance := LocationResolver.Number 10;
     LocationResolver.drivingTime := LocationResolver.Number 600;
     LocationResolver.drivingDistance := LocationResolver.Number 12000 |}.

(** ** Session vocabulary *)

(** The identifiers of the destinations are pairwise distinct and were all
    handed out by the counter. *)
Definition identified (st : Session.State) : Prop :=
  NoDup (map Session.stop_id (Session.destinations st)) /\
  Forall (fun d => 1 <= Session.stop_id d <= Session.destinationCounter st)
         (Session.destinations st).

(** The session states that the handlers can produce from the initial one,
    each handler running to completion. *)
Section Reachability.
Variable trim : string -> string.
Variable typeErrorMessage : string.

Inductive reachable : Session.State -> Prop :=
  | reach_initial : reachable Session.initialState
  | reach_add st :
      reachable st -> reachable (Session.addDestination st)
  | reach_remove id st :
      reachable st -> reachable (Session.removeDestination id st)
  | reach_toggle id st :
      reachable st -> reachable (snd (Session.toggleDestinationLock id st))
  | reach_select id name place st :
      reachable st -> reachable (Session.selectSuggestion id name place st)
  | reach_blur id value st :
      reachable st -> reachable (Session.blurInput id value st)
  | reach_drop draggedId targetId st st' :
      reachable st -> Session.handleDrop draggedId targetId st = Some st' -> reachable st'
  | reach_start place st :
      reachable st -> reachable (Session.setStartLocation place st)
  | reach_return checked st :
      reachable st -> reachable (Session.handleReturnToStartChange checked st)
  | reach_optimize world st :
      reachable st ->
      reachable (snd (fst (Session.optimizeRoute trim typeErrorMessage world st))).

End Reachability.

(** What [optimizeRoute] may do to a destination: nothing, or give a
    location to one that has an address and no location yet. *)
Definition filledIn (hasAddress : Session.Stop -> bool) (before after : Session.Stop)
    : Prop :=
  Session.stop_id after = Session.stop_id before /\
  Session.stop_address after = Session.stop_address before /\
  Session.stop_locked after = Session.stop_locked before /\
  (Session.stop_location after = Session.stop_location before \/
   (Session.stop_location before = None /\ hasAddress before = true /\
    Session.stop_location after <> None)).

Definition isToast (e : Event) : bool :=
  match e with Toast _ _ => true | _ => false end.

(** The path of a directions address: every coordinate pair behind a
    slash. *)
Definition legs (pairs : list string) : string :=
  fold_right (fun p rest => ("/" ++ p ++ rest)%string) ""%string pairs.

(** *** Sessions used as instances *)

Definition stopAt (n : nat) (name : string) (place : option Location) (pinned : bool)
    : Session.Stop :=
  {| Session.stop_id := n;
     Session.stop_address := name;
     Session.stop_location := place;
     Session.stop_locked := pinned |}.

(** Three destinations as entered, none resolved yet. *)
Definition threeStops : Session.State :=
  {| Session.startLocation := None;
     Session.destinations :=
       [ stopAt 1 "Harbour" None false; stopAt 2 "Museum" None true;
         stopAt 3 "Station" None false ];
     Session.returnToStart := true;
     Session.isOptimizing := false;
     Session.destinationCounter := 3 |}.

(** A start at the origin and one resolved destination, no return. *)
Definition readySession : Session.State :=
  {| Session.startLocation := Some {| lat := 0; lng := 0 |};
     Session.destinations := [ stopAt 1 "Harbour" (Some {| lat := 1; lng := 1 |}) false ];
     Session.returnToStart := false;
     Session.isOptimizing := false;
     Session.destinationCounter := 1 |}.

(** A browser that reports itself offline. *)
Definition offlineWorld : Session.World :=
  {| Session.geocoder := fun _ => equatorNet;
     Session.originalNet := offlineNet;
     Session.optimizedNet := offlineNet |}.



(** * Properties *)

(** ** Geospatial math *)

Section GeoFacts.
Local Open Scope R_scope.

Lemma Rltb_true (x y : R) : x < y -> Rltb x y = true.
Proof. intros H; unfold Rltb; destruct (Rlt_dec x y); [reflexivity | contradiction]. Qed.

Lemma Rltb_false (x y : R) : ~ x < y -> Rltb x y = false.
Proof. intros H; unfold Rltb; destruct (Rlt_dec x y); [contradiction | reflexivity]. Qed.

Lemma Reqb_refl (x : R) : Reqb x x = true.
Proof. unfold Reqb; destruct (Req_dec_T x x); [reflexivity | contradiction]. Qed.

Lemma Reqb_neq (x y : R) : x <> y -> Reqb x y = false.
Proof. intros H; unfold Reqb; destruct (Req_dec_T x y); [contradiction | reflexivity]. Qed.

Lemma Math_atan2_pos_x (y x : R) : 0 < x -> Math_atan2 y x = atan (y / x).
Proof.
  intros Hx; unfold Math_atan2.
  destruct (Rlt_dec 0 x); [reflexivity | contradiction].
Qed.

(** In the closed first quadrant the angle is not negative. *)
Lemma Math_atan2_nonneg (y x : R) : 0 <= y -> 0 <= x -> 0 <= Math_atan2 y x.
Proof.
  intros Hy Hx; unfold Math_atan2.
  destruct (Rlt_dec 0 x) as [Hpos | Hnpos].
  - destruct Hy as [Hy | <-].
    + left. rewrite <- atan_0. apply atan_increasing.
      apply Rdiv_lt_0_compat; assumption.
    + unfold Rdiv; rewrite Rmult_0_l, atan_0; right; reflexivity.
  - destruct (Rlt_dec x 0) as [Hneg | _]; [lra |].
    destruct (Rlt_dec 0 y).
    + pose proof PI_RGT_0; lra.
    + destruct (Rlt_dec y 0); lra.
Qed.

(** Off the horizontal axis, in the first quadrant, the angle is positive. *)
Lemma Math_atan2_pos (y x : R) : 0 < y -> 0 <= x -> 0 < Math_atan2 y x.
Proof.
  intros Hy Hx; unfold Math_atan2.
  destruct (Rlt_dec 0 x) as [Hpos | Hnpos].
  - rewrite <- atan_0. apply atan_increasing.
    apply Rdiv_lt_0_compat; assumption.
  - destruct (Rlt_dec x 0) as [Hneg | _]; [lra |].
    destruct (Rlt_dec 0 y); [| contradiction].
    pose proof PI_RGT_0; lra.
Qed.

Lemma toRad_0 : Geo.toRad 0 = 0.
Proof. unfold Geo.toRad; lra. Qed.

Lemma toRad_opp (d : R) : Geo.toRad (- d) = - Geo.toRad d.
Proof. unfold Geo.toRad; lra. Qed.

Lemma sin_half_opp_sqr (x : R) : sin (- x / 2) * sin (- x / 2) = sin (x / 2) * sin (x / 2).
Proof.
  replace (- x / 2) with (- (x / 2)) by lra.
  rewrite sin_neg; ring.
Qed.

Lemma calculateDistance_same (la lo : R) : Geo.calculateDistance la lo la lo = 0.
Proof.
  unfold Geo.calculateDistance.
  replace (la - la) with 0 by ring.
  replace (lo - lo) with 0 by ring.
  rewrite toRad_0.
  replace (0 / 2) with 0 by lra.
  rewrite sin_0.
  replace (0 * 0 + cos (Geo.toRad la) * cos (Geo.toRad la) * 0 * 0) with 0 by ring.
  rewrite Rminus_0_r, sqrt_0, sqrt_1.
  rewrite Math_atan2_pos_x by lra.
  replace (0 / 1) with 0 by lra.
  rewrite atan_0; ring.
Qed.

Lemma calculateDistance_sym (la1 lo1 la2 lo2 : R) :
  Geo.calculateDistance la1 lo1 la2 lo2 = Geo.calculateDistance la2 lo2 la1 lo1.
Proof.
  unfold Geo.calculateDistance.
  replace (la1 - la2) with (- (la2 - la1)) by ring.
  replace (lo1 - lo2) with (- (lo2 - lo1)) by ring.
  rewrite !toRad_opp.
  set (u := Geo.toRad (la2 - la1)).
  set (v := Geo.toRad (lo2 - lo1)).
  assert (Ha : sin (- u / 2) * sin (- u / 2) +
               cos (Geo.toRad la2) * cos (Geo.toRad la1) * sin (- v / 2) * sin (- v / 2)
             = sin (u / 2) * sin (u / 2) +
               cos (Geo.toRad la1) * cos (Geo.toRad la2) * sin (v / 2) * sin (v / 2)).
  { rewrite sin_half_opp_sqr.
    rewrite !Rmult_assoc, (sin_half_opp_sqr v). ring. }
  rewrite Ha; reflexivity.
Qed.

Lemma calculateDistance_nonneg (la1 lo1 la2 lo2 : R) :
  0 <= Geo.calculateDistance la1 lo1 la2 lo2.
Proof.
  unfold Geo.calculateDistance.
  match goal with
  | |- 0 <= _ * (2 * Math_atan2 ?y ?x) =>
      assert (H : 0 <= Math_atan2 y x) by (apply Math_atan2_nonneg; apply sqrt_pos)
  end.
  lra.
Qed.

End GeoFacts.

(** C8: the haversine distance of a coordinate to itself is 0, and the
    distance does not depend on the order of its two coordinates.  Both hold
    for all real latitudes and longitudes, in particular for the valid ones. *)
Theorem C8_distance_zero_on_identical_and_symmetric :
  (forall a : Location,
      Geo.calculateDistance (lat a) (lng a) (lat a) (lng a) = 0%R) /\
  (forall a b : Location,
      Geo.calculateDistance (lat a) (lng a) (lat b) (lng b) =
      Geo.calculateDistance (lat b) (lng b) (lat a) (lng a)).
Proof.
  split.
  - intros a; apply calculateDistance_same.
  - intros a b; apply calculateDistance_sym.
Qed.

(** ** Order optimizer *)

Section ArrayFacts.
Context {A : Type}.

Lemma spliceOut_perm (k : nat) (l : list A) (x : A) :
  nth_error l k = Some x -> Permutation (x :: spliceOut k l) l.
Proof.
  revert k; induction l as [| y l IH]; intros [| k] H; simpl in *; try discriminate.
  - injection H as ->; reflexivity.
  - rewrite perm_swap. constructor. apply IH, H.
Qed.

Lemma spliceOut_length (k : nat) (l : list A) (x : A) :
  nth_error l k = Some x -> S (length (spliceOut k l)) = length l.
Proof.
  intros H. apply spliceOut_perm, Permutation_length in H. exact H.
Qed.

Lemma spliceOut_In (k : nat) (l : list A) (y : A) :
  In y (spliceOut k l) -> In y l.
Proof.
  revert k; induction l as [| z l IH]; intros [| k] H; simpl in *; auto.
  destruct H as [H | H]; [left; exact H | right; eapply IH, H].
Qed.

Lemma findIndex_none (p : A -> bool) (l : list A) :
  (forall x, In x l -> p x = false) -> findIndex p l = None.
Proof.
  induction l as [| y l IH]; intros H; simpl; [reflexivity |].
  rewrite (H y (or_introl eq_refl)), IH; [reflexivity |].
  intros x Hx; apply H; right; exact Hx.
Qed.

Lemma NoDup_map_eq {B : Type} (f : A -> B) (l : list A) (x y : A) :
  NoDup (map f l) -> In x l -> In y l -> f x = f y -> x = y.
Proof.
  induction l as [| z l IH]; simpl; intros Hnd Hx Hy Hf; [contradiction |].
  inversion Hnd as [| ? ? Hnotin Hnd']; subst.
  destruct Hx as [-> | Hx], Hy as [-> | Hy]; auto.
  - exfalso; apply Hnotin; rewrite Hf; apply in_map, Hy.
  - exfalso; apply Hnotin; rewrite <- Hf; apply in_map, Hx.
Qed.

Lemma filter_split_perm (p : A -> bool) (l : list A) :
  Permutation (filter (fun x => negb (p x)) l ++ filter p l) l.
Proof.
  induction l as [| x l IH]; simpl; [constructor |].
  destruct (p x); simpl.
  - rewrite <- Permutation_middle. constructor; exact IH.
  - constructor; exact IH.
Qed.

End ArrayFacts.

Section OptimizerFacts.
Import Optimizer.

Lemma NoDup_ids_apart (dests : list Destination) :
  NoDup (map id dests) -> ids_apart dests.
Proof.
  intros Hnd d u Hd Hu Hld Hlu Hid.
  assert (u = d) by (eapply NoDup_map_eq; eauto).
  subst; congruence.
Qed.

Lemma unlocked_ids_apart (dests : list Destination) :
  (forall d, In d dests -> locked d = false) -> ids_apart dests.
Proof.
  intros Hall d u Hd _ Hld _. rewrite (Hall d Hd) in Hld; discriminate.
Qed.

(** The index chosen by the inner loop is the one it started from or lies in
    the part of the array still to be scanned. *)
Lemma nearestLoop_range (cur : Location) (rest : list Destination)
    (j idx : nat) (nd : option R) :
  nearestLoop cur rest j idx nd = idx \/
  (j <= nearestLoop cur rest j idx nd < j + length rest).
Proof.
  revert j idx nd; induction rest as [| u rest IH]; intros j idx nd; simpl.
  - left; reflexivity.
  - destruct (lessThan _ nd).
    + right. destruct (IH (S j) j (Some (Geo.calculateDistance (lat cur) (lng cur)
                                           (lat (location u)) (lng (location u)))))
        as [-> | H]; lia.
    + destruct (IH (S j) idx nd) as [-> | H]; [left; reflexivity | right; lia].
Qed.

Lemma nearestIndex_in_range (cur : Location) (l : list Destination) :
  l <> [] -> nearestIndex cur l < length l.
Proof.
  intros Hne; unfold nearestIndex.
  destruct (nearestLoop_range cur l 0 0 None) as [-> | H]; [| lia].
  destruct l; [contradiction | simpl; lia].
Qed.

Lemma visitNearest_spec (st : State) :
  unvisited st <> [] ->
  exists k nearest,
    nth_error (unvisited st) k = Some nearest /\
    visitNearest st = {| result := result st ++ [nearest];
                         unvisited := spliceOut k (unvisited st);
                         current := location nearest |}.
Proof.
  intros Hne. unfold visitNearest.
  pose proof (nearestIndex_in_range (current st) (unvisited st) Hne) as Hlt.
  apply nth_error_Some in Hlt.
  destruct (nth_error (unvisited st) (nearestIndex (current st) (unvisited st)))
    as [nearest |] eqn:E; [| congruence].
  exists (nearestIndex (current st) (unvisited st)), nearest; auto.
Qed.

(** The [while] loop leaves when [unvisited] is empty, not because the fuel
    of the model is spent. *)
Lemma drain_exhausts (fuel : nat) (st : State) :
  length (unvisited st) <= fuel -> unvisited (drain fuel st) = [].
Proof.
  revert st; induction fuel as [| fuel IH]; intros st Hle; simpl.
  - destruct (unvisited st); [reflexivity | simpl in Hle; lia].
  - destruct (unvisited st) as [| u us] eqn:E; simpl; [exact E |].
    apply IH.
    destruct (visitNearest_spec st) as (k & nearest & Hk & ->); [congruence |].
    simpl. apply spliceOut_length in Hk. rewrite E in *; simpl in *; lia.
Qed.

Lemma Inv_init (start : Location) (dests : list Destination) :
  Inv dests [] dests {| result := []; unvisited := unlockedOf dests; current := start |}.
Proof.
  constructor; simpl.
  - reflexivity.
  - intros [| i] d H; discriminate.
  - rewrite app_nil_r; reflexivity.
  - reflexivity.
  - apply Forall_forall. intros u Hu. apply filter_In in Hu as [Hin Hl].
    split; [exact Hin | now apply negb_true_iff].
Qed.

Lemma Inv_step (dests p s : list Destination) (d : Destination) (st : State) :
  ids_apart dests -> In d dests ->
  Inv dests p (d :: s) st -> Inv dests (p ++ [d]) s (step st d).
Proof.
  intros Hapart Hd [Hlen Hpin Hperm Hleft Hfree].
  unfold step. destruct (locked d) eqn:Hl.
  - (* a locked destination keeps its place; nothing leaves [unvisited] *)
    rewrite findIndex_none.
    2:{ intros u Hu. rewrite Forall_forall in Hfree.
        destruct (Hfree u Hu) as [Hin Hul].
        apply Nat.eqb_neq. eapply Hapart; eauto. }
    constructor; simpl.
    + rewrite !length_app, Hlen; reflexivity.
    + intros i d' Hi Hd'.
      destruct (Nat.lt_ge_cases i (length p)) as [Hlt | Hge].
      * rewrite nth_error_app1 in Hi by exact Hlt.
        rewrite nth_error_app1 by (rewrite Hlen; exact Hlt). auto.
      * rewrite nth_error_app2 in Hi by exact Hge.
        rewrite nth_error_app2 by (rewrite Hlen; exact Hge).
        rewrite Hlen. exact Hi.
    + unfold lockedOf. rewrite filter_app; simpl; rewrite Hl.
      rewrite <- app_assoc; simpl.
      rewrite <- Permutation_middle.
      rewrite app_assoc, <- Permutation_cons_append.
      constructor; exact Hperm.
    + unfold unlockedOf in *; simpl in Hleft; rewrite Hl in Hleft; exact Hleft.
    + exact Hfree.
  - (* an unlocked slot receives the nearest unvisited destination *)
    assert (Hne : unvisited st <> []).
    { unfold unlockedOf in Hleft; simpl in Hleft; rewrite Hl in Hleft; simpl in Hleft.
      destruct (unvisited st); [discriminate | congruence]. }
    assert (Hpos : Nat.ltb 0 (length (unvisited st)) = true).
    { apply Nat.ltb_lt. destruct (unvisited st); [congruence | simpl; lia]. }
    rewrite Hpos.
    destruct (visitNearest_spec st Hne) as (k & nearest & Hk & ->).
    constructor; simpl.
    + rewrite !length_app, Hlen; reflexivity.
    + intros i d' Hi Hd'.
      destruct (Nat.lt_ge_cases i (length p)) as [Hlt | Hge].
      * rewrite nth_error_app1 in Hi by exact Hlt.
        rewrite nth_error_app1 by (rewrite Hlen; exact Hlt). auto.
      * rewrite nth_error_app2 in Hi by exact Hge.
        destruct (i - length p) as [| n]; simpl in Hi.
        -- injection Hi as <-; congruence.
        -- destruct n; discriminate.
    + unfold lockedOf. rewrite filter_app; simpl; rewrite Hl, app_nil_r.
      rewrite <- app_assoc; simpl.
      rewrite (spliceOut_perm _ _ _ Hk). exact Hperm.
    + apply spliceOut_length in Hk.
      unfold unlockedOf in *; simpl in Hleft; rewrite Hl in Hleft; simpl in Hleft. lia.
    + apply Forall_forall. intros u Hu. rewrite Forall_forall in Hfree.
      apply Hfree. eapply spliceOut_In, Hu.
Qed.

Lemma Inv_loop (dests s p : list Destination) (st : State) :
  ids_apart dests -> (forall d, In d s -> In d dests) ->
  Inv dests p s st -> Inv dests (p ++ s) [] (fold_left step s st).
Proof.
  intros Hapart. revert p st; induction s as [| d s IH]; intros p st Hin Hinv; simpl.
  - rewrite app_nil_r; exact Hinv.
  - replace (p ++ d :: s) with ((p ++ [d]) ++ s) by (rewrite <- app_assoc; reflexivity).
    apply IH.
    + intros d' Hd'; apply Hin; right; exact Hd'.
    + apply Inv_step; auto. apply Hin; left; reflexivity.
Qed.

(** When locked and unlocked identifiers are apart, the optimizer returns a
    rearrangement of its input in which every locked destination has kept
    its index. *)
Lemma findOptimalOrder_spec (start : Location) (dests : list Destination) (rts : bool) :
  ids_apart dests ->
  Permutation (findOptimalOrder start dests rts) dests /\
  (forall i d, nth_error dests i = Some d -> locked d = true ->
               nth_error (findOptimalOrder start dests rts) i = Some d).
Proof.
  intros Hapart. unfold findOptimalOrder.
  destruct (Nat.leb _ 1); [split; auto |].
  pose proof (Inv_loop dests dests [] _ Hapart (fun d H => H) (Inv_init start dests))
    as [Hlen Hpin Hperm Hleft Hfree].
  simpl in *.
  set (st1 := fold_left step dests _) in *.
  assert (Hempty : unvisited st1 = []).
  { destruct (unvisited st1); [reflexivity | discriminate]. }
  rewrite Hempty in *; simpl.
  rewrite app_nil_r in Hperm.
  split.
  - rewrite Hperm. apply filter_split_perm.
  - exact Hpin.
Qed.

End OptimizerFacts.

(** The identifiers matter: when an unlocked destination carries the
    identifier of a locked one, the locked branch splices it out of
    [unvisited], a later slot stays empty and the last locked destination
    moves up from index 3 to index 2. *)
Lemma findOptimalOrder_shared_identifier :
  Optimizer.findOptimalOrder origin
    [pinnedFirst; sharesIdentifier; freeStop; pinnedLast] true
  = [pinnedFirst; freeStop; pinnedLast].
Proof. reflexivity. Qed.

(** C1: in the output of [findOptimalOrder] every locked destination sits at
    the index it had in the input, for every list of destinations whose
    identifiers are pairwise distinct (as [addDestination] assigns them). *)
Theorem C1_locked_destinations_keep_their_index
    (start : Location) (destinations : list Destination) (returnToStart : bool)
    (Hids : NoDup (map id destinations)) :
  forall i d, nth_error destinations i = Some d -> locked d = true ->
    nth_error (Optimizer.findOptimalOrder start destinations returnToStart) i = Some d.
Proof.
  apply findOptimalOrder_spec, NoDup_ids_apart, Hids.
Qed.

(** C7: with no locked destination and at least two unlocked ones, the output
    of [findOptimalOrder] is a permutation of its input. *)
Theorem C7_unlocked_output_is_permutation
    (start : Location) (destinations : list Destination) (returnToStart : bool)
    (Hnone : forall d, In d destinations -> locked d = false)
    (Htwo : 2 <= length destinations) :
  Permutation destinations
    (Optimizer.findOptimalOrder start destinations returnToStart).
Proof.
  symmetry. apply findOptimalOrder_spec, unlocked_ids_apart, Hnone.
Qed.

(** ** Route calculator *)

Section MonadFacts.

Lemma bind_returned {A B} (t : list Event) (a : A) (k : A -> M B) :
  bind (t, Returned a) k = (t ++ trace (k a), completion (k a)).
Proof. unfold bind, trace, completion; destruct (k a); reflexivity. Qed.

End MonadFacts.

Section ValidationFacts.
Import RouteCalculator.
Local Open Scope R_scope.

Lemma validateFrom_sound (waypoints : list Waypoint) (i : nat) :
  valid (validateFrom i waypoints) = true -> Forall wellFormed waypoints.
Proof.
  revert i; induction waypoints as [| wp rest IH]; intros i H; [constructor |].
  simpl in H. destruct wp as [[la lo] |]; [| discriminate].
  simpl in H.
  destruct (negb (typeofNumber la) || negb (typeofNumber lo)) eqn:Etype; [discriminate |].
  destruct (ltConst la (-90) || gtConst la 90 || ltConst lo (-180) || gtConst lo 180)
    eqn:Erange; [discriminate |].
  destruct (isNaN la || isNaN lo) eqn:Enan; [discriminate |].
  constructor; [| eapply IH, H].
  destruct la as [x | | nx |], lo as [y | | ny |]; simpl in Etype, Erange, Enan |- *;
    try discriminate;
    unfold Rltb in Erange;
    repeat match type of Erange with
           | context [Rlt_dec ?a ?b] => destruct (Rlt_dec a b)
           end;
    try (destruct nx); try (destruct ny); simpl in Erange; try discriminate.
  lra.
Qed.

Lemma validateFrom_complete (waypoints : list Waypoint) (i : nat) :
  Forall wellFormed waypoints -> valid (validateFrom i waypoints) = true.
Proof.
  intros H; revert i; induction H as [| wp rest Hwp _ IH]; intros i; [reflexivity |].
  destruct wp as [[la lo] |]; [| contradiction].
  destruct Hwp as [Hla Hlo]; simpl in Hla, Hlo.
  destruct la as [x | | |]; try contradiction.
  destruct lo as [y | | |]; try contradiction.
  simpl in Hla, Hlo |- *. rewrite !Rltb_false by lra. simpl. apply IH.
Qed.

(** [validateWaypoints] accepts exactly the lists of two or more well-formed
    waypoints. *)
Lemma validateWaypoints_valid_iff (waypoints : list Waypoint) :
  valid (validateWaypoints waypoints) = true <->
  (2 <= length waypoints)%nat /\ Forall wellFormed waypoints.
Proof.
  unfold validateWaypoints.
  destruct (Nat.ltb_spec (length waypoints) 2) as [Hlt | Hge]; simpl.
  - split; [discriminate | intros [H _]; lia].
  - split.
    + intros H; split; [exact Hge | eapply validateFrom_sound, H].
    + intros [_ H]; apply validateFrom_complete, H.
Qed.

(** Past validation every waypoint is the number pair [asLocation] reads. *)
Lemma validateWaypoints_typed (waypoints : list Waypoint) :
  valid (validateWaypoints waypoints) = true ->
  map raw (map asLocation waypoints) = waypoints.
Proof.
  intros H. apply validateWaypoints_valid_iff in H as [_ H].
  induction H as [| wp rest Hwp _ IH]; [reflexivity |].
  simpl; rewrite IH; f_equal.
  destruct wp as [[la lo] |]; [| contradiction].
  destruct Hwp as [Hla Hlo]; simpl in Hla, Hlo.
  destruct la; try contradiction. destruct lo; try contradiction. reflexivity.
Qed.

End ValidationFacts.

(** C4: a waypoint list with fewer than two entries, or with an entry whose
    latitude or longitude is missing, not a number, NaN or out of range, makes
    [calculateRoute] throw the validation error with an empty trace: no
    request, no pause, no toast, no fallback, whatever the options and the
    network are. *)
Theorem C4_invalid_waypoints_fail_before_any_request
    (net : RouteCalculator.Network) (waypoints : list RouteCalculator.Waypoint)
    (options : RouteCalculator.Options)
    (Hbad : length waypoints < 2 \/ Exists (fun wp => ~ wellFormed wp) waypoints) :
  RouteCalculator.valid (RouteCalculator.validateWaypoints waypoints) = false /\
  RouteCalculator.calculateRoute net waypoints options =
    ([], Thrown (RouteCalculator.error (RouteCalculator.validateWaypoints waypoints))).
Proof.
  assert (Hinvalid : RouteCalculator.valid (RouteCalculator.validateWaypoints waypoints) = false).
  { destruct (RouteCalculator.valid _) eqn:E; [| reflexivity].
    apply validateWaypoints_valid_iff in E as [Hlen Hall].
    destruct Hbad as [Hshort | Hex]; [lia |].
    apply Exists_exists in Hex as (wp & Hin & Hwp).
    rewrite Forall_forall in Hall. elim Hwp. apply Hall, Hin. }
  split; [exact Hinvalid |].
  unfold RouteCalculator.calculateRoute. rewrite Hinvalid. reflexivity.
Qed.

Section RouteFacts.
Import RouteCalculator.
Local Open Scope string_scope.
Local Open Scope list_scope.

Lemma bind_of_returned {A B} (m : M A) (a : A) (k : A -> M B) :
  completion m = Returned a ->
  bind m k = (trace m ++ trace (k a), completion (k a)).
Proof. destruct m as [t c]; simpl; intros ->; apply bind_returned. Qed.

Lemma requestsTo_app (s : string) (t1 t2 : list Event) :
  requestsTo s (t1 ++ t2) = requestsTo s t1 + requestsTo s t2.
Proof. unfold requestsTo; rewrite filter_app, length_app; reflexivity. Qed.

Variable net : Network.
Variable wps : list Location.
Variable maxR : nat.

Lemma attemptLoop_S_success (s : string) (fuel attempt : nat)
    (errors : list ErrorRecord) (data : RouteResult) :
  classify (routeFetch net s attempt) = Success data ->
  attemptLoop net s wps maxR (S fuel) attempt errors =
    ([RouteRequest s wps], Returned (inl data)).
Proof.
  intros H. cbn [attemptLoop]. unfold tryRouteServer, emit, ret.
  cbn [bind app]. rewrite H. reflexivity.
Qed.

Lemma attemptLoop_S_failure (s : string) (fuel attempt : nat)
    (errors : list ErrorRecord) (retryable : bool) (e : string) :
  classify (routeFetch net s attempt) = Failure retryable e ->
  attemptLoop net s wps maxR (S fuel) attempt errors =
    let errors' := errors ++ [ {| err_server := s; err_attempt := attempt + 1;
                                  err_error := e |} ] in
    if retryable then
      let rest := attemptLoop net s wps maxR fuel (S attempt) errors' in
      (RouteRequest s wps ::
         (if Nat.ltb attempt maxR then [Pause (waitTime attempt)] else []) ++ trace rest,
       completion rest)
    else ([RouteRequest s wps], Returned (inr errors')).
Proof.
  intros H. cbn [attemptLoop]. unfold tryRouteServer, emit, ret.
  cbn [bind app]. rewrite H.
  destruct retryable; cbn [negb]; [| reflexivity].
  destruct (Nat.ltb attempt maxR); cbn [bind app];
    destruct (attemptLoop net s wps maxR fuel (S attempt) _); reflexivity.
Qed.

(** A server whose every attempt fails in a retryable way is asked exactly
    as often as the loop has iterations left. *)
Lemma attemptLoop_retryable (s : string) (fuel : nat) :
  forall attempt errors,
    (forall k, attempt <= k < attempt + fuel ->
               exists e, classify (routeFetch net s k) = Failure true e) ->
    exists errors',
      completion (attemptLoop net s wps maxR fuel attempt errors) = Returned (inr errors') /\
      forall s', requestsTo s' (trace (attemptLoop net s wps maxR fuel attempt errors)) =
                 if String.eqb s s' then fuel else 0.
Proof.
  induction fuel as [| fuel IH]; intros attempt errors H.
  - exists errors; split; [reflexivity |].
    intros s'; destruct (String.eqb s s'); reflexivity.
  - destruct (H attempt) as [e He]; [lia |].
    rewrite (attemptLoop_S_failure _ _ _ _ _ _ He). cbn zeta.
    edestruct (IH (S attempt)) as (errors' & Hc & Ht).
    { intros k Hk; apply H; lia. }
    exists errors'; split; [exact Hc |].
    intros s'. cbn [trace fst].
    change (RouteRequest s wps :: ?l) with ([RouteRequest s wps] ++ l).
    rewrite !requestsTo_app, Ht.
    unfold requestsTo at 1; cbn [filter isRequestTo].
    destruct (String.eqb s s'); destruct (Nat.ltb attempt maxR); reflexivity.
Qed.

Lemma forallb_snoc {A} (p : A -> bool) (l : list A) (x : A) :
  forallb p (l ++ [x]) = forallb p l && p x.
Proof. rewrite forallb_app; simpl; rewrite andb_true_r; reflexivity. Qed.

Lemma attemptLoop_network (s : string) (fuel : nat) :
  forall attempt errors,
    attempt + fuel <= S maxR ->
    (forall k, k <= maxR -> networkClass (routeFetch net s k)) ->
    forallb isNetworkError errors = true ->
    exists errors',
      completion (attemptLoop net s wps maxR fuel attempt errors) = Returned (inr errors') /\
      forallb isNetworkError errors' = true.
Proof.
  induction fuel as [| fuel IH]; intros attempt errors Hle H Herr.
  - exists errors; split; [reflexivity | exact Herr].
  - destruct (H attempt) as (retryable & e & He & Hclass); [lia |].
    rewrite (attemptLoop_S_failure _ _ _ _ _ _ He). cbn zeta.
    assert (Herr' : forallb isNetworkError
                      (errors ++ [ {| err_server := s; err_attempt := attempt + 1;
                                      err_error := e |} ]) = true).
    { rewrite forallb_snoc, Herr. unfold isNetworkError; cbn [err_error andb].
      destruct Hclass as [-> | ->]; reflexivity. }
    destruct retryable.
    + destruct (IH (S attempt) _ ltac:(lia) H Herr') as (errors' & Hc & Hall).
      exists errors'; split; [exact Hc | exact Hall].
    + eexists; split; [reflexivity | exact Herr'].
Qed.

Lemma serverLoop_network (servers : list string) :
  forall errors,
    (forall s k, In s servers -> k <= maxR -> networkClass (routeFetch net s k)) ->
    forallb isNetworkError errors = true ->
    exists errors',
      completion (serverLoop net wps maxR servers errors) = Returned (inr errors') /\
      forallb isNetworkError errors' = true.
Proof.
  induction servers as [| s servers IH]; intros errors H Herr.
  - exists errors; split; [reflexivity | exact Herr].
  - cbn [serverLoop].
    destruct (attemptLoop_network s (S maxR) 0 errors ltac:(lia)
                (fun k Hk => H s k (or_introl eq_refl) Hk) Herr)
      as (errors1 & Hc1 & Hall1).
    rewrite (bind_of_returned _ _ _ Hc1). cbn [completion snd].
    apply IH; [| exact Hall1].
    intros s' k Hs'; apply H; right; exact Hs'.
Qed.

End RouteFacts.

(** C2: when every attempt on the primary provider is aborted by the timeout
    and the secondary provider answers its first request with a route,
    [calculateRoute] returns that route's duration, distance and geometry,
    not marked as fallback; its last effect is the one request to the
    secondary provider, and before it exactly [maxRetries + 1] requests went
    to the primary provider. *)
Theorem C2_failover_to_secondary_after_primary_timeouts
    (net : RouteCalculator.Network) (waypoints : list RouteCalculator.Waypoint)
    (options : RouteCalculator.Options)
    (route0 : RouteCalculator.OsrmRoute) (more : list RouteCalculator.OsrmRoute)
    (Hvalid : RouteCalculator.valid (RouteCalculator.validateWaypoints waypoints) = true)
    (Honline : RouteCalculator.isOnline net = true)
    (Hprimary : forall attempt, attempt <= RouteCalculator.maxRetries options ->
        exists message,
          RouteCalculator.routeFetch net primaryServer attempt =
          RouteCalculator.FetchRejects "AbortError" message)
    (Hsecondary :
        RouteCalculator.routeFetch net secondaryServer 0 =
        RouteCalculator.JsonBody
          {| RouteCalculator.code := "Ok";
             RouteCalculator.routes := Some (route0 :: more) |}) :
  let run := RouteCalculator.calculateRoute net waypoints options in
  completion run =
    Returned {| RouteCalculator.duration := RouteCalculator.route_duration route0;
                RouteCalculator.distance := RouteCalculator.route_distance route0;
                RouteCalculator.geometry := RouteCalculator.route_geometry route0;
                RouteCalculator.isFallback := false |} /\
  exists before,
    trace run =
      before ++ [RouteRequest secondaryServer (map RouteCalculator.asLocation waypoints)] /\
    requestsTo primaryServer before = RouteCalculator.maxRetries options + 1 /\
    requestsTo secondaryServer before = 0.
Proof.
  intros run; subst run.
  set (wps := map RouteCalculator.asLocation waypoints).
  set (maxR := RouteCalculator.maxRetries options) in *.
  destruct (attemptLoop_retryable net wps maxR primaryServer (S maxR) 0 [])
    as (errors1 & Hc1 & Ht1).
  { intros k Hk. destruct (Hprimary k) as [message Hm]; [lia |].
    exists "Request timed out"%string. rewrite Hm. reflexivity. }
  assert (Hloop :
    RouteCalculator.serverLoop net wps maxR RouteCalculator.ROUTING_SERVERS [] =
    (trace (RouteCalculator.attemptLoop net primaryServer wps maxR (S maxR) 0 [])
       ++ [RouteRequest secondaryServer wps],
     Returned (inl {| RouteCalculator.duration := RouteCalculator.route_duration route0;
                      RouteCalculator.distance := RouteCalculator.route_distance route0;
                      RouteCalculator.geometry := RouteCalculator.route_geometry route0;
                      RouteCalculator.isFallback := false |}))).
  { unfold RouteCalculator.ROUTING_SERVERS. cbn [RouteCalculator.serverLoop].
    change "https://router.project-osrm.org"%string with primaryServer.
    change "https://routing.openstreetmap.de/routed-car"%string with secondaryServer.
    rewrite (bind_of_returned _ _ _ Hc1).
    rewrite (attemptLoop_S_success net wps maxR secondaryServer maxR 0 errors1
               {| RouteCalculator.duration := RouteCalculator.route_duration route0;
                  RouteCalculator.distance := RouteCalculator.route_distance route0;
                  RouteCalculator.geometry := RouteCalculator.route_geometry route0;
                  RouteCalculator.isFallback := false |}).
    2:{ rewrite Hsecondary. reflexivity. }
    reflexivity. }
  unfold RouteCalculator.calculateRoute.
  rewrite Hvalid, Honline. cbn [negb]. fold wps. fold maxR.
  rewrite Hloop. cbn [bind ret trace completion fst snd].
  rewrite app_nil_r.
  split; [reflexivity |].
  eexists; split; [reflexivity |].
  rewrite !Ht1.
  change (String.eqb primaryServer primaryServer) with true.
  change (String.eqb primaryServer secondaryServer) with false.
  split; [lia | reflexivity].
Qed.

Section FallbackFacts.
Import RouteCalculator.
Local Open Scope R_scope.

Lemma fallbackLoop_spec (waypoints : list Location) :
  forall prev total coords,
    fallbackLoop prev waypoints total coords =
    (total + 1000 * straightLineKm (match prev with
                                    | Some p => p :: waypoints
                                    | None => waypoints
                                    end),
     (coords ++ straightLine waypoints)%list).
Proof.
  induction waypoints as [| wp rest IH]; intros prev total coords.
  - cbn [fallbackLoop straightLine map]. rewrite app_nil_r.
    f_equal. destruct prev; simpl; ring.
  - cbn [fallbackLoop]. rewrite IH. cbn [straightLine map].
    rewrite <- app_assoc. cbn [app]. f_equal.
    destruct prev as [p |].
    + change (straightLineKm (p :: wp :: rest))
        with (Geo.calculateDistance (lat p) (lng p) (lat wp) (lng wp)
              + straightLineKm (wp :: rest)).
      ring.
    + reflexivity.
Qed.

Lemma calculateFallbackRoute_spec (waypoints : list Location) :
  calculateFallbackRoute waypoints =
  {| duration := straightLineKm waypoints / 50 * 3600;
     distance := straightLineKm waypoints * 1000;
     geometry := {| gtype := "LineString"; coordinates := straightLine waypoints |};
     isFallback := true |}.
Proof.
  unfold calculateFallbackRoute. rewrite fallbackLoop_spec. cbn [app].
  f_equal; field.
Qed.

End FallbackFacts.

(** C3: for waypoints that pass validation, when every attempt on every
    provider records a network error or a timeout, the connectivity probe
    does not succeed and fallback is enabled, [calculateRoute] returns the
    fallback estimate: marked [isFallback], its distance the cumulative
    straight-line distance in metres, its duration that distance in
    kilometres divided by 50 and multiplied by 3600, its geometry the
    straight line through all waypoints. *)
Theorem C3_network_failure_yields_fallback_estimate
    (net : RouteCalculator.Network) (waypoints : list RouteCalculator.Waypoint)
    (options : RouteCalculator.Options)
    (Hvalid : RouteCalculator.valid (RouteCalculator.validateWaypoints waypoints) = true)
    (Hfallback : RouteCalculator.useFallback options = true)
    (Hnetwork : forall serverUrl attempt,
        In serverUrl RouteCalculator.ROUTING_SERVERS ->
        attempt <= RouteCalculator.maxRetries options ->
        networkClass (RouteCalculator.routeFetch net serverUrl attempt))
    (Hprobe : RouteCalculator.probeFetch net <> Some true) :
  let wps := map RouteCalculator.asLocation waypoints in
  completion (RouteCalculator.calculateRoute net waypoints options) =
    Returned {| RouteCalculator.duration := (straightLineKm wps / 50 * 3600)%R;
                RouteCalculator.distance := (straightLineKm wps * 1000)%R;
                RouteCalculator.geometry :=
                  {| RouteCalculator.gtype := "LineString";
                     RouteCalculator.coordinates := straightLine wps |};
                RouteCalculator.isFallback := true |}.
Proof.
  intros wps. rewrite <- calculateFallbackRoute_spec.
  unfold RouteCalculator.calculateRoute. rewrite Hvalid, Hfallback. cbn [negb].
  fold wps.
  destruct (RouteCalculator.isOnline net); cbn [negb]; [| reflexivity].
  destruct (serverLoop_network net wps (RouteCalculator.maxRetries options)
              RouteCalculator.ROUTING_SERVERS [] Hnetwork eq_refl)
    as (errors & Hc & Hall).
  rewrite (bind_of_returned _ _ _ Hc). rewrite Hall.
  unfold RouteCalculator.testNetworkConnectivity.
  destruct (RouteCalculator.probeFetch net) as [[|] |]; [congruence | |]; reflexivity.
Qed.

(** ** Result summary *)

(** C9: the time saved shown after an optimization is
    [max(0, baseline duration - optimized duration)]; it is never negative,
    whatever the two durations are. *)
Theorem C9_time_saved_is_floored_at_zero
    (optimizedOrder : list Destination)
    (optimizedRoute originalRoute : RouteCalculator.RouteResult) :
  let saved := Display.timeSaved
                 (Display.displayResults optimizedOrder optimizedRoute originalRoute) in
  saved = Rmax 0 (RouteCalculator.duration originalRoute
                  - RouteCalculator.duration optimizedRoute) /\
  (0 <= saved)%R.
Proof.
  cbn zeta. unfold Display.displayResults, Math_max; cbn [Display.timeSaved].
  split; [reflexivity | apply Rmax_l].
Qed.

(** ** Location resolver: the two-point estimator *)

Section EstimateFacts.
Import RouteCalculator LocationResolver.
Local Open Scope string_scope.
Local Open Scope list_scope.

Variable fetchOf : string -> FetchOutcome.
Variables origin target : Location.

Lemma estimateLoop_cons (s : string) (servers : list string) :
  estimateLoop fetchOf origin target (s :: servers) =
  let next :=
    match fetchOf s with
    | JsonBody data =>
        match (if String.eqb (code data) "Ok" then routes data else None) with
        | Some (route0 :: _) =>
            ret (Some {| duration := route_duration route0;
                         distance := route_distance route0;
                         isEstimate := false |})
        | _ => estimateLoop fetchOf origin target servers
        end
    | HttpStatus _ => estimateLoop fetchOf origin target servers
    | FetchRejects _ _ => estimateLoop fetchOf origin target servers
    end in
  (DrivingTimeRequest s origin target :: trace next, completion next).
Proof.
  cbn [estimateLoop]. unfold emit. rewrite bind_returned. reflexivity.
Qed.

Lemma estimateLoop_returns (servers : list string) :
  exists found, completion (estimateLoop fetchOf origin target servers) = Returned found.
Proof.
  induction servers as [| s servers IH].
  - exists None; reflexivity.
  - rewrite estimateLoop_cons. cbn zeta. cbn [completion snd].
    destruct (fetchOf s) as [name message | status | data]; try exact IH.
    destruct (String.eqb (code data) "Ok"); [| exact IH].
    destruct (routes data) as [[| route0 more] |]; try exact IH.
    eexists; reflexivity.
Qed.

Lemma estimateLoop_all_fail (servers : list string) :
  (forall s, In s servers -> lookupFails (fetchOf s)) ->
  completion (estimateLoop fetchOf origin target servers) = Returned None.
Proof.
  induction servers as [| s servers IH]; intros H; [reflexivity |].
  rewrite estimateLoop_cons. cbn zeta. cbn [completion snd].
  assert (IH' : completion (estimateLoop fetchOf origin target servers) = Returned None).
  { apply IH. intros s' Hs'; apply H; right; exact Hs'. }
  pose proof (H s (or_introl eq_refl)) as Hs.
  destruct (fetchOf s) as [name message | status | data]; try exact IH'.
  simpl in Hs.
  destruct (String.eqb_spec (code data) "Ok") as [Hok | Hnok]; [| exact IH'].
  destruct Hs as [Hcode | [-> | ->]]; [contradiction | exact IH' | exact IH'].
Qed.

End EstimateFacts.

Section EstimateDrivingTimeFacts.
Import RouteCalculator LocationResolver.

Lemma estimateDrivingTime_returns (fetchOf : string -> FetchOutcome)
    (fromLat fromLng toLat toLng : R) :
  exists timeInfo,
    completion (estimateDrivingTime fetchOf fromLat fromLng toLat toLng) = Returned timeInfo.
Proof.
  unfold estimateDrivingTime.
  destruct (estimateLoop_returns fetchOf
              {| lat := fromLat; lng := fromLng |} {| lat := toLat; lng := toLng |}
              ROUTING_SERVERS) as [found Hfound].
  rewrite (bind_of_returned _ _ _ Hfound).
  destruct found; eexists; reflexivity.
Qed.

Lemma estimateDrivingTime_all_fail (fetchOf : string -> FetchOutcome)
    (fromLat fromLng toLat toLng : R) :
  (forall s, In s ROUTING_SERVERS -> lookupFails (fetchOf s)) ->
  completion (estimateDrivingTime fetchOf fromLat fromLng toLat toLng) =
  Returned (straightLineEstimate fromLat fromLng toLat toLng).
Proof.
  intros H. unfold estimateDrivingTime.
  rewrite (bind_of_returned _ _ _
             (estimateLoop_all_fail fetchOf _ _ ROUTING_SERVERS H)).
  reflexivity.
Qed.

End EstimateDrivingTimeFacts.

(** C10: [estimateDrivingTime] always returns an object (it neither throws
    nor yields [null]); when no provider delivers a route it returns the
    straight-line estimate, marked [isEstimate], with duration
    [(km / 40) * 3600] and distance [km * 1000]; the fallback of
    [calculateRoute] over the same two points divides by 50 instead. *)
Theorem C10_two_point_estimator_is_total
    (fetchOf : string -> RouteCalculator.FetchOutcome)
    (fromLat fromLng toLat toLng : R) :
  let km := Geo.calculateDistance fromLat fromLng toLat toLng in
  let run := LocationResolver.estimateDrivingTime fetchOf fromLat fromLng toLat toLng in
  (exists timeInfo, completion run = Returned timeInfo) /\
  ((forall s, In s RouteCalculator.ROUTING_SERVERS -> lookupFails (fetchOf s)) ->
   completion run =
     Returned {| LocationResolver.duration := (km / 40 * 3600)%R;
                 LocationResolver.distance := (km * 1000)%R;
                 LocationResolver.isEstimate := true |}) /\
  RouteCalculator.duration
    (RouteCalculator.calculateFallbackRoute
       [ {| lat := fromLat; lng := fromLng |}; {| lat := toLat; lng := toLng |} ])
  = (km / 50 * 3600)%R.
Proof.
  cbn zeta. split; [apply estimateDrivingTime_returns | split].
  - intros H. rewrite (estimateDrivingTime_all_fail _ _ _ _ _ H). reflexivity.
  - rewrite calculateFallbackRoute_spec. cbn [RouteCalculator.duration straightLineKm lat lng].
    f_equal. f_equal. ring.
Qed.

(** ** Location resolver: ranking *)

Section SortFacts.
Import LocationResolver.
Context {A : Type} (compare : A -> A -> option R) (P : A -> Prop).

Lemma insert_perm (x : A) (l : list A) : Permutation (insert compare x l) (x :: l).
Proof.
  induction l as [| y l IH]; simpl; [reflexivity |].
  destruct (negative (compare y x)); [| reflexivity].
  rewrite IH. apply perm_swap.
Qed.

Lemma arraySort_perm (l : list A) : Permutation (arraySort compare l) l.
Proof.
  induction l as [| x l IH]; simpl; [constructor |].
  rewrite insert_perm. constructor; exact IH.
Qed.

(** An order [before] that the comparator decides on the elements
    satisfying [P]. *)
Variable before : A -> A -> Prop.
Hypothesis before_trans :
  forall a b c, P a -> P b -> P c -> before a b -> before b c -> before a c.
Hypothesis compare_negative :
  forall a b, P a -> P b -> negative (compare a b) = true -> before a b.
Hypothesis compare_not_negative :
  forall a b, P a -> P b -> negative (compare a b) = false -> before b a.

Lemma insert_sorted (x : A) (l : list A) :
  P x -> Forall P l -> StronglySorted before l ->
  StronglySorted before (insert compare x l).
Proof.
  intros Hx Hall Hsorted.
  induction Hsorted as [| y l Hsorted IH Hy]; simpl.
  - repeat constructor.
  - inversion Hall as [| ? ? Hpy Hpl]; subst.
    destruct (negative (compare y x)) eqn:Hneg.
    + constructor; [apply IH, Hpl |].
      eapply Permutation_Forall; [symmetry; apply insert_perm |].
      constructor; [apply compare_negative; assumption | exact Hy].
    + pose proof (compare_not_negative y x Hpy Hx Hneg) as Hxy.
      constructor; [constructor; assumption |].
      constructor; [exact Hxy |].
      rewrite Forall_forall in Hy, Hpl |- *. intros z Hz.
      apply (before_trans x y z); auto.
Qed.

Lemma arraySort_sorted (l : list A) :
  Forall P l -> StronglySorted before (arraySort compare l).
Proof.
  induction l as [| x l IH]; intros Hall; simpl; [constructor |].
  inversion Hall as [| ? ? Hx Hl]; subst.
  apply insert_sorted; [exact Hx | | apply IH, Hl].
  eapply Permutation_Forall; [symmetry; apply arraySort_perm | exact Hl].
Qed.

End SortFacts.

(** A comparator that orders by a real key sorts in ascending order of it. *)
Lemma arraySort_ascending {A : Type} (compare : A -> A -> option R) (key : A -> R)
    (P : A -> Prop)
    (compare_key : forall a b, P a -> P b ->
        LocationResolver.negative (compare a b) = Rltb (key a) (key b))
    (l : list A) :
  Forall P l -> ascending key (LocationResolver.arraySort compare l).
Proof.
  apply (arraySort_sorted compare P).
  - intros a b c _ _ _ Hab Hbc. lra.
  - intros a b Ha Hb. rewrite (compare_key a b Ha Hb). unfold Rltb.
    destruct (Rlt_dec (key a) (key b)); [lra | discriminate].
  - intros a b Ha Hb. rewrite (compare_key a b Ha Hb). unfold Rltb.
    destruct (Rlt_dec (key a) (key b)); [discriminate | lra].
Qed.

Section SearchFacts.
Import RouteCalculator LocationResolver.
Local Open Scope string_scope.
Local Open Scope list_scope.

Lemma Rltb_minus (x y : R) : Rltb (x - y) 0 = Rltb x y.
Proof.
  unfold Rltb. destruct (Rlt_dec (x - y) 0), (Rlt_dec x y); try reflexivity; lra.
Qed.

Lemma byStraightLine_key (a b : SearchResult) :
  hasDistance a -> hasDistance b ->
  negative (byStraightLine a b) = Rltb (distanceKey a) (distanceKey b).
Proof.
  intros [x Hx] [y Hy]. unfold byStraightLine, distanceKey. rewrite Hx, Hy.
  apply Rltb_minus.
Qed.

Lemma byDrivingTime_key (a b : SearchResult) :
  hasDrivingTime a -> hasDrivingTime b ->
  negative (byDrivingTime a b) = Rltb (timeKey a) (timeKey b).
Proof.
  intros [x Hx] [y Hy]. unfold byDrivingTime, timeKey. rewrite Hx, Hy.
  apply Rltb_minus.
Qed.

Lemma orZero_minus (a b : JsField) :
  fieldMinus (orZero a) (orZero b) =
  Some (match a with Number d => d | _ => 0 end
        - match b with Number d => d | _ => 0 end)%R.
Proof.
  assert (H : forall f, orZero f = Number (match f with Number d => d | _ => 0%R end)).
  { intros [| | r]; simpl; try reflexivity.
    unfold Reqb. destruct (Req_dec_T r 0); [subst |]; reflexivity. }
  rewrite (H a), (H b). reflexivity.
Qed.

(** X20: whatever mix of timed and untimed candidates the final sort
    receives, it puts the timed ones first in ascending time and the untimed
    ones behind them in ascending straight-line distance. *)
Lemma arraySort_byDrivingTime_ordered (entries : list SearchResult) :
  Forall (fun e => drivingTime e <> Absent) entries ->
  StronglySorted drivingOrder (arraySort byDrivingTime entries).
Proof.
  apply (arraySort_sorted byDrivingTime (fun e => drivingTime e <> Absent)).
  - intros a b c Ha Hb Hc. unfold drivingOrder, distanceKey.
    destruct (drivingTime a), (drivingTime b), (drivingTime c);
      try contradiction; try tauto; try congruence; intros; lra.
  - intros a b Ha Hb. unfold byDrivingTime, drivingOrder, distanceKey.
    destruct (drivingTime a), (drivingTime b); try congruence; cbn;
      try (intros _; exact I); try discriminate.
    + rewrite orZero_minus. cbn. rewrite Rltb_minus. unfold Rltb.
      destruct (Rlt_dec _ _); [intros _; lra | discriminate].
    + rewrite Rltb_false by lra. discriminate.
    + rewrite Rltb_minus. unfold Rltb.
      destruct (Rlt_dec _ _); [intros _; lra | discriminate].
  - intros a b Ha Hb. unfold byDrivingTime, drivingOrder, distanceKey.
    destruct (drivingTime a), (drivingTime b); try congruence; cbn;
      try (intros _; exact I).
    + rewrite orZero_minus. cbn. rewrite Rltb_minus. unfold Rltb.
      destruct (Rlt_dec _ _); [discriminate | intros _; lra].
    + rewrite Rltb_true by lra. discriminate.
    + rewrite Rltb_minus. unfold Rltb.
      destruct (Rlt_dec _ _); [discriminate | intros _; lra].
Qed.

(** X19: with a reference point whose latitude and longitude are both different
    from 0, [searchLocation] sends the bounding box around the reference and
    returns the geocoder's candidates, each carrying its straight-line
    distance, in ascending order of that distance. *)
Lemma searchLocation_ranks_by_distance (net : Network) (query : string)
    (nearLat nearLng : R) (results : list SearchResult) :
  nearLat <> 0%R -> nearLng <> 0%R ->
  let viewbox := Some (nearLng - 0.5, nearLat - 0.5, nearLng + 0.5, nearLat + 0.5)%R in
  searchFetch net query viewbox = SearchResults results ->
  exists ranked,
    searchLocation net query (Some nearLat) (Some nearLng) =
      ([SearchRequest query viewbox], Returned ranked) /\
    Permutation ranked (map (withDistance nearLat nearLng) results) /\
    ascending distanceKey ranked.
Proof.
  intros Hlat Hlng viewbox Hfetch.
  unfold searchLocation. cbn [truthy valueOf].
  rewrite !Reqb_neq by assumption. cbn [negb andb].
  unfold emit. rewrite bind_returned. fold viewbox. rewrite Hfetch.
  destruct results as [| r rs].
  - exists []. cbn. repeat split; constructor.
  - cbn [length Nat.ltb Nat.leb].
    eexists; split; [reflexivity |]. split.
    + apply arraySort_perm.
    + apply (arraySort_ascending byStraightLine distanceKey hasDistance byStraightLine_key).
      apply Forall_forall. intros x Hx. apply in_map_iff in Hx as (y & <- & _).
      eexists; reflexivity.
Qed.

End SearchFacts.

Section EquatorExample.
Import RouteCalculator LocationResolver.
Local Open Scope R_scope.

(** The haversine distance is positive as soon as the haversine term is. *)
Lemma calculateDistance_pos (la1 lo1 la2 lo2 : R) :
  0 < sin (Geo.toRad (la2 - la1) / 2) * sin (Geo.toRad (la2 - la1) / 2) +
      cos (Geo.toRad la1) * cos (Geo.toRad la2) *
      sin (Geo.toRad (lo2 - lo1) / 2) * sin (Geo.toRad (lo2 - lo1) / 2) ->
  0 < Geo.calculateDistance la1 lo1 la2 lo2.
Proof.
  intros Ha. unfold Geo.calculateDistance.
  match goal with
  | |- 0 < _ * (2 * Math_atan2 ?y ?x) =>
      assert (H : 0 < Math_atan2 y x)
        by (apply Math_atan2_pos; [apply sqrt_lt_R0, Ha | apply sqrt_pos])
  end.
  lra.
Qed.

(** One degree of longitude along the equator is a positive distance. *)
Lemma calculateDistance_equator_step : 0 < Geo.calculateDistance 0 10 0 11.
Proof.
  apply calculateDistance_pos.
  replace (0 - 0) with 0 by ring.
  replace (11 - 10) with 1 by ring.
  rewrite toRad_0. replace (0 / 2) with 0 by lra. rewrite sin_0, cos_0.
  assert (Hs : 0 < sin (Geo.toRad 1 / 2)).
  { pose proof PI_RGT_0. apply sin_gt_0; unfold Geo.toRad; lra. }
  nra.
Qed.

End EquatorExample.

(** C5, at a reference point on the equator: with the valid reference
    [(0, 10)] the latitude is falsy, so [searchLocation] sends no bounding
    box and returns the geocoder's list as it came, the farther candidate
    first. *)
Theorem C5_reference_on_equator_is_ignored :
  LocationResolver.searchLocation equatorNet "pharmacy" (Some 0%R) (Some 10%R) =
    ([SearchRequest "pharmacy" None],
     Returned [candidate "East" 0 11; candidate "Here" 0 10]) /\
  (Geo.calculateDistance 0 10 0 10 < Geo.calculateDistance 0 10 0 11)%R.
Proof.
  split.
  - unfold LocationResolver.searchLocation. cbn [LocationResolver.truthy].
    rewrite Reqb_refl. reflexivity.
  - rewrite calculateDistance_same. apply calculateDistance_equator_step.
Qed.

Section RankingFacts.
Import RouteCalculator LocationResolver.
Local Open Scope string_scope.
Local Open Scope list_scope.

Lemma searchLocation_returns (net : Network) (query : string) (nearLat nearLng : option R) :
  exists ranked,
    completion (searchLocation net query nearLat nearLng) = Returned ranked.
Proof.
  unfold searchLocation, emit. rewrite bind_returned. cbn [completion snd].
  destruct (searchFetch net query _); [eexists; reflexivity |].
  destruct (_ && _); eexists; reflexivity.
Qed.

Lemma timesLoop_spec (net : Network) (nearLat nearLng : R) (n : nat)
    (rest : list SearchResult) :
  forall i acc,
    exists entries,
      completion (timesLoop net (Some nearLat) (Some nearLng) n i rest acc)
        = Returned (acc ++ entries) /\
      timedEntries net nearLat nearLng i rest entries.
Proof.
  induction rest as [| result rest IH]; intros i acc.
  - exists []. rewrite app_nil_r. split; [reflexivity | constructor].
  - destruct (estimateDrivingTime_returns (drivingFetch net i) nearLat nearLng
                (res_lat result) (res_lon result)) as [timeInfo Hinfo].
    destruct (IH (S i) (acc ++ [withTime result timeInfo])) as (entries & Hc & Hall).
    exists (withTime result timeInfo :: entries). split.
    + cbn [timesLoop valueOf]. rewrite (bind_of_returned _ _ _ Hinfo).
      cbn [completion snd].
      destruct (Nat.ltb i (n - 1)); unfold emit, ret; rewrite bind_returned;
        cbn [completion snd]; unfold withTime in Hc; rewrite Hc, <- app_assoc;
        reflexivity.
    + unfold timedEntries. cbn [length seq combine].
      constructor; [| exact Hall].
      exists timeInfo. cbn [fst snd]. repeat split; [exact Hinfo |].
      intros Hfail.
      pose proof (estimateDrivingTime_all_fail _ nearLat nearLng
                    (res_lat result) (res_lon result) Hfail) as He.
      rewrite Hinfo in He. injection He as ->. reflexivity.
Qed.

Lemma timedEntries_hasDrivingTime (net : Network) (nearLat nearLng : R) (first : nat)
    (candidates entries : list SearchResult) :
  timedEntries net nearLat nearLng first candidates entries ->
  Forall hasDrivingTime entries.
Proof.
  unfold timedEntries. intros H.
  induction H as [| p entry ps entries (timeInfo & _ & -> & _) _ IH]; constructor.
  - eexists; reflexivity.
  - exact IH.
Qed.

End RankingFacts.

(** C6, as the code has it: with a reference point whose latitude and
    longitude are both different from 0, [searchLocationWithTimes] always
    returns; its ranking consists of the (at most three) nearest candidates
    by straight line, each carrying a driving time, in ascending order of
    that time.  The time of a candidate whose lookups all fail is the
    straight-line estimate, and it is ranked by it like any other. *)
Theorem C6_ranking_is_ascending_in_driving_time
    (net : LocationResolver.Network) (query : string) (nearLat nearLng : R)
    (Hlat : nearLat <> 0%R) (Hlng : nearLng <> 0%R) :
  exists ranked entries ranking,
    completion (LocationResolver.searchLocation net query (Some nearLat) (Some nearLng))
      = Returned ranked /\
    timedEntries net nearLat nearLng 0 (firstn 3 ranked) entries /\
    completion (LocationResolver.searchLocationWithTimes net query
                  (Some nearLat) (Some nearLng)) = Returned ranking /\
    Permutation ranking entries /\
    Forall hasDrivingTime ranking /\
    ascending timeKey ranking.
Proof.
  destruct (searchLocation_returns net query (Some nearLat) (Some nearLng))
    as [ranked Hranked].
  unfold LocationResolver.searchLocationWithTimes.
  rewrite (bind_of_returned _ _ _ Hranked).
  cbn [LocationResolver.truthy]. rewrite !Reqb_neq by assumption.
  cbn [negb orb completion snd].
  destruct ranked as [| r rs].
  - exists [], [], []. split; [exact Hranked |]. repeat split; constructor.
  - cbn [length Nat.eqb].
    destruct (timesLoop_spec net nearLat nearLng (length (firstn 3 (r :: rs)))
                (firstn 3 (r :: rs)) 0 []) as (entries & Hc & Hentries).
    cbn [app] in Hc.
    rewrite (bind_of_returned _ _ _ Hc). cbn [ret completion snd].
    pose proof (timedEntries_hasDrivingTime _ _ _ _ _ _ Hentries) as Htimes.
    exists (r :: rs), entries, (LocationResolver.arraySort LocationResolver.byDrivingTime entries).
    split; [exact Hranked |]. repeat split.
    + exact Hentries.
    + apply arraySort_perm.
    + eapply Permutation_Forall; [symmetry; apply arraySort_perm | exact Htimes].
    + apply (arraySort_ascending LocationResolver.byDrivingTime timeKey hasDrivingTime
               byDrivingTime_key). exact Htimes.
Qed.

Section DemotionFacts.
Import RouteCalculator LocationResolver.
Local Open Scope R_scope.

Lemma demo_search :
  completion (searchLocation demoNet "pharmacy" (Some 1) (Some 1)) =
  Returned [hereNear; thereNear].
Proof.
  unfold searchLocation. cbn [truthy valueOf].
  rewrite !Reqb_neq by lra. cbn [negb andb].
  unfold emit. rewrite bind_returned. cbn [completion snd].
  cbn [demoNet searchFetch length Nat.ltb Nat.leb map candidate
       display_name res_lat res_lon drivingTime drivingDistance].
  cbn [arraySort fold_right insert].
  unfold byStraightLine. cbn [straightLineDistance fieldMinus negative].
  rewrite calculateDistance_same.
  rewrite Rltb_false.
  2:{ pose proof (calculateDistance_nonneg 1 1 1 2). lra. }
  reflexivity.
Qed.

Lemma demo_lookup_fails :
  forall s, In s ROUTING_SERVERS -> lookupFails (drivingFetch demoNet 0 s).
Proof. intros s _. exact I. Qed.

Lemma demo_lookup_here :
  completion (estimateDrivingTime (drivingFetch demoNet 0) 1 1 1 1) =
  Returned {| duration := 0; distance := 0; isEstimate := true |}.
Proof.
  rewrite (estimateDrivingTime_all_fail _ _ _ _ _ demo_lookup_fails).
  unfold straightLineEstimate. rewrite calculateDistance_same.
  do 2 f_equal; lra.
Qed.

Lemma demo_lookup_there :
  completion (estimateDrivingTime (drivingFetch demoNet 1) 1 1 1 2) =
  Returned {| duration := 600; distance := 5000; isEstimate := false |}.
Proof.
  unfold estimateDrivingTime, ROUTING_SERVERS.
  rewrite estimateLoop_cons. reflexivity.
Qed.

Lemma demo_times :
  completion (timesLoop demoNet (Some 1) (Some 1) 2 0 [hereNear; thereNear] []) =
  Returned [hereRanked; thereRanked].
Proof.
  cbn [timesLoop valueOf hereNear thereNear res_lat res_lon].
  rewrite (bind_of_returned _ _ _ demo_lookup_here). cbn [completion snd].
  cbn [Nat.ltb Nat.leb Nat.sub]. unfold emit. rewrite bind_returned.
  cbn [completion snd].
  rewrite (bind_of_returned _ _ _ demo_lookup_there). reflexivity.
Qed.

End DemotionFacts.

(** C6 does not hold as stated: here the candidate whose driving-time lookups
    all fail is ranked first, in front of the candidate with a routed
    driving time. *)
Lemma C6_failed_lookup_ranked_before_timed :
  completion (LocationResolver.searchLocationWithTimes demoNet "pharmacy"
                (Some 1%R) (Some 1%R)) = Returned [hereRanked; thereRanked] /\
  (forall s, In s RouteCalculator.ROUTING_SERVERS ->
             lookupFails (LocationResolver.drivingFetch demoNet 0 s)) /\
  (forall s, ~ lookupFails (LocationResolver.drivingFetch demoNet 1 s)).
Proof.
  split; [| split].
  - unfold LocationResolver.searchLocationWithTimes.
    rewrite (bind_of_returned _ _ _ demo_search).
    cbn [LocationResolver.truthy]. rewrite !Reqb_neq by lra.
    cbn [negb orb length Nat.eqb firstn completion snd].
    rewrite (bind_of_returned _ _ _ demo_times).
    cbn [ret completion snd LocationResolver.arraySort fold_right LocationResolver.insert].
    unfold LocationResolver.byDrivingTime.
    cbn [hereRanked thereRanked LocationResolver.drivingTime LocationResolver.notNull
         andb LocationResolver.fieldMinus LocationResolver.negative].
    rewrite Rltb_false by lra. reflexivity.
  - exact demo_lookup_fails.
  - intros s [Hcode | [Hnone | Hempty]]; cbn in *; congruence.
Qed.

(** ** Worked instances *)

Section Instances.
Import RouteCalculator.
Local Open Scope R_scope.

Lemma twoWaypoints_valid : valid (validateWaypoints twoWaypoints) = true.
Proof.
  apply validateWaypoints_valid_iff. split; [simpl; lia |].
  repeat constructor; simpl; lra.
Qed.

End Instances.

(** The pinned scenario: B, locked in the middle slot, stays at index 1. *)
Lemma C1_locked_destinations_keep_their_index_witness :
  NoDup (map id [stopA; stopB; stopC]) /\
  nth_error (Optimizer.findOptimalOrder origin [stopA; stopB; stopC] true) 1 = Some stopB.
Proof.
  assert (Hids : NoDup (map id [stopA; stopB; stopC])).
  { simpl. repeat constructor; simpl; intuition discriminate. }
  split; [exact Hids |].
  apply (C1_locked_destinations_keep_their_index origin [stopA; stopB; stopC] true Hids 1 stopB);
    reflexivity.
Defined.

(** Two free stops: the order returned is a rearrangement of them. *)
Lemma C7_unlocked_output_is_permutation_witness :
  (forall d, In d [stopA; stopC] -> locked d = false) /\
  2 <= length [stopA; stopC] /\
  Permutation [stopA; stopC] (Optimizer.findOptimalOrder origin [stopA; stopC] true).
Proof.
  assert (Hnone : forall d, In d [stopA; stopC] -> locked d = false).
  { intros d [<- | [<- | []]]; reflexivity. }
  assert (Htwo : 2 <= length [stopA; stopC]) by (simpl; lia).
  split; [exact Hnone | split; [exact Htwo |]].
  apply (C7_unlocked_output_is_permutation origin [stopA; stopC] true Hnone Htwo).
Defined.

(** A latitude of 91 is rejected with an empty trace. *)
Lemma C4_invalid_waypoints_fail_before_any_request_witness :
  (length latitude91 < 2 \/ Exists (fun wp => ~ wellFormed wp) latitude91) /\
  RouteCalculator.valid (RouteCalculator.validateWaypoints latitude91) = false /\
  RouteCalculator.calculateRoute unreachable latitude91 RouteCalculator.defaultOptions =
    ([], Thrown (RouteCalculator.error (RouteCalculator.validateWaypoints latitude91))).
Proof.
  assert (Hbad : length latitude91 < 2 \/ Exists (fun wp => ~ wellFormed wp) latitude91).
  { right. apply Exists_cons_tl, Exists_cons_hd. simpl. lra. }
  split; [exact Hbad |].
  apply (C4_invalid_waypoints_fail_before_any_request
           unreachable latitude91 RouteCalculator.defaultOptions Hbad).
Defined.

(** Default options: three aborted requests to the primary provider, then
    the secondary provider's route. *)
Lemma C2_failover_to_secondary_after_primary_timeouts_witness :
  RouteCalculator.valid (RouteCalculator.validateWaypoints twoWaypoints) = true /\
  RouteCalculator.isOnline primaryDown = true /\
  (let run := RouteCalculator.calculateRoute primaryDown twoWaypoints
                RouteCalculator.defaultOptions in
   completion run =
     Returned {| RouteCalculator.duration := 900;
                 RouteCalculator.distance := 12000;
                 RouteCalculator.geometry :=
                   {| RouteCalculator.gtype := "LineString";
                      RouteCalculator.coordinates := [(0, 0); (1, 1)]%R |};
                 RouteCalculator.isFallback := false |} /\
   exists before,
     trace run =
       before ++ [RouteRequest secondaryServer
                    (map RouteCalculator.asLocation twoWaypoints)] /\
     requestsTo primaryServer before = 3 /\
     requestsTo secondaryServer before = 0).
Proof.
  split; [exact twoWaypoints_valid | split; [reflexivity |]].
  apply (C2_failover_to_secondary_after_primary_timeouts
           primaryDown twoWaypoints RouteCalculator.defaultOptions sampleRoute []
           twoWaypoints_valid eq_refl).
  - intros attempt _. exists "The operation was aborted."%string. reflexivity.
  - reflexivity.
Defined.

(** Nothing reachable, default options: the straight-line estimate. *)
Lemma C3_network_failure_yields_fallback_estimate_witness :
  RouteCalculator.valid (RouteCalculator.validateWaypoints twoWaypoints) = true /\
  RouteCalculator.probeFetch unreachable <> Some true /\
  completion (RouteCalculator.calculateRoute unreachable twoWaypoints
                RouteCalculator.defaultOptions) =
    Returned {| RouteCalculator.duration :=
                  (straightLineKm [ {| lat := 0; lng := 0 |}; {| lat := 1; lng := 1 |} ]
                   / 50 * 3600)%R;
                RouteCalculator.distance :=
                  (straightLineKm [ {| lat := 0; lng := 0 |}; {| lat := 1; lng := 1 |} ]
                   * 1000)%R;
                RouteCalculator.geometry :=
                  {| RouteCalculator.gtype := "LineString";
                     RouteCalculator.coordinates := [(0, 0); (1, 1)]%R |};
                RouteCalculator.isFallback := true |}.
Proof.
  assert (Hprobe : RouteCalculator.probeFetch unreachable <> Some true)
    by (simpl; discriminate).
  split; [exact twoWaypoints_valid | split; [exact Hprobe |]].
  apply (C3_network_failure_yields_fallback_estimate
           unreachable twoWaypoints RouteCalculator.defaultOptions
           twoWaypoints_valid eq_refl).
  - intros serverUrl attempt _ _.
    exists true, "Network error"%string. split; [reflexivity | left; reflexivity].
  - exact Hprobe.
Defined.

(** The ranking around the reference point [(1, 1)]. *)
Lemma C6_ranking_is_ascending_in_driving_time_witness :
  (1 <> 0)%R /\
  exists ranked entries ranking,
    completion (LocationResolver.searchLocation demoNet "pharmacy" (Some 1%R) (Some 1%R))
      = Returned ranked /\
    timedEntries demoNet 1 1 0 (firstn 3 ranked) entries /\
    completion (LocationResolver.searchLocationWithTimes demoNet "pharmacy"
                  (Some 1%R) (Some 1%R)) = Returned ranking /\
    Permutation ranking entries /\
    Forall hasDrivingTime ranking /\
    ascending timeKey ranking.
Proof.
  assert (H : (1 <> 0)%R) by lra.
  split; [exact H |].
  apply (C6_ranking_is_ascending_in_driving_time demoNet "pharmacy" 1%R 1%R H H).
Defined.

(** Every provider rejects the request: the 40 km/h estimate. *)
Lemma C10_two_point_estimator_is_total_witness :
  (forall s, In s RouteCalculator.ROUTING_SERVERS ->
             lookupFails (RouteCalculator.routeFetch unreachable s 0)) /\
  completion (LocationResolver.estimateDrivingTime
                (fun s => RouteCalculator.routeFetch unreachable s 0) 0 10 0 11) =
    Returned {| LocationResolver.duration :=
                  (Geo.calculateDistance 0 10 0 11 / 40 * 3600)%R;
                LocationResolver.distance := (Geo.calculateDistance 0 10 0 11 * 1000)%R;
                LocationResolver.isEstimate := true |}.
Proof.
  assert (Hfail : forall s, In s RouteCalculator.ROUTING_SERVERS ->
                            lookupFails (RouteCalculator.routeFetch unreachable s 0))
    by (intros s _; exact I).
  split; [exact Hfail |].
  apply (proj1 (proj2 (C10_two_point_estimator_is_total
                         (fun s => RouteCalculator.routeFetch unreachable s 0)
                         0%R 10%R 0%R 11%R)) Hfail).
Defined.

(** * Further properties *)

(** ** Order optimizer *)

Section GreedyFacts.
Import Optimizer.
Local Open Scope R_scope.

(** The inner loop returns the index of an entry that no other entry of the
    array beats. *)
Lemma nearestLoop_min (cur : Location) (rest : list Destination) :
  forall pre idx nd,
    match nd with
    | None => pre = [] /\ idx = 0%nat
    | Some d => exists x, nth_error (pre ++ rest) idx = Some x /\ distFrom cur x = d /\
                          (idx < length pre)%nat /\
                          Forall (fun p => d <= distFrom cur p) pre
    end ->
    pre ++ rest <> [] ->
    exists n,
      nth_error (pre ++ rest) (nearestLoop cur rest (length pre) idx nd) = Some n /\
      Forall (fun u => distFrom cur n <= distFrom cur u) (pre ++ rest).
Proof.
  induction rest as [| u rest IH]; intros pre idx nd Hinv Hne.
  - cbn [nearestLoop]. destruct nd as [d |].
    + destruct Hinv as (x & Hx & Hd & _ & Hall). exists x. split; [exact Hx |].
      rewrite app_nil_r. rewrite Hd. exact Hall.
    + destruct Hinv as [-> _]. contradiction.
  - cbn [nearestLoop]. fold (distFrom cur u).
    replace (pre ++ u :: rest) with ((pre ++ [u]) ++ rest)
      by (rewrite <- app_assoc; reflexivity).
    replace (S (length pre)) with (length (pre ++ [u]))
      by (rewrite length_app; simpl; lia).
    destruct (lessThan (distFrom cur u) nd) eqn:Hlt.
    + apply IH.
      * exists u. repeat split.
        -- rewrite <- app_assoc. rewrite nth_error_app2 by lia.
           rewrite Nat.sub_diag. reflexivity.
        -- rewrite length_app; simpl; lia.
        -- apply Forall_app. split; [| constructor; [lra | constructor]].
           destruct nd as [d |].
           ++ destruct Hinv as (x & _ & _ & _ & Hall).
              unfold lessThan, Rltb in Hlt.
              destruct (Rlt_dec (distFrom cur u) d); [| discriminate].
              eapply Forall_impl; [| exact Hall]. cbn beta. intros p Hp. lra.
           ++ destruct Hinv as [-> _]. constructor.
      * destruct pre; discriminate.
    + destruct nd as [d |]; [| discriminate].
      destruct Hinv as (x & Hx & Hd & Hidx & Hall).
      unfold lessThan, Rltb in Hlt.
      destruct (Rlt_dec (distFrom cur u) d); [discriminate |].
      apply IH.
      * exists x. repeat split.
        -- rewrite <- app_assoc. exact Hx.
        -- exact Hd.
        -- rewrite length_app; simpl; lia.
        -- apply Forall_app. split; [exact Hall | constructor; [lra | constructor]].
      * destruct pre; discriminate.
Qed.

Lemma visitNearest_nearest (st : State) :
  unvisited st <> [] ->
  exists k nearest,
    nth_error (unvisited st) k = Some nearest /\
    visitNearest st = {| result := result st ++ [nearest];
                         unvisited := spliceOut k (unvisited st);
                         current := location nearest |} /\
    Forall (fun u => distFrom (current st) nearest <= distFrom (current st) u)
           (unvisited st).
Proof.
  intros Hne.
  destruct (nearestLoop_min (current st) (unvisited st) [] 0%nat None) as (n & Hn & Hall);
    [split; reflexivity | exact Hne |].
  cbn [app length] in Hn, Hall. fold (nearestIndex (current st) (unvisited st)) in Hn.
  exists (nearestIndex (current st) (unvisited st)), n.
  split; [exact Hn | split; [| exact Hall]].
  unfold visitNearest. rewrite Hn. reflexivity.
Qed.

Lemma snoc_split {A : Type} (l pre post : list A) (z x : A) :
  l ++ [z] = pre ++ x :: post ->
  (exists post0, post = post0 ++ [z] /\ l = pre ++ x :: post0) \/
  (pre = l /\ x = z /\ post = []).
Proof.
  induction post as [| w post0 _] using rev_ind; intros H.
  - right. apply app_inj_tail in H as [-> ->]. auto.
  - left. exists post0.
    change (pre ++ x :: post0 ++ [w]) with (pre ++ (x :: post0) ++ [w]) in H.
    rewrite app_assoc in H.
    apply app_inj_tail in H as [-> ->]. auto.
Qed.

Lemma last_cons_default {A : Type} (l : list A) (a d : A) : last (a :: l) d = last l a.
Proof.
  revert a d; induction l as [| b l IH]; intros a d; [reflexivity |].
  change (last (a :: b :: l) d) with (last (b :: l) d).
  rewrite !IH. reflexivity.
Qed.

Lemma cursorAfter_cons (start : Location) (x : Destination) (pre : list Destination) :
  cursorAfter start (x :: pre) = cursorAfter (location x) pre.
Proof. unfold cursorAfter. cbn [map]. apply last_cons_default. Qed.

Lemma cursorAfter_snoc (start : Location) (l : list Destination) (z : Destination) :
  cursorAfter start (l ++ [z]) = location z.
Proof. unfold cursorAfter. rewrite map_app. cbn [map]. apply last_last. Qed.

Lemma Greedy_push_nearest (start : Location) (st : State) (k : nat) (n : Destination) :
  Greedy start st ->
  nth_error (unvisited st) k = Some n ->
  Forall (fun u => distFrom (current st) n <= distFrom (current st) u) (unvisited st) ->
  Greedy start {| result := result st ++ [n];
                  unvisited := spliceOut k (unvisited st);
                  current := location n |}.
Proof.
  intros [Hcur Hg] Hk Hnear. split; cbn [result unvisited current].
  - symmetry. apply cursorAfter_snoc.
  - intros pre x post Hsplit Hx.
    apply snoc_split in Hsplit as [(post0 & -> & Hres) | (-> & -> & ->)].
    + destruct (Hg pre x post0 Hres Hx) as [Hpost Hunv]. split.
      * apply Forall_app. split; [exact Hpost |].
        constructor; [| constructor]. intros _.
        rewrite Forall_forall in Hunv. apply Hunv. eapply nth_error_In, Hk.
      * rewrite Forall_forall in Hunv |- *. intros u Hu.
        apply Hunv. eapply spliceOut_In, Hu.
    + split; [constructor |].
      rewrite <- Hcur.
      rewrite Forall_forall in Hnear |- *. intros u Hu.
      apply Hnear. eapply spliceOut_In, Hu.
Qed.

Lemma Greedy_push_locked (start : Location) (st : State) (d : Destination)
    (remaining : list Destination) :
  Greedy start st -> locked d = true ->
  (forall u, In u remaining -> In u (unvisited st)) ->
  Greedy start {| result := result st ++ [d];
                  unvisited := remaining;
                  current := location d |}.
Proof.
  intros [Hcur Hg] Hd Hsub. split; cbn [result unvisited current].
  - symmetry. apply cursorAfter_snoc.
  - intros pre x post Hsplit Hx.
    apply snoc_split in Hsplit as [(post0 & -> & Hres) | (-> & -> & ->)];
      [| congruence].
    destruct (Hg pre x post0 Hres Hx) as [Hpost Hunv]. split.
    + apply Forall_app. split; [exact Hpost |].
      constructor; [| constructor]. intros Hfree. congruence.
    + rewrite Forall_forall in Hunv |- *. intros u Hu. apply Hunv, Hsub, Hu.
Qed.

Lemma Greedy_visitNearest (start : Location) (st : State) :
  Greedy start st -> unvisited st <> [] -> Greedy start (visitNearest st).
Proof.
  intros Hg Hne.
  destruct (visitNearest_nearest st Hne) as (k & n & Hk & -> & Hnear).
  apply Greedy_push_nearest; assumption.
Qed.

Lemma Greedy_step (start : Location) (st : State) (d : Destination) :
  Greedy start st -> Greedy start (step st d).
Proof.
  intros Hg. unfold step. destruct (locked d) eqn:Hd.
  - apply Greedy_push_locked; [exact Hg | exact Hd |].
    destruct (findIndex _ (unvisited st)); [| auto].
    intros u Hu. eapply spliceOut_In, Hu.
  - destruct (unvisited st) as [| u us] eqn:E; cbn [length Nat.ltb Nat.leb]; [exact Hg |].
    apply Greedy_visitNearest; [exact Hg | congruence].
Qed.

Lemma Greedy_loop (start : Location) (ds : list Destination) :
  forall st, Greedy start st -> Greedy start (fold_left step ds st).
Proof.
  induction ds as [| d ds IH]; intros st Hg; [exact Hg |].
  cbn [fold_left]. apply IH, Greedy_step, Hg.
Qed.

Lemma Greedy_drain (start : Location) (fuel : nat) :
  forall st, Greedy start st -> Greedy start (drain fuel st).
Proof.
  induction fuel as [| fuel IH]; intros st Hg; [exact Hg |].
  cbn [drain].
  destruct (unvisited st) as [| u us] eqn:E; cbn [length Nat.ltb Nat.leb]; [exact Hg |].
  apply IH, Greedy_visitNearest; [exact Hg | congruence].
Qed.

Lemma greedyFrom_of_splits (order : list Destination) :
  forall start,
    (forall pre x post, order = pre ++ x :: post -> locked x = false ->
       Forall (fun y => locked y = false ->
                 distFrom (cursorAfter start pre) x <= distFrom (cursorAfter start pre) y)
              post) ->
    greedyFrom start order.
Proof.
  induction order as [| x rest IH]; intros start H; [exact I |].
  split.
  - intros Hx. exact (H [] x rest eq_refl Hx).
  - apply IH. intros pre y post -> Hy.
    rewrite <- (cursorAfter_cons start x pre). apply (H (x :: pre) y post eq_refl Hy).
Qed.

Lemma few_unlocked_greedy (start : Location) (dests : list Destination) :
  (length (filter (fun d => negb (locked d)) dests) <= 1)%nat ->
  greedyFrom start dests.
Proof.
  intros Hfew. apply greedyFrom_of_splits.
  intros pre x post -> Hx.
  apply Forall_forall. intros y Hy Hfree. exfalso.
  rewrite filter_app, length_app in Hfew. cbn [filter] in Hfew.
  rewrite Hx in Hfew. cbn [negb length] in Hfew.
  assert (Hin : In y (filter (fun d => negb (locked d)) post)).
  { apply filter_In. split; [exact Hy | rewrite Hfree; reflexivity]. }
  destruct (filter (fun d => negb (locked d)) post); [contradiction | simpl in Hfew; lia].
Qed.

End GreedyFacts.

(** X3: the order returned by [findOptimalOrder] is a nearest-neighbour order:
    every unlocked stop in it is at least as near to the position reached
    just before it (the start, or the stop in the slot before) as every
    unlocked stop placed after it. *)
Theorem findOptimalOrder_greedy
    (start : Location) (destinations : list Destination) (returnToStart : bool) :
  greedyFrom start (Optimizer.findOptimalOrder start destinations returnToStart).
Proof.
  unfold Optimizer.findOptimalOrder.
  destruct (Nat.leb_spec (length (filter (fun d => negb (locked d)) destinations)) 1)
    as [Hfew | Hmany].
  - apply few_unlocked_greedy, Hfew.
  - apply greedyFrom_of_splits. intros pre x post Hsplit Hx.
    assert (Hinit : Greedy start
                      {| Optimizer.result := [];
                         Optimizer.unvisited :=
                           filter (fun d => negb (locked d)) destinations;
                         Optimizer.current := start |}).
    { split; [reflexivity |].
      intros pre0 x0 post0 H0. destruct pre0; discriminate. }
    apply (Greedy_loop start destinations) in Hinit.
    apply (Greedy_drain start
             (length (Optimizer.unvisited
                        (fold_left Optimizer.step destinations
                           {| Optimizer.result := [];
                              Optimizer.unvisited :=
                                filter (fun d => negb (locked d)) destinations;
                              Optimizer.current := start |})))) in Hinit.
    destruct Hinit as [_ Hg].
    exact (proj1 (Hg pre x post Hsplit Hx)).
Qed.

(** X4: whatever the mix of locked and unlocked destinations, as long as their
    identifiers are pairwise distinct the order returned is a rearrangement
    of the input: no destination is added, dropped or repeated. *)
Theorem findOptimalOrder_permutation
    (start : Location) (destinations : list Destination) (returnToStart : bool)
    (Hids : NoDup (map id destinations)) :
  Permutation (Optimizer.findOptimalOrder start destinations returnToStart) destinations.
Proof.
  apply findOptimalOrder_spec, NoDup_ids_apart, Hids.
Qed.

(** The pinned scenario: the three stops come back, rearranged or not. *)
Lemma findOptimalOrder_permutation_witness :
  NoDup (map id [stopA; stopB; stopC]) /\
  Permutation (Optimizer.findOptimalOrder origin [stopA; stopB; stopC] true)
              [stopA; stopB; stopC].
Proof.
  assert (Hids : NoDup (map id [stopA; stopB; stopC])).
  { simpl. repeat constructor; simpl; intuition discriminate. }
  split; [exact Hids |].
  apply (findOptimalOrder_permutation origin [stopA; stopB; stopC] true Hids).
Defined.

(** ** Waypoint validation *)

(** X5: [validateWaypoints] accepts a list exactly when it has at least two
    entries and every entry has a finite latitude within [-90, 90] and a
    finite longitude within [-180, 180]. *)
Theorem validateWaypoints_accepts_exactly (waypoints : list RouteCalculator.Waypoint) :
  RouteCalculator.valid (RouteCalculator.validateWaypoints waypoints) = true <->
  2 <= length waypoints /\ Forall wellFormed waypoints.
Proof. apply validateWaypoints_valid_iff. Qed.

(** Two well-formed waypoints are accepted. *)
Lemma validateWaypoints_accepts_exactly_witness :
  (2 <= length twoWaypoints /\ Forall wellFormed twoWaypoints) /\
  RouteCalculator.valid (RouteCalculator.validateWaypoints twoWaypoints) = true.
Proof.
  assert (H : 2 <= length twoWaypoints /\ Forall wellFormed twoWaypoints).
  { split; [simpl; lia |]. repeat constructor; simpl; lra. }
  split; [exact H |].
  apply (proj2 (validateWaypoints_accepts_exactly twoWaypoints) H).
Defined.

Section ValidationMessages.
Import RouteCalculator.
Local Open Scope string_scope.

Lemma validateFrom_first_offender (good : list Waypoint) (bad : Waypoint)
    (rest : list Waypoint) :
  Forall wellFormed good -> ~ wellFormed bad ->
  forall i,
    let v := validateFrom i (good ++ bad :: rest) in
    valid v = false /\
    (error v = "Invalid coordinates for waypoint " ++ string_of_nat (i + length good + 1)
               ++ ". Please re-enter the address." \/
     error v = "Coordinates out of range for waypoint " ++ string_of_nat (i + length good + 1)
               ++ ". Please re-enter the address.").
Proof.
  intros Hgood Hbad. induction Hgood as [| wp good Hwp _ IH]; intros i.
  - cbn [app length]. rewrite Nat.add_0_r. cbn zeta.
    destruct bad as [[la lo] |]; [| split; [reflexivity | left; reflexivity]].
    cbn [validateFrom raw_lat raw_lng].
    destruct la as [x | | nx |], lo as [y | | ny |];
      cbn [typeofNumber negb orb ltConst gtConst isNaN];
      unfold Rltb;
      repeat match goal with
             | |- context [Rlt_dec ?a ?b] => destruct (Rlt_dec a b)
             end;
      try destruct nx; try destruct ny;
      cbn [orb negb valid error];
      try (split; [reflexivity | left; reflexivity]);
      try (split; [reflexivity | right; reflexivity]).
    exfalso. apply Hbad. simpl. lra.
  - cbn [app length]. cbn zeta.
    destruct wp as [[la lo] |]; [| contradiction].
    destruct Hwp as [Hla Hlo]. destruct la as [x | | |]; try contradiction.
    destruct lo as [y | | |]; try contradiction. simpl in Hla, Hlo.
    cbn [validateFrom raw_lat raw_lng typeofNumber negb orb ltConst gtConst isNaN].
    rewrite !Rltb_false by lra. cbn [orb].
    replace (i + S (length good) + 1) with (S i + length good + 1) by lia.
    apply IH.
Qed.

End ValidationMessages.

(** X6: the message of a rejected list names the first offending waypoint,
    counted from 1: when the entries before it are well-formed, the error is
    one of the two per-waypoint messages with that number. *)
Theorem validateWaypoints_reports_first_offender
    (good : list RouteCalculator.Waypoint) (bad : RouteCalculator.Waypoint)
    (rest : list RouteCalculator.Waypoint)
    (Hgood : Forall wellFormed good) (Hbad : ~ wellFormed bad)
    (Hlen : 2 <= length (good ++ bad :: rest)) :
  let v := RouteCalculator.validateWaypoints (good ++ bad :: rest) in
  RouteCalculator.valid v = false /\
  (RouteCalculator.error v =
     ("Invalid coordinates for waypoint " ++ string_of_nat (length good + 1)
      ++ ". Please re-enter the address.")%string \/
   RouteCalculator.error v =
     ("Coordinates out of range for waypoint " ++ string_of_nat (length good + 1)
      ++ ". Please re-enter the address.")%string).
Proof.
  unfold RouteCalculator.validateWaypoints.
  destruct (Nat.ltb_spec (length (good ++ bad :: rest)) 2) as [Hlt | _]; [lia |].
  apply (validateFrom_first_offender good bad rest Hgood Hbad 0).
Qed.

(** A latitude of 91 in second place: the message names waypoint 2. *)
Lemma validateWaypoints_reports_first_offender_witness :
  ~ wellFormed (RouteCalculator.raw {| lat := 91; lng := 1 |}) /\
  (let v := RouteCalculator.validateWaypoints latitude91 in
   RouteCalculator.valid v = false /\
   (RouteCalculator.error v =
      "Invalid coordinates for waypoint 2. Please re-enter the address."%string \/
    RouteCalculator.error v =
      "Coordinates out of range for waypoint 2. Please re-enter the address."%string)).
Proof.
  assert (Hgood : Forall wellFormed [RouteCalculator.raw {| lat := 0; lng := 0 |}]).
  { repeat constructor; simpl; lra. }
  assert (Hbad : ~ wellFormed (RouteCalculator.raw {| lat := 91; lng := 1 |})).
  { simpl. lra. }
  assert (Hlen : 2 <= length ([RouteCalculator.raw {| lat := 0; lng := 0 |}]
                              ++ RouteCalculator.raw {| lat := 91; lng := 1 |} :: []))
    by (simpl; lia).
  split; [exact Hbad |].
  apply (validateWaypoints_reports_first_offender
           [RouteCalculator.raw {| lat := 0; lng := 0 |}]
           (RouteCalculator.raw {| lat := 91; lng := 1 |}) [] Hgood Hbad Hlen).
Defined.

(** ** Answers of a routing server *)

Section ClassifyFacts.
Import RouteCalculator.
Local Open Scope string_scope.

Lemma classify_success_iff (outcome : FetchOutcome) (r : RouteResult) :
  classify outcome = Success r <->
  exists data route0 more,
    outcome = JsonBody data /\ code data = "Ok" /\
    routes data = Some (route0 :: more) /\
    r = {| duration := route_duration route0;
           distance := route_distance route0;
           geometry := route_geometry route0;
           isFallback := false |}.
Proof.
  split.
  - destruct outcome as [name message | status | data]; cbn [classify].
    + destruct (String.eqb name "AbortError"); [discriminate |].
      destruct (String.eqb name "TypeError"); discriminate.
    + destruct (Nat.eqb status 429); [discriminate |].
      destruct (Nat.leb 500 status); [discriminate |].
      destruct (Nat.eqb status 400); discriminate.
    + destruct (String.eqb (code data) "NoRoute"); [discriminate |].
      destruct (String.eqb (code data) "NoSegment"); [discriminate |].
      destruct (String.eqb (code data) "InvalidInput" || String.eqb (code data) "InvalidQuery");
        [discriminate |].
      destruct (String.eqb (code data) "TooBig"); [discriminate |].
      destruct (String.eqb_spec (code data) "Ok") as [Hok | Hnok]; cbn [negb];
        [| discriminate].
      destruct (routes data) as [[| route0 more] |] eqn:Hroutes; try discriminate.
      intros H. injection H as <-. exists data, route0, more. auto.
  - intros (data & route0 & more & -> & Hcode & Hroutes & ->).
    cbn [classify]. rewrite Hcode, Hroutes. reflexivity.
Qed.

Lemma classify_given_up_iff (outcome : FetchOutcome) :
  (exists e, classify outcome = Failure false e) <-> givenUp outcome.
Proof.
  split.
  - intros [e He]. destruct outcome as [name message | status | data]; cbn [classify] in He.
    + destruct (String.eqb name "AbortError"); [discriminate |].
      destruct (String.eqb name "TypeError"); discriminate.
    + destruct (Nat.eqb status 429); [discriminate |].
      destruct (Nat.leb 500 status); [discriminate |].
      destruct (Nat.eqb_spec status 400) as [-> | _]; [left; reflexivity | discriminate].
    + right. exists data. split; [reflexivity |].
      destruct (String.eqb_spec (code data) "NoRoute") as [-> | _]; [simpl; auto |].
      destruct (String.eqb_spec (code data) "NoSegment") as [-> | _]; [simpl; auto |].
      destruct (String.eqb_spec (code data) "InvalidInput") as [-> | _]; [simpl; auto |].
      destruct (String.eqb_spec (code data) "InvalidQuery") as [-> | _]; [simpl; auto 6 |].
      cbn [orb] in He.
      destruct (String.eqb_spec (code data) "TooBig") as [-> | _]; [simpl; auto 6 |].
      destruct (negb (String.eqb (code data) "Ok")); [discriminate |].
      destruct (routes data) as [[| route0 more] |]; discriminate.
  - intros [-> | (data & -> & Hin)].
    + eexists. reflexivity.
    + cbn [classify].
      destruct Hin as [<- | [<- | [<- | [<- | [<- | []]]]]]; eexists; reflexivity.
Qed.

End ClassifyFacts.

(** X7: a routing server's answer counts as a route exactly when its body has
    code ["Ok"] and at least one route; the result then carries the first
    route's duration, distance and geometry and no fallback mark. *)
Theorem tryRouteServer_success_exactly
    (outcome : RouteCalculator.FetchOutcome) (r : RouteCalculator.RouteResult) :
  RouteCalculator.classify outcome = RouteCalculator.Success r <->
  exists data route0 more,
    outcome = RouteCalculator.JsonBody data /\
    RouteCalculator.code data = "Ok"%string /\
    RouteCalculator.routes data = Some (route0 :: more) /\
    r = {| RouteCalculator.duration := RouteCalculator.route_duration route0;
           RouteCalculator.distance := RouteCalculator.route_distance route0;
           RouteCalculator.geometry := RouteCalculator.route_geometry route0;
           RouteCalculator.isFallback := false |}.
Proof. apply classify_success_iff. Qed.

(** An answer with code "Ok" and one route is a success. *)
Lemma tryRouteServer_success_exactly_witness :
  RouteCalculator.classify
    (RouteCalculator.JsonBody
       {| RouteCalculator.code := "Ok"; RouteCalculator.routes := Some [sampleRoute] |}) =
  RouteCalculator.Success
    {| RouteCalculator.duration := 900; RouteCalculator.distance := 12000;
       RouteCalculator.geometry := RouteCalculator.route_geometry sampleRoute;
       RouteCalculator.isFallback := false |}.
Proof.
  apply (proj2 (tryRouteServer_success_exactly _ _)).
  exists {| RouteCalculator.code := "Ok"; RouteCalculator.routes := Some [sampleRoute] |},
         sampleRoute, [].
  repeat split.
Defined.

(** X8: a failed request is not retried exactly when the server answered with
    HTTP 400 or with the code NoRoute, NoSegment, InvalidInput, InvalidQuery
    or TooBig; a timeout, a network error, any other HTTP error and any other
    unusable body are retryable. *)
Theorem tryRouteServer_gives_up_exactly (outcome : RouteCalculator.FetchOutcome) :
  (exists e, RouteCalculator.classify outcome = RouteCalculator.Failure false e) <->
  givenUp outcome.
Proof. apply classify_given_up_iff. Qed.

(** HTTP 400 is not retried. *)
Lemma tryRouteServer_gives_up_exactly_witness :
  givenUp (RouteCalculator.HttpStatus 400) /\
  exists e, RouteCalculator.classify (RouteCalculator.HttpStatus 400)
            = RouteCalculator.Failure false e.
Proof.
  assert (H : givenUp (RouteCalculator.HttpStatus 400)) by (left; reflexivity).
  split; [exact H |].
  apply (proj2 (tryRouteServer_gives_up_exactly (RouteCalculator.HttpStatus 400)) H).
Defined.

(** ** The provider loop in general *)

Section RouteTraceFacts.
Import RouteCalculator.
Local Open Scope string_scope.
Local Open Scope list_scope.

Variable net : Network.
Variable wps : list Location.
Variable maxR : nat.

Lemma waitTime_range (attempt : nat) : 1000 <= waitTime attempt <= 5000.
Proof.
  unfold waitTime. split.
  - apply Nat.min_glb.
    + assert (H : 1 <= 2 ^ attempt) by (apply Nat.neq_0_lt_0, Nat.pow_nonzero; discriminate).
      replace 1000 with (1000 * 1) at 1 by apply Nat.mul_1_r.
      apply Nat.mul_le_mono_l, H.
    + apply Nat.leb_le. reflexivity.
  - apply Nat.le_min_r.
Qed.

Lemma attemptLoop_constant_failure (s e : string) (fuel : nat) :
  forall attempt errors,
    (forall k, attempt <= k < attempt + fuel ->
               classify (routeFetch net s k) = Failure true e) ->
    attemptLoop net s wps maxR fuel attempt errors =
      (retrySchedule s wps maxR attempt fuel,
       Returned (inr (errors ++ recordedErrors s e attempt fuel))).
Proof.
  induction fuel as [| fuel IH]; intros attempt errors H.
  - cbn. rewrite app_nil_r. reflexivity.
  - rewrite (attemptLoop_S_failure net wps maxR s fuel attempt errors true e)
      by (apply H; lia).
    cbn zeta. rewrite IH by (intros k Hk; apply H; lia).
    cbn [trace completion fst snd].
    unfold retrySchedule, recordedErrors. cbn [seq flat_map map].
    rewrite <- app_assoc. reflexivity.
Qed.

Lemma attemptLoop_general (s : string) (fuel : nat) :
  forall attempt errors,
    attempt + fuel <= S maxR ->
    exists t c,
      attemptLoop net s wps maxR fuel attempt errors = (t, Returned c) /\
      Forall (attemptEvent wps s) t /\
      requestsTo s t <= fuel /\
      match c with
      | inl data => exists k, k <= maxR /\ classify (routeFetch net s k) = Success data
      | inr errors' => exists added, errors' = errors ++ added
      end.
Proof.
  induction fuel as [| fuel IH]; intros attempt errors Hle.
  - exists [], (inr errors). repeat split; [constructor | apply Nat.le_refl |].
    exists []. rewrite app_nil_r. reflexivity.
  - destruct (classify (routeFetch net s attempt)) as [data | retryable e] eqn:Hc.
    + rewrite (attemptLoop_S_success net wps maxR s fuel attempt errors data Hc).
      exists [RouteRequest s wps], (inl data). repeat split.
      * constructor; [left; reflexivity | constructor].
      * unfold requestsTo. cbn [filter isRequestTo]. rewrite String.eqb_refl. simpl. lia.
      * exists attempt. split; [lia | exact Hc].
    + rewrite (attemptLoop_S_failure net wps maxR s fuel attempt errors retryable e Hc).
      cbn zeta. destruct retryable.
      * destruct (IH (S attempt)
                    (errors ++ [ {| err_server := s; err_attempt := attempt + 1;
                                    err_error := e |} ]) ltac:(lia))
          as (t & c & Heq & Hev & Hreq & Hc').
        rewrite Heq. cbn [trace completion fst snd].
        eexists; exists c. split; [reflexivity |]. repeat split.
        -- constructor; [left; reflexivity |].
           apply Forall_app. split; [| exact Hev].
           destruct (Nat.ltb attempt maxR); [| constructor].
           constructor; [right; eexists; reflexivity | constructor].
        -- change (RouteRequest s wps :: ?l) with ([RouteRequest s wps] ++ l).
           rewrite !requestsTo_app.
           unfold requestsTo at 1 2. cbn [filter isRequestTo].
           rewrite String.eqb_refl.
           destruct (Nat.ltb attempt maxR); simpl; lia.
        -- destruct c as [data | errors']; [exact Hc' |].
           destruct Hc' as [added ->]. eexists. rewrite <- app_assoc. reflexivity.
      * eexists; eexists. split; [reflexivity |]. repeat split.
        -- constructor; [left; reflexivity | constructor].
        -- unfold requestsTo. cbn [filter isRequestTo]. rewrite String.eqb_refl. simpl. lia.
        -- eexists. reflexivity.
Qed.

Lemma attemptEvent_other_server (s s' : string) (t : list Event) :
  Forall (attemptEvent wps s) t -> s <> s' -> requestsTo s' t = 0.
Proof.
  intros H Hne. induction H as [| e t He _ IH]; [reflexivity |].
  unfold requestsTo in *. cbn [filter].
  destruct He as [-> | [k ->]]; cbn [isRequestTo].
  - apply String.eqb_neq in Hne. rewrite Hne. exact IH.
  - exact IH.
Qed.

Lemma serverLoop_general (servers : list string) :
  NoDup servers ->
  forall errors,
    exists t c,
      serverLoop net wps maxR servers errors = (t, Returned c) /\
      Forall (loopEvent wps servers) t /\
      (forall s, requestsTo s t <= S maxR) /\
      match c with
      | inl data => exists s k, In s servers /\ k <= maxR /\
                                classify (routeFetch net s k) = Success data
      | inr errors' => exists added, errors' = errors ++ added
      end.
Proof.
  induction servers as [| s servers IH]; intros Hnd errors.
  - exists [], (inr errors). repeat split; [constructor | intros; apply Nat.le_0_l |].
    exists []. rewrite app_nil_r. reflexivity.
  - inversion Hnd as [| ? ? Hnotin Hnd']; subst.
    destruct (attemptLoop_general s (S maxR) 0 errors ltac:(lia))
      as (t1 & c1 & Heq1 & Hev1 & Hreq1 & Hc1).
    cbn [serverLoop]. rewrite Heq1. rewrite bind_returned.
    assert (Hev1' : Forall (loopEvent wps (s :: servers)) t1).
    { eapply Forall_impl; [| exact Hev1]. intros e [-> | Hp]; [left | right; exact Hp].
      exists s. split; [left; reflexivity | reflexivity]. }
    destruct c1 as [data | errors1].
    + exists (t1 ++ []), (inl data). cbn [ret trace completion fst snd].
      split; [reflexivity |]. rewrite app_nil_r. repeat split.
      * exact Hev1'.
      * intros s'. destruct (String.eqb_spec s s') as [<- | Hne]; [exact Hreq1 |].
        rewrite (attemptEvent_other_server s s' t1 Hev1 Hne). lia.
      * destruct Hc1 as (k & Hk & Hc). exists s, k. auto using in_eq.
    + destruct Hc1 as [added1 ->].
      destruct (IH Hnd' (errors ++ added1)) as (t2 & c2 & Heq2 & Hev2 & Hreq2 & Hc2).
      rewrite Heq2. cbn [trace completion fst snd].
      exists (t1 ++ t2), c2. split; [reflexivity |]. repeat split.
      * apply Forall_app. split; [exact Hev1' |].
        eapply Forall_impl; [| exact Hev2].
        intros e [(s0 & Hs0 & ->) | Hp]; [left | right; exact Hp].
        exists s0. split; [right; exact Hs0 | reflexivity].
      * intros s'. rewrite requestsTo_app.
        destruct (String.eqb_spec s s') as [<- | Hne].
        -- assert (H0 : requestsTo s t2 = 0).
           { clear - Hev2 Hnotin. induction Hev2 as [| e t He _ IH']; [reflexivity |].
             unfold requestsTo in *. cbn [filter].
             destruct He as [(s0 & Hs0 & ->) | [k ->]]; cbn [isRequestTo]; [| exact IH'].
             destruct (String.eqb_spec s0 s) as [-> | _]; [contradiction | exact IH']. }
           rewrite H0. lia.
        -- rewrite (attemptEvent_other_server s s' t1 Hev1 Hne). apply Hreq2.
      * destruct c2 as [data | errors2].
        -- destruct Hc2 as (s0 & k & Hs0 & Hk & Hc). exists s0, k. auto using in_cons.
        -- destruct Hc2 as [added2 ->]. eexists. rewrite <- app_assoc. reflexivity.
Qed.

End RouteTraceFacts.

(** ** What [calculateRoute] does on every network *)

Section CalculateRouteFacts.
Import RouteCalculator.
Local Open Scope string_scope.
Local Open Scope list_scope.

Lemma ROUTING_SERVERS_NoDup : NoDup ROUTING_SERVERS.
Proof.
  unfold ROUTING_SERVERS. repeat constructor; simpl; intuition discriminate.
Qed.

Lemma loopEvent_orderly (wps : list Location) (t : list Event) :
  Forall (loopEvent wps ROUTING_SERVERS) t -> Forall orderlyEvent t.
Proof.
  apply Forall_impl. intros e [(s & Hs & ->) | [k ->]]; cbn [orderlyEvent].
  - exact Hs.
  - apply waitTime_range.
Qed.

Lemma loopEvent_no_probe (wps : list Location) (servers : list string) (t : list Event) :
  Forall (loopEvent wps servers) t -> probes t = 0.
Proof.
  intros H. induction H as [| e t He _ IH]; [reflexivity |].
  unfold probes in *. cbn [filter].
  destruct He as [(s & _ & ->) | [k ->]]; exact IH.
Qed.

Lemma probes_app (t1 t2 : list Event) : probes (t1 ++ t2) = probes t1 + probes t2.
Proof. unfold probes. rewrite filter_app, length_app. reflexivity. Qed.

Lemma calculateFallbackRoute_isFallback (wps : list Location) :
  isFallback (calculateFallbackRoute wps) = true.
Proof. rewrite calculateFallbackRoute_spec. reflexivity. Qed.

(** What follows the provider loop: at most one probe, at most one toast,
    no routing request; a returned value is the fallback estimate, and only
    with [useFallback]. *)
Lemma afterLoop_facts (net : Network) (wps : list Location) (options : Options)
    (errors : list ErrorRecord) :
  let allNetworkErrors := forallb isNetworkError errors in
  let rest : M RouteResult :=
    (if allNetworkErrors then
       hasConnectivity <- testNetworkConnectivity net ;;
       if negb hasConnectivity then
         if useFallback options
         then fallbackWithToast "Network issue: Using estimated route" wps
         else throw "Unable to connect to routing services. Please check your internet connection and try again."
       else
         if useFallback options
         then fallbackWithToast "Routing servers unavailable: Using estimated route" wps
         else throw "Routing services are temporarily unavailable. Please try again in a few minutes."
     else
       match find isNonRetryable errors with
       | Some nonRetryableError => throw (err_error nonRetryableError)
       | None =>
           if existsb (fun e => String.eqb (err_error e) "Rate limited") errors
           then throw "Route calculation service is busy. Please wait a moment and try again."
           else if useFallback options
           then fallbackWithToast "Route calculation failed: Using estimated route" wps
           else throw "Unable to calculate route. Please verify your destinations and try again."
       end)%js in
  Forall orderlyEvent (trace rest) /\
  (forall s, requestsTo s (trace rest) = 0) /\
  probes (trace rest) <= 1 /\
  (forall r, completion rest = Returned r ->
             useFallback options = true /\ r = calculateFallbackRoute wps).
Proof.
  cbn zeta.
  assert (Hcase : forall (t : list Event) (c : Completion RouteResult),
            Forall orderlyEvent t -> (forall s, requestsTo s t = 0) -> probes t <= 1 ->
            (forall r, c = Returned r ->
                       useFallback options = true /\ r = calculateFallbackRoute wps) ->
            Forall orderlyEvent (trace (t, c)) /\
            (forall s, requestsTo s (trace (t, c)) = 0) /\
            probes (trace (t, c)) <= 1 /\
            (forall r, completion (t, c) = Returned r ->
                       useFallback options = true /\ r = calculateFallbackRoute wps))
    by (intros; cbn [trace completion fst snd]; auto).
  destruct (forallb isNetworkError errors).
  - unfold testNetworkConnectivity, emit.
    destruct (probeFetch net) as [[|] |]; destruct (useFallback options) eqn:Hfb;
      cbn [bind ret throw fallbackWithToast emit negb app]; apply Hcase;
      try (repeat constructor; fail);
      try (intros s; reflexivity);
      try (unfold probes; cbn; lia);
      intros r H; try discriminate H; injection H as <-; auto.
  - destruct (find isNonRetryable errors) as [e |].
    + cbn [throw]. apply Hcase;
        [constructor | intros s; reflexivity | unfold probes; cbn; lia
        | intros r H; discriminate H].
    + destruct (existsb _ errors).
      * cbn [throw]. apply Hcase;
          [constructor | intros s; reflexivity | unfold probes; cbn; lia
          | intros r H; discriminate H].
      * destruct (useFallback options) eqn:Hfb;
          cbn [bind ret throw fallbackWithToast emit app]; apply Hcase;
          try (repeat constructor; fail);
          try (intros s; reflexivity);
          try (unfold probes; cbn; lia);
          intros r H; try discriminate H; injection H as <-; auto.
Qed.

End CalculateRouteFacts.

(** X9: whatever the network answers, [calculateRoute] sends routing requests to
    the configured servers only, never more than [maxRetries + 1] to any one
    of them, pauses between one and five seconds only, and probes the
    connectivity at most once. *)
Theorem calculateRoute_trace_discipline
    (net : RouteCalculator.Network) (waypoints : list RouteCalculator.Waypoint)
    (options : RouteCalculator.Options) :
  let t := trace (RouteCalculator.calculateRoute net waypoints options) in
  Forall orderlyEvent t /\
  (forall s, requestsTo s t <= RouteCalculator.maxRetries options + 1) /\
  probes t <= 1.
Proof.
  cbn zeta. unfold RouteCalculator.calculateRoute.
  destruct (RouteCalculator.valid _); cbn [negb].
  2:{ cbn. repeat split; [constructor | intros; lia | lia]. }
  destruct (RouteCalculator.isOnline net); cbn [negb].
  2:{ destruct (RouteCalculator.useFallback options); cbn;
        (split; [repeat constructor | split; [intros; lia | unfold probes; cbn; lia]]). }
  set (wps := map RouteCalculator.asLocation waypoints).
  destruct (serverLoop_general net wps (RouteCalculator.maxRetries options)
              RouteCalculator.ROUTING_SERVERS ROUTING_SERVERS_NoDup [])
    as (t & c & Heq & Hev & Hreq & Hc).
  rewrite Heq, bind_returned. cbn [trace fst].
  destruct c as [data | errors].
  - cbn [ret trace fst]. rewrite app_nil_r. repeat split.
    + eapply loopEvent_orderly, Hev.
    + intros s. specialize (Hreq s). lia.
    + rewrite (loopEvent_no_probe _ _ _ Hev). lia.
  - destruct (afterLoop_facts net wps options errors) as (H1 & H2 & H3 & _).
    cbn zeta in H1, H2, H3. repeat split.
    + apply Forall_app. split; [eapply loopEvent_orderly, Hev | exact H1].
    + intros s. rewrite requestsTo_app, H2. specialize (Hreq s). lia.
    + rewrite probes_app, (loopEvent_no_probe _ _ _ Hev). exact H3.
Qed.

(** X10: a value returned by [calculateRoute] is either a route that one of the
    configured servers delivered within the allowed attempts, not marked as
    fallback, or the straight-line estimate, marked as fallback, and the
    latter only when [useFallback] is set. *)
Theorem calculateRoute_returns_route_or_estimate
    (net : RouteCalculator.Network) (waypoints : list RouteCalculator.Waypoint)
    (options : RouteCalculator.Options) (r : RouteCalculator.RouteResult)
    (Hret : completion (RouteCalculator.calculateRoute net waypoints options) = Returned r) :
  (RouteCalculator.isFallback r = true /\
   RouteCalculator.useFallback options = true /\
   r = RouteCalculator.calculateFallbackRoute (map RouteCalculator.asLocation waypoints)) \/
  (RouteCalculator.isFallback r = false /\
   exists s k, In s RouteCalculator.ROUTING_SERVERS /\
               k <= RouteCalculator.maxRetries options /\
               RouteCalculator.classify (RouteCalculator.routeFetch net s k)
               = RouteCalculator.Success r).
Proof.
  revert Hret. unfold RouteCalculator.calculateRoute.
  destruct (RouteCalculator.valid _); cbn [negb]; [| discriminate].
  set (wps := map RouteCalculator.asLocation waypoints).
  destruct (RouteCalculator.isOnline net); cbn [negb].
  2:{ destruct (RouteCalculator.useFallback options) eqn:Hfb; [| discriminate].
      cbn. intros H. injection H as <-. left.
      split; [apply calculateFallbackRoute_isFallback | auto]. }
  destruct (serverLoop_general net wps (RouteCalculator.maxRetries options)
              RouteCalculator.ROUTING_SERVERS ROUTING_SERVERS_NoDup [])
    as (t & c & Heq & Hev & Hreq & Hc).
  rewrite Heq, bind_returned. cbn [completion snd].
  destruct c as [data | errors].
  - cbn [ret snd]. intros H. injection H as <-. right.
    destruct Hc as (s & k & Hs & Hk & Hc). split; [| eauto].
    apply classify_success_iff in Hc as (d & r0 & more & _ & _ & _ & ->). reflexivity.
  - destruct (afterLoop_facts net wps options errors) as (_ & _ & _ & H4).
    cbn zeta in H4. intros H. destruct (H4 r H) as [Hfb ->]. left.
    split; [apply calculateFallbackRoute_isFallback | auto].
Qed.

(** Offline with the default options: the value returned is the estimate. *)
Lemma calculateRoute_returns_route_or_estimate_witness :
  let r := RouteCalculator.calculateFallbackRoute
             (map RouteCalculator.asLocation twoWaypoints) in
  completion (RouteCalculator.calculateRoute offlineNet twoWaypoints
                RouteCalculator.defaultOptions) = Returned r /\
  ((RouteCalculator.isFallback r = true /\
    RouteCalculator.useFallback RouteCalculator.defaultOptions = true /\
    r = RouteCalculator.calculateFallbackRoute
          (map RouteCalculator.asLocation twoWaypoints)) \/
   (RouteCalculator.isFallback r = false /\
    exists s k, In s RouteCalculator.ROUTING_SERVERS /\
                k <= RouteCalculator.maxRetries RouteCalculator.defaultOptions /\
                RouteCalculator.classify (RouteCalculator.routeFetch offlineNet s k)
                = RouteCalculator.Success r)).
Proof.
  cbn zeta.
  assert (Hret : completion (RouteCalculator.calculateRoute offlineNet twoWaypoints
                               RouteCalculator.defaultOptions)
                 = Returned (RouteCalculator.calculateFallbackRoute
                               (map RouteCalculator.asLocation twoWaypoints))).
  { unfold RouteCalculator.calculateRoute. rewrite twoWaypoints_valid. reflexivity. }
  split; [exact Hret |].
  apply (calculateRoute_returns_route_or_estimate offlineNet twoWaypoints
           RouteCalculator.defaultOptions _ Hret).
Defined.

(** X11: when the browser reports itself offline, [calculateRoute] makes no
    network request at all: with [useFallback] it returns the straight-line
    estimate, without it it throws the offline message. *)
Theorem calculateRoute_offline
    (net : RouteCalculator.Network) (waypoints : list RouteCalculator.Waypoint)
    (options : RouteCalculator.Options)
    (Hvalid : RouteCalculator.valid (RouteCalculator.validateWaypoints waypoints) = true)
    (Hoffline : RouteCalculator.isOnline net = false) :
  let run := RouteCalculator.calculateRoute net waypoints options in
  networkRequests (trace run) = 0 /\
  completion run =
    if RouteCalculator.useFallback options
    then Returned (RouteCalculator.calculateFallbackRoute
                     (map RouteCalculator.asLocation waypoints))
    else Thrown "You appear to be offline. Please check your internet connection and try again.".
Proof.
  cbn zeta. unfold RouteCalculator.calculateRoute. rewrite Hvalid, Hoffline. cbn [negb].
  destruct (RouteCalculator.useFallback options); split; reflexivity.
Qed.

Lemma calculateRoute_offline_witness :
  RouteCalculator.valid (RouteCalculator.validateWaypoints twoWaypoints) = true /\
  RouteCalculator.isOnline offlineNet = false /\
  (let run := RouteCalculator.calculateRoute offlineNet twoWaypoints
                RouteCalculator.defaultOptions in
   networkRequests (trace run) = 0 /\
   completion run =
     Returned (RouteCalculator.calculateFallbackRoute
                 (map RouteCalculator.asLocation twoWaypoints))).
Proof.
  split; [exact twoWaypoints_valid | split; [reflexivity |]].
  apply (calculateRoute_offline offlineNet twoWaypoints RouteCalculator.defaultOptions
           twoWaypoints_valid eq_refl).
Defined.

(** ** Scenarios of the provider loop *)

Section ProviderScenarios.
Import RouteCalculator.
Local Open Scope string_scope.
Local Open Scope list_scope.

Variable net : Network.
Variable wps : list Location.
Variable maxR : nat.

Lemma attemptLoop_retry_then_success (s : string) (data : RouteResult) (n : nat) :
  forall attempt fuel errors,
    n < fuel ->
    (forall k, attempt <= k < attempt + n ->
               exists e, classify (routeFetch net s k) = Failure true e) ->
    classify (routeFetch net s (attempt + n)) = Success data ->
    completion (attemptLoop net s wps maxR fuel attempt errors) = Returned (inl data) /\
    forall s', requestsTo s' (trace (attemptLoop net s wps maxR fuel attempt errors)) =
               if String.eqb s s' then S n else 0.
Proof.
  induction n as [| n IH]; intros attempt fuel errors Hlt Hfail Hok.
  - destruct fuel as [| fuel]; [lia |].
    rewrite Nat.add_0_r in Hok.
    rewrite (attemptLoop_S_success net wps maxR s fuel attempt errors data Hok).
    split; [reflexivity |]. intros s'. unfold requestsTo. cbn [trace fst filter isRequestTo].
    destruct (String.eqb s s'); reflexivity.
  - destruct fuel as [| fuel]; [lia |].
    destruct (Hfail attempt) as [e He]; [lia |].
    rewrite (attemptLoop_S_failure net wps maxR s fuel attempt errors true e He).
    cbn zeta. cbn [trace completion fst snd].
    destruct (IH (S attempt) fuel
                (errors ++ [ {| err_server := s; err_attempt := attempt + 1;
                                err_error := e |} ])) as [Hc Ht].
    + lia.
    + intros k Hk. apply Hfail. lia.
    + replace (S attempt + n) with (attempt + S n) by lia. exact Hok.
    + split; [exact Hc |]. intros s'.
      change (RouteRequest s wps :: ?l) with ([RouteRequest s wps] ++ l).
      rewrite !requestsTo_app, Ht.
      unfold requestsTo at 1 2. cbn [filter isRequestTo].
      destruct (String.eqb s s'); destruct (Nat.ltb attempt maxR); reflexivity.
Qed.

Lemma find_skips {A : Type} (p : A -> bool) (l1 l2 : list A) :
  (forall x, In x l1 -> p x = false) -> find p (l1 ++ l2) = find p l2.
Proof.
  induction l1 as [| x l1 IH]; intros H; [reflexivity |].
  cbn [app find]. rewrite (H x (or_introl eq_refl)). apply IH.
  intros y Hy. apply H. right. exact Hy.
Qed.

Lemma existsb_all_false {A : Type} (p : A -> bool) (l : list A) :
  (forall x, In x l -> p x = false) -> existsb p l = false.
Proof.
  induction l as [| x l IH]; intros H; [reflexivity |].
  cbn [existsb]. rewrite (H x (or_introl eq_refl)). apply IH.
  intros y Hy. apply H. right. exact Hy.
Qed.

Lemma recordedErrors_error (s e : string) (first count : nat) (x : ErrorRecord) :
  In x (recordedErrors s e first count) -> err_error x = e.
Proof.
  unfold recordedErrors. intros H. apply in_map_iff in H as (k & <- & _). reflexivity.
Qed.

(** Both servers fail every allowed attempt in a retryable way with the
    same message. *)
Lemma serverLoop_constant_failure (e : string) :
  (forall s k, In s ROUTING_SERVERS -> k <= maxR ->
               classify (routeFetch net s k) = Failure true e) ->
  serverLoop net wps maxR ROUTING_SERVERS [] =
    (retrySchedule primaryServer wps maxR 0 (S maxR)
       ++ retrySchedule secondaryServer wps maxR 0 (S maxR),
     Returned (inr (recordedErrors primaryServer e 0 (S maxR)
                    ++ recordedErrors secondaryServer e 0 (S maxR)))).
Proof.
  intros H. unfold ROUTING_SERVERS. cbn [serverLoop].
  change "https://router.project-osrm.org" with primaryServer.
  change "https://routing.openstreetmap.de/routed-car" with secondaryServer.
  rewrite (attemptLoop_constant_failure net wps maxR primaryServer e (S maxR) 0 [])
    by (intros k Hk; apply H; [left; reflexivity | lia]).
  rewrite bind_returned.
  rewrite (attemptLoop_constant_failure net wps maxR secondaryServer e (S maxR) 0)
    by (intros k Hk; apply H; [right; left; reflexivity | lia]).
  rewrite bind_returned. cbn [ret trace completion fst snd app].
  rewrite app_nil_r. reflexivity.
Qed.

End ProviderScenarios.

(** X12: when the primary provider fails [k] times in a retryable way and then
    delivers a route on attempt [k], within the allowed retries,
    [calculateRoute] returns that route after exactly [k + 1] requests to the
    primary provider; the secondary provider is never contacted and the
    connectivity is not probed. *)
Theorem calculateRoute_retries_until_success
    (net : RouteCalculator.Network) (waypoints : list RouteCalculator.Waypoint)
    (options : RouteCalculator.Options) (k : nat) (data : RouteCalculator.RouteResult)
    (Hvalid : RouteCalculator.valid (RouteCalculator.validateWaypoints waypoints) = true)
    (Honline : RouteCalculator.isOnline net = true)
    (Hk : k <= RouteCalculator.maxRetries options)
    (Hfail : forall j, j < k ->
        exists e, RouteCalculator.classify (RouteCalculator.routeFetch net primaryServer j)
                  = RouteCalculator.Failure true e)
    (Hok : RouteCalculator.classify (RouteCalculator.routeFetch net primaryServer k)
           = RouteCalculator.Success data) :
  let run := RouteCalculator.calculateRoute net waypoints options in
  completion run = Returned data /\
  requestsTo primaryServer (trace run) = k + 1 /\
  requestsTo secondaryServer (trace run) = 0 /\
  probes (trace run) = 0.
Proof.
  cbn zeta.
  set (wps := map RouteCalculator.asLocation waypoints).
  set (maxR := RouteCalculator.maxRetries options) in *.
  destruct (attemptLoop_retry_then_success net wps maxR primaryServer data k 0 (S maxR) [])
    as [Hc Ht]; [lia | intros j Hj; apply Hfail; lia | exact Hok |].
  destruct (attemptLoop_general net wps maxR primaryServer (S maxR) 0 [] ltac:(lia))
    as (t & c & Heq & Hev & _ & _).
  rewrite Heq in Hc, Ht. cbn [trace completion fst snd] in Hc, Ht.
  injection Hc as ->.
  unfold RouteCalculator.calculateRoute. rewrite Hvalid, Honline. cbn [negb].
  fold wps. fold maxR. unfold RouteCalculator.ROUTING_SERVERS.
  cbn [RouteCalculator.serverLoop].
  change "https://router.project-osrm.org"%string with primaryServer.
  rewrite Heq, bind_returned. cbn [ret trace completion fst snd].
  rewrite bind_returned. cbn [ret trace completion fst snd].
  rewrite !app_nil_r. repeat split.
  - rewrite Ht. change (String.eqb primaryServer primaryServer) with true. cbn. lia.
  - rewrite Ht. reflexivity.
  - clear - Hev. induction Hev as [| e t He _ IH]; [reflexivity |].
    unfold probes in *. cbn [filter]. destruct He as [-> | [j ->]]; exact IH.
Qed.

(** Two timeouts, then the route: three requests, all to the primary. *)
Lemma calculateRoute_retries_until_success_witness :
  let run := RouteCalculator.calculateRoute slowPrimary twoWaypoints
               RouteCalculator.defaultOptions in
  RouteCalculator.isOnline slowPrimary = true /\
  completion run =
    Returned {| RouteCalculator.duration := 900; RouteCalculator.distance := 12000;
                RouteCalculator.geometry := RouteCalculator.route_geometry sampleRoute;
                RouteCalculator.isFallback := false |} /\
  requestsTo primaryServer (trace run) = 3 /\
  requestsTo secondaryServer (trace run) = 0 /\
  probes (trace run) = 0.
Proof.
  cbn zeta. split; [reflexivity |].
  apply (calculateRoute_retries_until_success slowPrimary twoWaypoints
           RouteCalculator.defaultOptions 2 _ twoWaypoints_valid eq_refl).
  - apply Nat.le_refl.
  - intros j Hj. exists "Request timed out"%string.
    destruct j as [| [| j]]; [reflexivity | reflexivity | lia].
  - reflexivity.
Defined.

Section AuthoritativeFacts.
Import RouteCalculator.
Local Open Scope string_scope.
Local Open Scope list_scope.

(** The five codes are classified as not retryable, with a message that the
    final analysis recognises and that is no network error. *)
Lemma classify_authoritative (data : OsrmBody) :
  In (code data) ["NoRoute"; "NoSegment"; "InvalidInput"; "InvalidQuery"; "TooBig"] ->
  exists e, classify (JsonBody data) = Failure false e /\
            forall s a, isNonRetryable {| err_server := s; err_attempt := a; err_error := e |}
                        = true /\
                        isNetworkError {| err_server := s; err_attempt := a; err_error := e |}
                        = false.
Proof.
  intros Hin. cbn [classify].
  destruct Hin as [<- | [<- | [<- | [<- | [<- | []]]]]];
    eexists; (split; [reflexivity | intros s a; split; reflexivity]).
Qed.

End AuthoritativeFacts.

(** X13: when the primary provider answers its first request with NoRoute,
    NoSegment, InvalidInput, InvalidQuery or TooBig, it is asked only once;
    [calculateRoute] then either returns a route that the secondary provider
    delivered within the allowed attempts, or throws the primary provider's
    message.  It never substitutes the straight-line estimate, whatever
    [useFallback] says. *)
Theorem calculateRoute_authoritative_error
    (net : RouteCalculator.Network) (waypoints : list RouteCalculator.Waypoint)
    (options : RouteCalculator.Options) (data0 : RouteCalculator.OsrmBody)
    (Hvalid : RouteCalculator.valid (RouteCalculator.validateWaypoints waypoints) = true)
    (Honline : RouteCalculator.isOnline net = true)
    (Hfirst : RouteCalculator.routeFetch net primaryServer 0 = RouteCalculator.JsonBody data0)
    (Hcode : In (RouteCalculator.code data0)
                ["NoRoute"; "NoSegment"; "InvalidInput"; "InvalidQuery"; "TooBig"]%string) :
  let run := RouteCalculator.calculateRoute net waypoints options in
  requestsTo primaryServer (trace run) = 1 /\
  ((exists r k,
      completion run = Returned r /\
      k <= RouteCalculator.maxRetries options /\
      RouteCalculator.classify (RouteCalculator.routeFetch net secondaryServer k)
      = RouteCalculator.Success r /\
      RouteCalculator.isFallback r = false) \/
   (exists e, completion run = Thrown e /\
              RouteCalculator.classify (RouteCalculator.JsonBody data0)
              = RouteCalculator.Failure false e)).
Proof.
  cbn zeta.
  set (wps := map RouteCalculator.asLocation waypoints).
  set (maxR := RouteCalculator.maxRetries options).
  destruct (classify_authoritative data0 Hcode) as (e & He & Hmsg).
  pose (err0 := {| RouteCalculator.err_server := primaryServer;
                   RouteCalculator.err_attempt := 0 + 1;
                   RouteCalculator.err_error := e |}).
  assert (H1 : RouteCalculator.attemptLoop net primaryServer wps maxR (S maxR) 0 []
               = ([RouteRequest primaryServer wps], Returned (inr [err0]))).
  { rewrite (attemptLoop_S_failure net wps maxR primaryServer maxR 0 [] false e)
      by (rewrite Hfirst; exact He).
    reflexivity. }
  destruct (attemptLoop_general net wps maxR secondaryServer (S maxR) 0 [err0] ltac:(lia))
    as (t2 & c2 & H2 & Hev2 & _ & Hc2).
  assert (Hother : requestsTo primaryServer t2 = 0).
  { apply (attemptEvent_other_server wps secondaryServer primaryServer t2 Hev2).
    discriminate. }
  unfold RouteCalculator.calculateRoute. rewrite Hvalid, Honline. cbn [negb].
  fold wps. fold maxR. unfold RouteCalculator.ROUTING_SERVERS.
  cbn [RouteCalculator.serverLoop].
  change "https://router.project-osrm.org"%string with primaryServer.
  change "https://routing.openstreetmap.de/routed-car"%string with secondaryServer.
  rewrite H1, bind_returned, H2, bind_returned.
  destruct c2 as [data | errors].
  - cbn [ret trace completion fst snd]. rewrite bind_returned.
    cbn [ret trace completion fst snd]. rewrite !app_nil_r.
    split.
    + rewrite requestsTo_app, Hother. reflexivity.
    + left. destruct Hc2 as (k & Hbound & Hk).
      exists data, k. split; [reflexivity |].
      split; [exact Hbound | split; [exact Hk |]].
      apply classify_success_iff in Hk as (d & r0 & more & _ & _ & _ & ->). reflexivity.
  - destruct Hc2 as [added ->].
    cbn [ret trace completion fst snd]. rewrite bind_returned.
    unfold err0. cbn [app forallb find].
    rewrite (proj2 (Hmsg primaryServer (0 + 1))).
    rewrite (proj1 (Hmsg primaryServer (0 + 1))).
    cbn [andb RouteCalculator.err_error throw trace completion fst snd].
    rewrite !app_nil_r. split.
    + change (RouteRequest primaryServer wps :: t2)
        with ([RouteRequest primaryServer wps] ++ t2).
      rewrite requestsTo_app, Hother. reflexivity.
    + right. exists e. split; [reflexivity | exact He].
Qed.

(** Both providers report NoRoute. *)
Lemma calculateRoute_authoritative_error_witness :
  let run := RouteCalculator.calculateRoute noRouteNet twoWaypoints
               RouteCalculator.defaultOptions in
  RouteCalculator.isOnline noRouteNet = true /\
  requestsTo primaryServer (trace run) = 1 /\
  ((exists r k,
      completion run = Returned r /\
      k <= RouteCalculator.maxRetries RouteCalculator.defaultOptions /\
      RouteCalculator.classify (RouteCalculator.routeFetch noRouteNet secondaryServer k)
      = RouteCalculator.Success r /\
      RouteCalculator.isFallback r = false) \/
   (exists e, completion run = Thrown e /\
              RouteCalculator.classify
                (RouteCalculator.JsonBody
                   {| RouteCalculator.code := "NoRoute"; RouteCalculator.routes := None |})
              = RouteCalculator.Failure false e)).
Proof.
  cbn zeta. split; [reflexivity |].
  apply (calculateRoute_authoritative_error noRouteNet twoWaypoints
           RouteCalculator.defaultOptions
           {| RouteCalculator.code := "NoRoute"; RouteCalculator.routes := None |}
           twoWaypoints_valid eq_refl eq_refl).
  left. reflexivity.
Defined.

Section ConstantFailureFacts.
Import RouteCalculator.
Local Open Scope string_scope.
Local Open Scope list_scope.

Lemma find_all_false {A : Type} (p : A -> bool) (l : list A) :
  (forall x, In x l -> p x = false) -> find p l = None.
Proof.
  intros H. rewrite <- (app_nil_r l). rewrite find_skips by exact H. reflexivity.
Qed.

(** The final analysis of the errors of two exhausted servers that failed
    with one and the same message [e] looks at [e] only. *)
Lemma recorded_no_network (e : string) (maxR : nat) :
  isNetworkError {| err_server := ""; err_attempt := 0; err_error := e |} = false ->
  forallb isNetworkError (recordedErrors primaryServer e 0 (S maxR)
                          ++ recordedErrors secondaryServer e 0 (S maxR)) = false.
Proof.
  intros E. unfold recordedErrors. cbn [seq map app forallb].
  unfold isNetworkError in *. cbn [err_error] in *. rewrite E. reflexivity.
Qed.

Lemma recorded_not_recognised (e : string) (maxR : nat) :
  isNonRetryable {| err_server := ""; err_attempt := 0; err_error := e |} = false ->
  find isNonRetryable (recordedErrors primaryServer e 0 (S maxR)
                       ++ recordedErrors secondaryServer e 0 (S maxR)) = None.
Proof.
  intros E. apply find_all_false. intros x Hx.
  assert (Hx' : err_error x = e).
  { apply in_app_or in Hx as [Hx | Hx]; eapply recordedErrors_error, Hx. }
  unfold isNonRetryable in *. cbn [err_error] in E. rewrite Hx'. exact E.
Qed.

End ConstantFailureFacts.

(** X14: when both providers answer every allowed attempt with HTTP 429, each is
    asked [maxRetries + 1] times with the backoff pauses in between, and
    [calculateRoute] throws the busy message: a rate limit is never replaced
    by the straight-line estimate, whatever [useFallback] says. *)
Theorem calculateRoute_rate_limited
    (net : RouteCalculator.Network) (waypoints : list RouteCalculator.Waypoint)
    (options : RouteCalculator.Options)
    (Hvalid : RouteCalculator.valid (RouteCalculator.validateWaypoints waypoints) = true)
    (Honline : RouteCalculator.isOnline net = true)
    (Hbusy : forall s k, In s RouteCalculator.ROUTING_SERVERS ->
        k <= RouteCalculator.maxRetries options ->
        RouteCalculator.routeFetch net s k = RouteCalculator.HttpStatus 429) :
  let wps := map RouteCalculator.asLocation waypoints in
  let maxR := RouteCalculator.maxRetries options in
  RouteCalculator.calculateRoute net waypoints options =
    (retrySchedule primaryServer wps maxR 0 (S maxR)
       ++ retrySchedule secondaryServer wps maxR 0 (S maxR),
     Thrown "Route calculation service is busy. Please wait a moment and try again.").
Proof.
  cbn zeta. unfold RouteCalculator.calculateRoute. rewrite Hvalid, Honline. cbn [negb].
  rewrite (serverLoop_constant_failure net _ _ "Rate limited")
    by (intros s k Hs Hk; rewrite (Hbusy s k Hs Hk); reflexivity).
  rewrite bind_returned.
  rewrite recorded_no_network by reflexivity.
  rewrite recorded_not_recognised by reflexivity.
  unfold recordedErrors at 1. cbn [seq map app existsb RouteCalculator.err_error].
  change (String.eqb "Rate limited" "Rate limited") with true. cbn [orb].
  cbn [throw trace completion fst snd]. rewrite app_nil_r. reflexivity.
Qed.

(** Default options, both providers rate limiting: the schedule is request,
    one second, request, two seconds, request, for each provider. *)
Lemma calculateRoute_rate_limited_witness :
  RouteCalculator.isOnline (statusNet 429) = true /\
  RouteCalculator.calculateRoute (statusNet 429) twoWaypoints RouteCalculator.defaultOptions =
    (let wps := map RouteCalculator.asLocation twoWaypoints in
     [ RouteRequest primaryServer wps; Pause 1000;
       RouteRequest primaryServer wps; Pause 2000;
       RouteRequest primaryServer wps;
       RouteRequest secondaryServer wps; Pause 1000;
       RouteRequest secondaryServer wps; Pause 2000;
       RouteRequest secondaryServer wps ],
     Thrown "Route calculation service is busy. Please wait a moment and try again.").
Proof.
  split; [reflexivity |].
  apply (calculateRoute_rate_limited (statusNet 429) twoWaypoints
           RouteCalculator.defaultOptions twoWaypoints_valid eq_refl).
  intros s k _ _. reflexivity.
Defined.

(** X15: when both providers answer every allowed attempt with an HTTP status of
    500 or more, each is asked [maxRetries + 1] times with the backoff pauses
    in between; [calculateRoute] then returns the straight-line estimate
    after one toast if [useFallback] is set and throws the generic message
    otherwise.  The connectivity is not probed. *)
Theorem calculateRoute_server_errors
    (net : RouteCalculator.Network) (waypoints : list RouteCalculator.Waypoint)
    (options : RouteCalculator.Options)
    (Hvalid : RouteCalculator.valid (RouteCalculator.validateWaypoints waypoints) = true)
    (Honline : RouteCalculator.isOnline net = true)
    (Hdown : forall s k, In s RouteCalculator.ROUTING_SERVERS ->
        k <= RouteCalculator.maxRetries options ->
        exists status, 500 <= status /\
                       RouteCalculator.routeFetch net s k = RouteCalculator.HttpStatus status) :
  let wps := map RouteCalculator.asLocation waypoints in
  let maxR := RouteCalculator.maxRetries options in
  RouteCalculator.calculateRoute net waypoints options =
    (retrySchedule primaryServer wps maxR 0 (S maxR)
       ++ retrySchedule secondaryServer wps maxR 0 (S maxR)
       ++ (if RouteCalculator.useFallback options
           then [Toast "Route calculation failed: Using estimated route" "warning"]
           else []),
     if RouteCalculator.useFallback options
     then Returned (RouteCalculator.calculateFallbackRoute wps)
     else Thrown "Unable to calculate route. Please verify your destinations and try again.").
Proof.
  cbn zeta. unfold RouteCalculator.calculateRoute. rewrite Hvalid, Honline. cbn [negb].
  rewrite (serverLoop_constant_failure net _ _ "Server error").
  2:{ intros s k Hs Hk. destruct (Hdown s k Hs Hk) as (status & Hst & ->).
      cbn [RouteCalculator.classify].
      destruct (Nat.eqb_spec status 429) as [-> | _].
      - exfalso. apply Nat.leb_le in Hst. discriminate Hst.
      - apply Nat.leb_le in Hst. rewrite Hst. reflexivity. }
  rewrite bind_returned.
  rewrite recorded_no_network by reflexivity.
  rewrite recorded_not_recognised by reflexivity.
  rewrite existsb_all_false.
  2:{ intros x Hx.
      assert (Hx' : RouteCalculator.err_error x = "Server error"%string).
      { apply in_app_or in Hx as [Hx | Hx]; eapply recordedErrors_error, Hx. }
      rewrite Hx'. reflexivity. }
  destruct (RouteCalculator.useFallback options);
    cbn [throw bind ret emit RouteCalculator.fallbackWithToast trace completion fst snd app];
    rewrite <- ?app_assoc, ?app_nil_r; reflexivity.
Qed.

(** Default options, both providers answering 503. *)
Lemma calculateRoute_server_errors_witness :
  RouteCalculator.isOnline (statusNet 503) = true /\
  RouteCalculator.calculateRoute (statusNet 503) twoWaypoints RouteCalculator.defaultOptions =
    (let wps := map RouteCalculator.asLocation twoWaypoints in
     [ RouteRequest primaryServer wps; Pause 1000;
       RouteRequest primaryServer wps; Pause 2000;
       RouteRequest primaryServer wps;
       RouteRequest secondaryServer wps; Pause 1000;
       RouteRequest secondaryServer wps; Pause 2000;
       RouteRequest secondaryServer wps;
       Toast "Route calculation failed: Using estimated route" "warning" ],
     Returned (RouteCalculator.calculateFallbackRoute
                 (map RouteCalculator.asLocation twoWaypoints))).
Proof.
  split; [reflexivity |].
  apply (calculateRoute_server_errors (statusNet 503) twoWaypoints
           RouteCalculator.defaultOptions twoWaypoints_valid eq_refl).
  intros s k _ _. exists 503. split; [| reflexivity].
  apply Nat.leb_le. reflexivity.
Defined.

(** ** The two-point estimator on every network *)

Section EstimatorFacts.
Import RouteCalculator LocationResolver.
Local Open Scope string_scope.
Local Open Scope list_scope.

Variable fetchOf : string -> FetchOutcome.
Variables origin target : Location.

Lemma usable_route (outcome : FetchOutcome) :
  ~ lookupFails outcome ->
  exists data route0 more,
    outcome = JsonBody data /\ code data = "Ok" /\ routes data = Some (route0 :: more).
Proof.
  intros H. destruct outcome as [name message | status | data]; try (elim H; exact I).
  cbn [lookupFails] in H.
  destruct (String.eqb_spec (code data) "Ok") as [Hok | Hnok]; [| elim H; auto].
  destruct (routes data) as [[| route0 more] |] eqn:E; [elim H; auto | | elim H; auto].
  exists data, route0, more. auto.
Qed.

Lemma lookupFails_decidable (outcome : FetchOutcome) :
  lookupFails outcome \/ ~ lookupFails outcome.
Proof.
  destruct outcome as [name message | status | data]; try (left; exact I).
  cbn [lookupFails].
  destruct (String.eqb_spec (code data) "Ok") as [Hok | Hnok]; [| left; auto].
  destruct (routes data) as [[| route0 more] |]; [left; auto | | left; auto].
  right. intros [H | [H | H]]; [contradiction | discriminate | discriminate].
Qed.

Lemma estimateLoop_fails (s : string) (servers : list string) :
  lookupFails (fetchOf s) ->
  estimateLoop fetchOf origin target (s :: servers) =
    (DrivingTimeRequest s origin target
       :: trace (estimateLoop fetchOf origin target servers),
     completion (estimateLoop fetchOf origin target servers)).
Proof.
  intros H. rewrite estimateLoop_cons. cbn zeta.
  destruct (fetchOf s) as [name message | status | data]; try reflexivity.
  cbn [lookupFails] in H.
  destruct (String.eqb_spec (code data) "Ok") as [Hok | Hnok]; [| reflexivity].
  destruct H as [H | [-> | ->]]; [contradiction | reflexivity | reflexivity].
Qed.

Lemma estimateLoop_usable (s : string) (servers : list string) :
  ~ lookupFails (fetchOf s) ->
  exists info,
    isEstimate info = false /\
    estimateLoop fetchOf origin target (s :: servers) =
      ([DrivingTimeRequest s origin target], Returned (Some info)).
Proof.
  intros H. apply usable_route in H as (data & route0 & more & Hf & Hcode & Hroutes).
  rewrite estimateLoop_cons. cbn zeta. rewrite Hf, Hcode, Hroutes.
  eexists. split; [| reflexivity]. reflexivity.
Qed.

End EstimatorFacts.

(** X18: [estimateDrivingTime] asks the servers in their order, each at most
    once and without any pause, and stops at the first usable route: the
    secondary server is asked exactly when the primary delivers none.  The
    object returned is marked [isEstimate] exactly when no server delivered
    a usable route. *)
Theorem estimateDrivingTime_first_usable
    (fetchOf : string -> RouteCalculator.FetchOutcome)
    (fromLat fromLng toLat toLng : R) :
  let origin := {| lat := fromLat; lng := fromLng |} in
  let target := {| lat := toLat; lng := toLng |} in
  let run := LocationResolver.estimateDrivingTime fetchOf fromLat fromLng toLat toLng in
  (lookupFails (fetchOf primaryServer) ->
   trace run = [DrivingTimeRequest primaryServer origin target;
                DrivingTimeRequest secondaryServer origin target]) /\
  (~ lookupFails (fetchOf primaryServer) ->
   trace run = [DrivingTimeRequest primaryServer origin target]) /\
  (forall info, completion run = Returned info ->
     (LocationResolver.isEstimate info = true <->
      forall s, In s RouteCalculator.ROUTING_SERVERS -> lookupFails (fetchOf s))).
Proof.
  cbn zeta. unfold LocationResolver.estimateDrivingTime, RouteCalculator.ROUTING_SERVERS.
  change "https://router.project-osrm.org"%string with primaryServer.
  change "https://routing.openstreetmap.de/routed-car"%string with secondaryServer.
  set (origin := {| lat := fromLat; lng := fromLng |}).
  set (target := {| lat := toLat; lng := toLng |}).
  assert (Hall : forall P : string -> Prop,
            P primaryServer -> P secondaryServer ->
            forall s, In s [primaryServer; secondaryServer] -> P s).
  { intros P Hp Hs s [<- | [<- | []]]; assumption. }
  split; [| split].
  - intros Hp. rewrite (estimateLoop_fails fetchOf origin target _ _ Hp).
    destruct (estimateLoop_returns fetchOf origin target [secondaryServer]) as [found Hf].
    assert (Ht : trace (LocationResolver.estimateLoop fetchOf origin target [secondaryServer])
                 = [DrivingTimeRequest secondaryServer origin target]).
    { rewrite estimateLoop_cons. cbn zeta. cbn [trace fst]. f_equal.
      destruct (fetchOf secondaryServer) as [? ? | ? | data]; try reflexivity.
      destruct (String.eqb _ "Ok"); [| reflexivity].
      destruct (RouteCalculator.routes data) as [[| ? ?] |]; reflexivity. }
    rewrite Hf, Ht, bind_returned. cbn [trace fst].
    destruct found; reflexivity.
  - intros Hp.
    destruct (estimateLoop_usable fetchOf origin target primaryServer [secondaryServer] Hp)
      as (info & _ & ->).
    reflexivity.
  - intros info.
    destruct (lookupFails_decidable (fetchOf primaryServer)) as [Hp | Hp].
    + destruct (lookupFails_decidable (fetchOf secondaryServer)) as [Hs | Hs].
      * rewrite (estimateLoop_fails fetchOf origin target _ _ Hp).
        rewrite (estimateLoop_fails fetchOf origin target _ _ Hs).
        cbn [LocationResolver.estimateLoop ret trace completion fst snd].
        rewrite bind_returned. cbn. intros H. injection H as <-.
        split; [intros _; apply Hall; assumption | reflexivity].
      * rewrite (estimateLoop_fails fetchOf origin target _ _ Hp).
        destruct (estimateLoop_usable fetchOf origin target secondaryServer [] Hs)
          as (i & Hi & ->).
        cbn [trace completion fst snd].
        rewrite bind_returned. cbn. intros H. injection H as <-. rewrite Hi.
        split; [discriminate |]. intros Hfail. elim Hs. apply Hfail. right. left. reflexivity.
    + destruct (estimateLoop_usable fetchOf origin target primaryServer [secondaryServer] Hp)
        as (i & Hi & ->).
      rewrite bind_returned. cbn. intros H. injection H as <-. rewrite Hi.
      split; [discriminate |]. intros Hfail. elim Hp. apply Hfail. left. reflexivity.
Qed.

(** Every request is rejected: both servers are asked, once each. *)
Lemma estimateDrivingTime_first_usable_witness :
  lookupFails (RouteCalculator.routeFetch unreachable primaryServer 0) /\
  trace (LocationResolver.estimateDrivingTime
           (fun s => RouteCalculator.routeFetch unreachable s 0) 0 10 0 11) =
    [ DrivingTimeRequest primaryServer {| lat := 0; lng := 10 |} {| lat := 0; lng := 11 |};
      DrivingTimeRequest secondaryServer {| lat := 0; lng := 10 |} {| lat := 0; lng := 11 |} ].
Proof.
  assert (H : lookupFails (RouteCalculator.routeFetch unreachable primaryServer 0))
    by exact I.
  split; [exact H |].
  apply (proj1 (estimateDrivingTime_first_usable
                  (fun s => RouteCalculator.routeFetch unreachable s 0)
                  0%R 10%R 0%R 11%R) H).
Defined.

(** ** Ranking candidates *)

(** Around the reference point [(1, 1)]: the bounding box reaches half a
    degree in every direction and the two candidates come back nearest
    first. *)
Lemma searchLocation_ranks_by_distance_witness :
  (1 <> 0)%R /\
  exists ranked,
    LocationResolver.searchLocation demoNet "pharmacy" (Some 1%R) (Some 1%R) =
      ([SearchRequest "pharmacy" (Some (1 - 0.5, 1 - 0.5, 1 + 0.5, 1 + 0.5)%R)],
       Returned ranked) /\
    Permutation ranked
      (map (withDistance 1 1) [candidate "Here" 1 1; candidate "There" 1 2]) /\
    ascending distanceKey ranked.
Proof.
  assert (H : (1 <> 0)%R) by lra.
  split; [exact H |].
  apply (searchLocation_ranks_by_distance demoNet "pharmacy" 1%R 1%R
           [candidate "Here" 1 1; candidate "There" 1 2] H H eq_refl).
Defined.

(** The untimed candidate, although nearer, ends up behind the timed one. *)
Lemma arraySort_byDrivingTime_ordered_witness :
  Forall (fun e => LocationResolver.drivingTime e <> LocationResolver.Absent)
         [untimedNear; timedFar] /\
  StronglySorted drivingOrder
    (LocationResolver.arraySort LocationResolver.byDrivingTime [untimedNear; timedFar]).
Proof.
  assert (H : Forall (fun e => LocationResolver.drivingTime e <> LocationResolver.Absent)
                     [untimedNear; timedFar]).
  { repeat constructor; discriminate. }
  split; [exact H |].
  apply (arraySort_byDrivingTime_ordered [untimedNear; timedFar] H).
Defined.

Section TopThreeFacts.
Import RouteCalculator LocationResolver.
Local Open Scope string_scope.
Local Open Scope list_scope.







End TopThreeFacts.



(** ** The destination list *)

Section SessionFacts.
Import Session.
Local Open Scope list_scope.

Lemma updateFirst_map {A B : Type} (g : A -> B) (p : A -> bool) (f : A -> A) (l : list A) :
  (forall x, g (f x) = g x) -> map g (updateFirst p f l) = map g l.
Proof.
  intros Hg. induction l as [| x l IH]; [reflexivity |].
  simpl. destruct (p x); simpl; [rewrite Hg | rewrite IH]; reflexivity.
Qed.

Lemma updateFirst_bounds (p : Stop -> bool) (f : Stop -> Stop) (n : nat) (l : list Stop) :
  (forall x, stop_id (f x) = stop_id x) ->
  Forall (fun d => 1 <= stop_id d <= n) l ->
  Forall (fun d => 1 <= stop_id d <= n) (updateFirst p f l).
Proof.
  intros Hf H. induction H as [| x l Hx Hl IH]; [constructor |].
  simpl. destruct (p x); constructor; auto. rewrite Hf. exact Hx.
Qed.

(** With pairwise distinct identifiers, mutating the object found by its
    identifier is mutating every object that carries it. *)
Lemma updateFirst_by_id (i : nat) (f : Stop -> Stop) (l : list Stop) :
  NoDup (map stop_id l) ->
  updateFirst (fun d => Nat.eqb (stop_id d) i) f l
  = map (fun d => if Nat.eqb (stop_id d) i then f d else d) l.
Proof.
  induction l as [| x l IH]; [reflexivity |].
  simpl. intros Hnd. inversion Hnd as [| ? ? Hnotin Hnd']; subst.
  destruct (Nat.eqb (stop_id x) i) eqn:Hx.
  - f_equal. apply Nat.eqb_eq in Hx. subst i.
    clear IH Hnd Hnd'. induction l as [| y l IHl]; [reflexivity |].
    simpl in *. destruct (Nat.eqb (stop_id y) (stop_id x)) eqn:Hy.
    + apply Nat.eqb_eq in Hy. exfalso. apply Hnotin. left. exact Hy.
    + f_equal. apply IHl. intros H. apply Hnotin. right. exact H.
  - f_equal. apply IH. exact Hnd'.
Qed.

Lemma toggled_involutive (d : Stop) : toggled (toggled d) = d.
Proof. destruct d. unfold toggled. simpl. rewrite negb_involutive. reflexivity. Qed.

Lemma updateFirst_twice (p : Stop -> bool) (l : list Stop) :
  (forall x, p (toggled x) = p x) ->
  updateFirst p toggled (updateFirst p toggled l) = l.
Proof.
  intros Hp. induction l as [| x l IH]; [reflexivity |].
  simpl. destruct (p x) eqn:Hx; simpl.
  - rewrite Hp, Hx, toggled_involutive. reflexivity.
  - rewrite Hx, IH. reflexivity.
Qed.

Lemma find_updateFirst (p : Stop -> bool) (f : Stop -> Stop) (l : list Stop) :
  (forall x, p (f x) = p x) ->
  find p (updateFirst p f l) = option_map f (find p l).
Proof.
  intros Hp. induction l as [| x l IH]; [reflexivity |].
  simpl. destruct (p x) eqn:Hx; simpl.
  - rewrite Hp, Hx. reflexivity.
  - rewrite Hx. exact IH.
Qed.

Lemma find_by_id_none (i : nat) (l : list Stop) :
  find (fun d => Nat.eqb (stop_id d) i) l = None <-> ~ In i (map stop_id l).
Proof.
  induction l as [| x l IH]; simpl.
  - split; auto.
  - destruct (Nat.eqb (stop_id x) i) eqn:Hx.
    + apply Nat.eqb_eq in Hx. split; [discriminate | intros H; exfalso; apply H; auto].
    + apply Nat.eqb_neq in Hx. rewrite IH. split.
      * intros H [H1 | H1]; [exact (Hx H1) | exact (H H1)].
      * intros H H1. apply H. right. exact H1.
Qed.

(** Filtering the destinations keeps their identifiers distinct. *)
Lemma filter_ids_distinct (keep : Stop -> bool) (stops : list Stop) :
  NoDup (map stop_id stops) -> NoDup (map stop_id (filter keep stops)).
Proof.
  induction stops as [| d stops IH]; simpl; intros Hnd; [exact Hnd |].
  apply NoDup_cons_iff in Hnd as [Hfresh Hnd].
  destruct (keep d); [| exact (IH Hnd)].
  simpl. apply NoDup_cons_iff. split; [| exact (IH Hnd)].
  rewrite in_map_iff in *. intros (d' & Hid & Hin).
  apply Hfresh. exists d'. split; [exact Hid |].
  apply filter_In in Hin. exact (proj1 Hin).
Qed.

Lemma withDestinations_same (st : State) : withDestinations st (destinations st) = st.
Proof. destruct st. reflexivity. Qed.

Lemma withDestinations_twice (st : State) (l1 l2 : list Stop) :
  withDestinations (withDestinations st l1) l2 = withDestinations st l2.
Proof. reflexivity. Qed.

(** *** Splicing *)

Lemma findIndex_nth_error {A : Type} (p : A -> bool) (l : list A) (i : nat) (x : A) :
  nth_error l i = Some x -> p x = true ->
  (forall j y, j < i -> nth_error l j = Some y -> p y = false) ->
  findIndex p l = Some i.
Proof.
  revert i. induction l as [| a l IH]; intros i Hi Hx Hbefore.
  - destruct i; discriminate.
  - destruct i as [| i]; simpl in *.
    + inversion Hi; subst. rewrite Hx. reflexivity.
    + rewrite (Hbefore 0 a); [| lia | reflexivity].
      rewrite (IH i Hi Hx); [reflexivity |].
      intros j y Hj Hy. apply (Hbefore (S j) y); [lia | exact Hy].
Qed.

Lemma findIndex_by_id (l : list Stop) (i : nat) (x : Stop) :
  NoDup (map stop_id l) -> nth_error l i = Some x ->
  findIndex (fun d => Nat.eqb (stop_id d) (stop_id x)) l = Some i.
Proof.
  intros Hnd Hi. apply (findIndex_nth_error _ l i x Hi); [apply Nat.eqb_refl |].
  intros j y Hj Hy. apply Nat.eqb_neq. intros Heq.
  assert (Hmi : nth_error (map stop_id l) i = Some (stop_id x))
    by (rewrite nth_error_map, Hi; reflexivity).
  assert (Hmj : nth_error (map stop_id l) j = Some (stop_id x))
    by (rewrite nth_error_map, Hy; simpl; f_equal; exact Heq).
  assert (Hlt : i < length (map stop_id l))
    by (apply nth_error_Some; rewrite Hmi; discriminate).
  pose proof (proj1 (NoDup_nth_error (map stop_id l)) Hnd i j Hlt) as Hinj.
  rewrite Hmi, Hmj in Hinj. specialize (Hinj eq_refl). lia.
Qed.

Lemma nth_error_spliceOut {A : Type} (i k : nat) (l : list A) :
  nth_error (spliceOut i l) k = if Nat.ltb k i then nth_error l k else nth_error l (S k).
Proof.
  revert i k. induction l as [| a l IH]; intros i k.
  - assert (H : forall n, nth_error (@nil A) n = None) by (intros []; reflexivity).
    replace (spliceOut i (@nil A)) with (@nil A) by (destruct i; reflexivity).
    rewrite !H. destruct (Nat.ltb k i); reflexivity.
  - destruct i as [| i]; simpl; [reflexivity |].
    destruct k as [| k]; [reflexivity |].
    simpl. rewrite IH.
    change (Nat.ltb (S k) (S i)) with (Nat.ltb k i). reflexivity.
Qed.

Lemma filter_spliceOut {A : Type} (p : A -> bool) (i : nat) (l : list A) (x : A) :
  nth_error l i = Some x -> p x = false -> filter p (spliceOut i l) = filter p l.
Proof.
  revert i. induction l as [| a l IH]; intros i Hi Hx.
  - destruct i; discriminate.
  - destruct i as [| i]; simpl in *.
    + inversion Hi; subst. rewrite Hx. reflexivity.
    + rewrite (IH i Hi Hx). reflexivity.
Qed.

Lemma spliceIn_perm {A : Type} (k : nat) (x : A) (l : list A) :
  Permutation (spliceIn k x l) (x :: l).
Proof.
  unfold spliceIn. rewrite <- Permutation_middle.
  rewrite firstn_skipn. reflexivity.
Qed.

Lemma filter_spliceIn {A : Type} (p : A -> bool) (k : nat) (x : A) (l : list A) :
  p x = false -> filter p (spliceIn k x l) = filter p l.
Proof.
  intros Hx. unfold spliceIn. rewrite filter_app. simpl. rewrite Hx.
  rewrite <- filter_app, firstn_skipn. reflexivity.
Qed.

Lemma nth_error_spliceIn {A : Type} (k j : nat) (x : A) (l : list A) :
  k <= length l ->
  nth_error (spliceIn k x l) j =
    if Nat.ltb j k then nth_error l j
    else if Nat.eqb j k then Some x
    else nth_error l (j - 1).
Proof.
  intros Hk. unfold spliceIn.
  assert (Hlen : length (firstn k l) = k) by (rewrite length_firstn; lia).
  destruct (Nat.ltb_spec j k) as [Hlt | Hge].
  - rewrite nth_error_app1 by lia. rewrite nth_error_firstn.
    destruct (Nat.ltb_spec j k); [reflexivity | lia].
  - rewrite nth_error_app2 by lia. rewrite Hlen.
    destruct (Nat.eqb_spec j k) as [-> | Hne].
    + rewrite Nat.sub_diag. reflexivity.
    + destruct (j - k) as [| m] eqn:Hm; [lia |].
      simpl. rewrite nth_error_skipn. f_equal. lia.
Qed.

(** Whatever the two identifiers are, a drop rearranges the list. *)
Lemma handleDrop_perm (draggedId targetId : nat) (st st' : State) :
  handleDrop draggedId targetId st = Some st' ->
  Permutation (destinations st') (destinations st) /\
  destinationCounter st' = destinationCounter st.
Proof.
  unfold handleDrop. destruct (Nat.eqb draggedId targetId).
  - intros [= <-]. split; reflexivity.
  - destruct (nth_error _ _) as [removed |] eqn:Hnth; [| discriminate].
    intros [= <-]. simpl. split; [| reflexivity].
    rewrite spliceIn_perm. apply spliceOut_perm. exact Hnth.
Qed.

End SessionFacts.

(** ** The optimize command *)

Section OptimizeFacts.
Import Session RouteCalculator.
Local Open Scope string_scope.
Local Open Scope list_scope.

Variable trim : string -> string.
Variable typeErrorMessage : string.

Lemma filledIn_refl (d : Stop) : filledIn (hasAddress trim) d d.
Proof. repeat split; auto. Qed.

Lemma Forall2_filledIn_refl (l : list Stop) : Forall2 (filledIn (hasAddress trim)) l l.
Proof. induction l; constructor; auto using filledIn_refl. Qed.

Lemma filledIn_ids (l l' : list Stop) :
  Forall2 (filledIn (hasAddress trim)) l l' -> map stop_id l' = map stop_id l.
Proof.
  induction 1 as [| d d' l l' Hd _ IH]; [reflexivity |].
  simpl. destruct Hd as (-> & _). rewrite IH. reflexivity.
Qed.

(** The lookup loop changes nothing but missing locations. *)
Lemma geocodeLoop_frame (world : World) (start : option Location) (dests : list Stop) :
  forall k, Forall2 (filledIn (hasAddress trim)) dests (snd (fst (geocodeLoop trim typeErrorMessage world start k dests))).
Proof.
  induction dests as [| dest rest IH]; intros k; [constructor |].
  cbn [Session.geocodeLoop].
  destruct (hasAddress trim dest) eqn:Hvalid; cbn [negb].
  - destruct (stop_location dest) as [l |] eqn:Hloc.
    + specialize (IH (S k)).
      destruct (geocodeLoop trim typeErrorMessage world start (S k) rest) as [[t rest'] failure].
      simpl in *. constructor; [apply filledIn_refl | exact IH].
    + destruct start as [s |]; [| apply Forall2_filledIn_refl].
      destruct (LocationResolver.searchLocationWithTimes _ _ _ _) as [t [[| nearest more] | e]];
        try apply Forall2_filledIn_refl.
      specialize (IH (S k)).
      destruct (geocodeLoop trim typeErrorMessage world (Some s) (S k) rest) as [[t' rest'] failure].
      simpl in *. constructor; [| exact IH].
      repeat split; simpl; auto. right. rewrite Hloc. repeat split; auto. discriminate.
  - specialize (IH k).
    destruct (geocodeLoop trim typeErrorMessage world start k rest) as [[t rest'] failure].
    simpl in *. constructor; [apply filledIn_refl | exact IH].
Qed.

(** Without a start location the loop sends nothing and changes nothing. *)
Lemma geocodeLoop_no_start (world : World) (dests : list Stop) :
  forall k, exists failure, geocodeLoop trim typeErrorMessage world None k dests = ([], dests, failure).
Proof.
  induction dests as [| dest rest IH]; intros k; cbn [Session.geocodeLoop].
  - eauto.
  - destruct (hasAddress trim dest); cbn [negb].
    + destruct (stop_location dest); [| eauto].
      destruct (IH (S k)) as [f ->]. eauto.
    + destruct (IH k) as [f ->]. eauto.
Qed.


Lemma settle_state {A : Type} (st : State) (m : M A) :
  snd (fst (settle st m)) = withOptimizing st false.
Proof. destruct m as [t [a | e]]; reflexivity. Qed.

(** A waypoint array that starts with [null] is rejected before anything is
    sent. *)
Lemma calculateRoute_null_start (net : Network) (rest : list Waypoint) (options : Options) :
  rest <> [] ->
  exists message, calculateRoute net (None :: rest) options = ([], Thrown message).
Proof.
  intros Hrest. unfold calculateRoute, validateWaypoints.
  destruct rest as [| w rest]; [contradiction |].
  change (Nat.ltb (length (None :: w :: rest)) 2) with false.
  cbn [validateFrom valid negb error]. unfold throw. eauto.
Qed.

(** Waypoints that [calculateRoute] accepts are all present: once the
    first route calculation of [planRoute] has returned, the start and every
    location are there, and the last branch of [planRoute] is not taken. *)
Lemma planRoute_reads_no_null (world : World) (start : option Location) (rts : bool)
    (valid : list Stop) (t : list Event) (originalRoute : RouteResult) :
  calculateRoute (originalNet world)
    ([waypointOf start]
     ++ map (fun d => waypointOf (stop_location d)) valid
     ++ (if rts then [waypointOf start] else []))
    defaultOptions = (t, Returned originalRoute) ->
  start <> None /\ resolveAll valid <> None.
Proof.
  unfold calculateRoute.
  destruct (RouteCalculator.valid (validateWaypoints _)) eqn:Hvalid; [| discriminate].
  intros _. apply validateWaypoints_valid_iff in Hvalid as [_ Hall].
  inversion Hall as [| w ws Hstart Hrest]; subst.
  split; [destruct start; [discriminate | contradiction] |].
  apply Forall_app in Hrest as [Hstops _]. clear - Hstops.
  induction valid as [| d rest IH]; simpl in *; [discriminate |].
  inversion Hstops as [| w ws Hd Hrest]; subst.
  unfold resolved. destruct (stop_location d); [| contradiction].
  destruct (resolveAll rest); [discriminate | exact (IH Hrest)].
Qed.


End OptimizeFacts.

(** ** Invariants of the session *)

Section SessionInvariants.
Import Session.
Local Open Scope list_scope.

Variable trim : string -> string.
Variable typeErrorMessage : string.

(** What one run of [optimizeRoute] can change in the session. *)
Lemma optimizeRoute_changes (world : World) (st : State) :
  let st' := snd (fst (optimizeRoute trim typeErrorMessage world st)) in
  Forall2 (filledIn (hasAddress trim)) (destinations st) (destinations st') /\
  startLocation st' = startLocation st /\
  returnToStart st' = returnToStart st /\
  destinationCounter st' = destinationCounter st /\
  isOptimizing st' = isOptimizing st.
Proof.
  cbn zeta. unfold optimizeRoute.
  destruct (isOptimizing st) eqn:Hbusy.
  - simpl. rewrite Hbusy. repeat split; auto. apply Forall2_filledIn_refl.
  - destruct (Nat.eqb _ 0).
    + rewrite settle_state. simpl. repeat split; auto. apply Forall2_filledIn_refl.
    + pose proof (geocodeLoop_frame trim typeErrorMessage world (startLocation st)
                    (destinations st) 0) as Hframe.
      destruct (geocodeLoop trim typeErrorMessage world (startLocation st) 0 (destinations st))
        as [[t1 destinations'] failure].
      simpl in Hframe.
      destruct failure as [message |].
      * rewrite settle_state. simpl. repeat split; auto.
      * destruct (planRoute _ _ _ _ _) as [t2 c].
        rewrite settle_state. simpl. repeat split; auto.
Qed.

Lemma reachable_identified (st : State) :
  reachable trim typeErrorMessage st -> identified st.
Proof.
  unfold identified.
  induction 1 as [| st _ [Hnd Hb] | i st _ [Hnd Hb] | i st _ [Hnd Hb]
                  | i name place st _ [Hnd Hb] | i value st _ [Hnd Hb]
                  | draggedId targetId st st' _ [Hnd Hb] Hdrop
                  | place st _ [Hnd Hb] | checked st _ [Hnd Hb] | world st _ [Hnd Hb]].
  - split; constructor.
  - simpl. split.
    + rewrite map_app. simpl.
      apply (Permutation_NoDup (Permutation_cons_append _ _)).
      constructor; [| exact Hnd].
      intros Hin. apply in_map_iff in Hin as (d & Hd & Hin).
      rewrite Forall_forall in Hb. specialize (Hb d Hin). lia.
    + apply Forall_app. split.
      * eapply Forall_impl; [| exact Hb]. simpl. intros d Hd. lia.
      * constructor; [simpl; lia | constructor].
  - simpl. split.
    + apply filter_ids_distinct. exact Hnd.
    + rewrite Forall_forall in *. intros d Hd. apply filter_In in Hd. apply Hb. tauto.
  - unfold toggleDestinationLock. destruct (find _ _); simpl; [| auto].
    split.
    + rewrite updateFirst_map by reflexivity. exact Hnd.
    + apply updateFirst_bounds; [reflexivity | exact Hb].
  - simpl. split.
    + rewrite updateFirst_map by reflexivity. exact Hnd.
    + apply updateFirst_bounds; [reflexivity | exact Hb].
  - simpl. split.
    + rewrite updateFirst_map; [exact Hnd |].
      intros d. destruct (negb _); reflexivity.
    + apply updateFirst_bounds; [| exact Hb].
      intros d. destruct (negb _); reflexivity.
  - apply handleDrop_perm in Hdrop as [Hperm Hcount]. rewrite Hcount. split.
    + apply (Permutation_NoDup (Permutation_map stop_id (Permutation_sym Hperm))).
      exact Hnd.
    + rewrite Forall_forall in *. intros d Hd. apply Hb.
      apply (Permutation_in _ Hperm). exact Hd.
  - simpl. auto.
  - simpl. auto.
  - destruct (optimizeRoute_changes world st) as (Hframe & _ & _ & Hcount & _).
    cbn zeta in *. rewrite Hcount.
    pose proof (filledIn_ids trim _ _ Hframe) as Hids. split.
    + rewrite Hids. exact Hnd.
    + clear Hids Hnd Hcount. revert Hb.
      induction Hframe as [| d d' l l' Hd _ IH]; [constructor |].
      intros Hb. inversion Hb as [| ? ? H1 H2]; subst.
      constructor; [| auto]. destruct Hd as (-> & _). exact H1.
Qed.

End SessionInvariants.

(** X22: in every session state that the handlers can produce, the
    destinations carry pairwise distinct identifiers, all of them handed out
    by the counter: no operation on the list, and no optimization run,
    duplicates or changes an identifier. *)
Theorem session_identifiers_stay_distinct
    (trim : string -> string) (typeErrorMessage : string) (st : Session.State)
    (Hreach : reachable trim typeErrorMessage st) :
  NoDup (map Session.stop_id (Session.destinations st)) /\
  Forall (fun d => 1 <= Session.stop_id d <= Session.destinationCounter st)
         (Session.destinations st).
Proof. exact (reachable_identified trim typeErrorMessage st Hreach). Qed.

(** Add two destinations, drop the second on the first, remove one. *)
Lemma session_identifiers_stay_distinct_witness :
  let st := Session.removeDestination 1
              (Session.withDestinations
                 (Session.addDestination (Session.addDestination Session.initialState))
                 [ stopAt 2 "" None false; stopAt 1 "" None false ]) in
  reachable (fun s => s) "TypeError" st /\
  NoDup (map Session.stop_id (Session.destinations st)) /\
  Forall (fun d => 1 <= Session.stop_id d <= Session.destinationCounter st)
         (Session.destinations st).
Proof.
  cbn zeta.
  assert (Hreach : reachable (fun s => s) "TypeError"
                     (Session.removeDestination 1
                        (Session.withDestinations
                           (Session.addDestination
                              (Session.addDestination Session.initialState))
                           [ stopAt 2 "" None false; stopAt 1 "" None false ]))).
  { apply reach_remove.
    apply (reach_drop _ _ 2 1
             (Session.addDestination (Session.addDestination Session.initialState)));
      [| reflexivity].
    apply reach_add, reach_add, reach_initial. }
  split; [exact Hreach |].
  exact (session_identifiers_stay_distinct _ _ _ Hreach).
Defined.

(** X23: the destination that [addDestination] appends carries an
    identifier that no destination of the list has, even after earlier
    removals, and removing it again gives back the list as it was. *)
Theorem addDestination_is_fresh_and_undone_by_remove
    (trim : string -> string) (typeErrorMessage : string) (st : Session.State)
    (Hreach : reachable trim typeErrorMessage st) :
  let st1 := Session.addDestination st in
  let new := Session.destinationCounter st1 in
  ~ In new (map Session.stop_id (Session.destinations st)) /\
  Session.destinations st1 = Session.destinations st ++ [stopAt new "" None false] /\
  Session.destinations (Session.removeDestination new st1) = Session.destinations st.
Proof.
  destruct (reachable_identified _ _ _ Hreach) as [_ Hb].
  cbn zeta. simpl.
  assert (Hfresh : ~ In (S (Session.destinationCounter st))
                     (map Session.stop_id (Session.destinations st))).
  { intros Hin. apply in_map_iff in Hin as (d & Hd & Hin).
    rewrite Forall_forall in Hb. specialize (Hb d Hin). lia. }
  split; [exact Hfresh | split; [reflexivity |]].
  rewrite filter_app. simpl. rewrite Nat.eqb_refl. simpl. rewrite app_nil_r.
  apply forallb_filter_id. apply forallb_forall. intros d Hd.
  apply negb_true_iff, Nat.eqb_neq. intros Heq. apply Hfresh.
  rewrite <- Heq. apply in_map. exact Hd.
Qed.

Lemma addDestination_is_fresh_and_undone_by_remove_witness :
  let st := Session.removeDestination 2
              (Session.addDestination (Session.addDestination Session.initialState)) in
  reachable (fun s => s) "TypeError" st /\
  ~ In 3 (map Session.stop_id (Session.destinations st)) /\
  Session.destinations (Session.addDestination st)
    = Session.destinations st ++ [stopAt 3 "" None false] /\
  Session.destinations (Session.removeDestination 3 (Session.addDestination st))
    = Session.destinations st.
Proof.
  cbn zeta.
  assert (Hreach : reachable (fun s => s) "TypeError"
                     (Session.removeDestination 2
                        (Session.addDestination
                           (Session.addDestination Session.initialState))))
    by (apply reach_remove, reach_add, reach_add, reach_initial).
  split; [exact Hreach |].
  exact (addDestination_is_fresh_and_undone_by_remove _ _ _ Hreach).
Defined.

(** X24: with distinct identifiers, [toggleDestinationLock] flips the lock
    of the destination with the given identifier and touches nothing else;
    it stays silent exactly when no destination carries the identifier; and
    toggling twice restores the session. *)
Theorem toggleDestinationLock_flips_one_lock (i : nat) (st : Session.State)
    (Hids : NoDup (map Session.stop_id (Session.destinations st))) :
  Session.destinations (snd (Session.toggleDestinationLock i st))
    = map (fun d => if Nat.eqb (Session.stop_id d) i then Session.toggled d else d)
          (Session.destinations st) /\
  (fst (Session.toggleDestinationLock i st) = []
   <-> ~ In i (map Session.stop_id (Session.destinations st))) /\
  snd (Session.toggleDestinationLock i (snd (Session.toggleDestinationLock i st))) = st.
Proof.
  pose proof (find_by_id_none i (Session.destinations st)) as Hnone.
  unfold Session.toggleDestinationLock at 1 2 4.
  destruct (find _ (Session.destinations st)) as [d |] eqn:Hfind.
  - cbn [fst snd Session.destinations Session.withDestinations].
    split; [apply updateFirst_by_id; exact Hids |].
    split.
    + split; [discriminate |]. intros H. apply Hnone in H. discriminate.
    + unfold Session.toggleDestinationLock.
      cbn [Session.destinations Session.withDestinations].
      rewrite find_updateFirst by reflexivity. rewrite Hfind. cbn [option_map snd].
      rewrite withDestinations_twice, updateFirst_twice by reflexivity.
      apply withDestinations_same.
  - cbn [fst snd]. split.
    + symmetry. rewrite <- (map_id (Session.destinations st)) at 2.
      apply map_ext_in. intros d Hd.
      destruct (Nat.eqb (Session.stop_id d) i) eqn:Hd'; [| reflexivity].
      exfalso. apply (proj1 Hnone eq_refl). apply Nat.eqb_eq in Hd'. subst i.
      apply in_map. exact Hd.
    + split; [split; [intros _; apply Hnone; reflexivity | reflexivity] |].
      unfold Session.toggleDestinationLock. rewrite Hfind. reflexivity.
Qed.

Lemma toggleDestinationLock_flips_one_lock_witness :
  NoDup (map Session.stop_id (Session.destinations threeStops)) /\
  Session.destinations (snd (Session.toggleDestinationLock 2 threeStops))
    = [ stopAt 1 "Harbour" None false; stopAt 2 "Museum" None false;
        stopAt 3 "Station" None false ] /\
  snd (Session.toggleDestinationLock 2 (snd (Session.toggleDestinationLock 2 threeStops)))
    = threeStops.
Proof.
  assert (Hids : NoDup (map Session.stop_id (Session.destinations threeStops))).
  { simpl. repeat constructor; simpl; intuition discriminate. }
  split; [exact Hids |].
  destruct (toggleDestinationLock_flips_one_lock 2 threeStops Hids) as (H1 & _ & H3).
  split; [rewrite H1; reflexivity | exact H3].
Defined.

(** X25: dropping the item of one destination on the item of another moves
    the dragged destination to the index the target had; the target shifts
    by one place towards the index the dragged destination came from, and
    all the other destinations keep their order: the list is rearranged,
    not swapped, and nothing is lost. *)
Theorem handleDrop_moves_dragged_to_target_index
    (st : Session.State) (i j : nat) (dragged target : Session.Stop)
    (Hids : NoDup (map Session.stop_id (Session.destinations st)))
    (Hi : nth_error (Session.destinations st) i = Some dragged)
    (Hj : nth_error (Session.destinations st) j = Some target)
    (Hij : i <> j) :
  exists st',
    Session.handleDrop (Session.stop_id dragged) (Session.stop_id target) st = Some st' /\
    nth_error (Session.destinations st') j = Some dragged /\
    nth_error (Session.destinations st') (if Nat.ltb i j then j - 1 else j + 1)
      = Some target /\
    filter (fun d => negb (Nat.eqb (Session.stop_id d) (Session.stop_id dragged)))
           (Session.destinations st')
    = filter (fun d => negb (Nat.eqb (Session.stop_id d) (Session.stop_id dragged)))
             (Session.destinations st) /\
    Permutation (Session.destinations st') (Session.destinations st).
Proof.
  assert (Hlen_i : i < length (Session.destinations st))
    by (apply nth_error_Some; rewrite Hi; discriminate).
  assert (Hlen_j : j < length (Session.destinations st))
    by (apply nth_error_Some; rewrite Hj; discriminate).
  assert (Hne : Session.stop_id dragged <> Session.stop_id target).
  { intros Heq.
    pose proof (findIndex_by_id _ _ _ Hids Hi) as H1.
    pose proof (findIndex_by_id _ _ _ Hids Hj) as H2.
    rewrite Heq in H1. rewrite H1 in H2. injection H2 as H2. contradiction. }
  pose proof (spliceOut_length i _ _ Hi) as Hrem.
  destruct (Session.handleDrop (Session.stop_id dragged) (Session.stop_id target) st)
    as [st' |] eqn:Hdrop.
  2:{ exfalso. revert Hdrop. unfold Session.handleDrop.
      rewrite (proj2 (Nat.eqb_neq _ _) Hne).
      rewrite (findIndex_by_id _ _ _ Hids Hi). cbn [Session.spliceStart].
      rewrite Nat.min_l by lia. rewrite Hi. discriminate. }
  exists st'. split; [reflexivity |].
  pose proof (handleDrop_perm _ _ _ _ Hdrop) as [Hperm _].
  revert Hdrop. unfold Session.handleDrop.
  rewrite (proj2 (Nat.eqb_neq _ _) Hne).
  rewrite (findIndex_by_id _ _ _ Hids Hi), (findIndex_by_id _ _ _ Hids Hj).
  cbn [Session.spliceStart].
  rewrite (Nat.min_l i) by lia. rewrite Hi.
  rewrite (Nat.min_l j) by lia.
  intros [= <-]. cbn [Session.destinations Session.withDestinations].
  repeat split.
  - rewrite nth_error_spliceIn by lia.
    rewrite Nat.ltb_irrefl, Nat.eqb_refl. reflexivity.
  - rewrite nth_error_spliceIn by lia.
    destruct (Nat.ltb_spec i j) as [Hlt | Hge].
    + rewrite (proj2 (Nat.ltb_lt (j - 1) j)) by lia.
      rewrite nth_error_spliceOut.
      rewrite (proj2 (Nat.ltb_ge (j - 1) i)) by lia.
      replace (S (j - 1)) with j by lia. exact Hj.
    + rewrite (proj2 (Nat.ltb_ge (j + 1) j)) by lia.
      rewrite (proj2 (Nat.eqb_neq (j + 1) j)) by lia.
      rewrite nth_error_spliceOut.
      replace (j + 1 - 1) with j by lia.
      rewrite (proj2 (Nat.ltb_lt j i)) by lia. exact Hj.
  - rewrite filter_spliceIn by (rewrite Nat.eqb_refl; reflexivity).
    apply (filter_spliceOut _ i _ dragged Hi). rewrite Nat.eqb_refl. reflexivity.
  - exact Hperm.
Qed.

(** The first of three destinations is dropped on the last one. *)
Lemma handleDrop_moves_dragged_to_target_index_witness :
  exists st',
    Session.handleDrop 1 3 threeStops = Some st' /\
    nth_error (Session.destinations st') 2 = Some (stopAt 1 "Harbour" None false) /\
    nth_error (Session.destinations st') 1 = Some (stopAt 3 "Station" None false).
Proof.
  assert (Hids : NoDup (map Session.stop_id (Session.destinations threeStops))).
  { simpl. repeat constructor; simpl; intuition discriminate. }
  destruct (handleDrop_moves_dragged_to_target_index threeStops 0 2
              (stopAt 1 "Harbour" None false) (stopAt 3 "Station" None false)
              Hids eq_refl eq_refl (Nat.neq_0_succ 1))
    as (st' & H1 & H2 & H3 & _).
  exists st'. split; [exact H1 | split; [exact H2 | exact H3]].
Defined.

(** X26: a run of [optimizeRoute] that no other handler interleaves with
    never adds, removes, reorders, renames or relocks a destination and
    never replaces a location that is already there: all it does to the list
    is give a location to destinations that have an address and none yet.
    Start, return flag and counter are left alone, and the busy flag is back
    to what it was. *)
Theorem optimizeRoute_only_fills_in_locations
    (trim : string -> string) (typeErrorMessage : string)
    (world : Session.World) (st : Session.State) :
  let st' := snd (fst (Session.optimizeRoute trim typeErrorMessage world st)) in
  Forall2 (filledIn (Session.hasAddress trim))
          (Session.destinations st) (Session.destinations st') /\
  Session.startLocation st' = Session.startLocation st /\
  Session.returnToStart st' = Session.returnToStart st /\
  Session.destinationCounter st' = Session.destinationCounter st /\
  Session.isOptimizing st' = Session.isOptimizing st.
Proof. exact (optimizeRoute_changes trim typeErrorMessage world st). Qed.

(** X27: while [updateOptimizeButton] keeps the button disabled (no start
    location, no destination with an address, or a run in progress), a call
    of [optimizeRoute] shows no result, sends nothing to the network (its
    only effects are toasts) and leaves the destinations as they are. *)
Theorem optimizeRoute_behind_disabled_button
    (trim : string -> string) (typeErrorMessage : string)
    (world : Session.World) (st : Session.State)
    (Hdisabled : Session.updateOptimizeButton trim st = true) :
  let run := Session.optimizeRoute trim typeErrorMessage world st in
  snd run = None /\
  forallb isToast (fst (fst run)) = true /\
  Session.destinations (snd (fst run)) = Session.destinations st.
Proof.
  cbn zeta. unfold Session.optimizeRoute.
  destruct (Session.isOptimizing st) eqn:Hbusy; [repeat split |].
  destruct (Nat.eqb _ 0) eqn:Hnone; [repeat split |].
  assert (Hstart : Session.startLocation st = None).
  { unfold Session.updateOptimizeButton in Hdisabled. rewrite Hbusy in Hdisabled.
    destruct (Session.startLocation st); [| reflexivity].
    assert (Hex : existsb (Session.hasAddress trim) (Session.destinations st) = true).
    { apply Nat.eqb_neq in Hnone.
      destruct (filter _ _) as [| d more] eqn:Hf; [contradiction Hnone; reflexivity |].
      assert (Hd : In d (filter (Session.hasAddress trim) (Session.destinations st)))
        by (rewrite Hf; left; reflexivity).
      apply filter_In in Hd. apply existsb_exists. exists d. exact Hd. }
    rewrite Hex in Hdisabled. discriminate. }
  rewrite Hstart.
  destruct (geocodeLoop_no_start trim typeErrorMessage world (Session.destinations st) 0)
    as [failure ->].
  destruct failure as [message |]; [repeat split |].
  assert (Hplan : exists message,
             Session.planRoute typeErrorMessage world None (Session.returnToStart st)
               (filter (Session.hasAddress trim) (Session.destinations st))
             = ([Toast "Calculating optimal route..." "success"], Thrown message)).
  { unfold Session.planRoute.
    destruct (filter _ _) as [| d more] eqn:Hf; [discriminate |].
    change (Session.waypointOf None) with (@None RouteCalculator.RawWaypoint).
    match goal with
    | |- context [RouteCalculator.calculateRoute ?net ([?w] ++ ?rest) ?o] =>
        destruct (calculateRoute_null_start net rest o) as [message Hthrow];
        [destruct (Session.returnToStart st); discriminate |];
        change ([w] ++ rest) with (w :: rest)
    end.
    rewrite Hthrow. exists message. reflexivity. }
  destruct Hplan as [message ->]. repeat split.
Qed.

(** The session as the page starts it: no start location yet. *)
Lemma optimizeRoute_behind_disabled_button_witness :
  let run := Session.optimizeRoute (fun s => s) "TypeError" offlineWorld threeStops in
  Session.updateOptimizeButton (fun s => s) threeStops = true /\
  snd run = None /\
  forallb isToast (fst (fst run)) = true /\
  Session.destinations (snd (fst run)) = Session.destinations threeStops.
Proof.
  cbn zeta. split; [reflexivity |].
  apply (optimizeRoute_behind_disabled_button (fun s => s) "TypeError" offlineWorld
           threeStops eq_refl).
Defined.

Section OptimizeInstances.
Import RouteCalculator.



End OptimizeInstances.



(** ** Labels and export *)

Section StringFacts.
Local Open Scope string_scope.

Lemma string_app_assoc (s1 s2 s3 : string) : (s1 ++ s2) ++ s3 = s1 ++ (s2 ++ s3).
Proof. induction s1 as [| c s1 IH]; simpl; [reflexivity | rewrite IH; reflexivity]. Qed.

Lemma string_app_nil_r (s : string) : s ++ "" = s.
Proof. induction s as [| c s IH]; simpl; [reflexivity | rewrite IH; reflexivity]. Qed.

Lemma string_length_app (s1 s2 : string) :
  String.length (s1 ++ s2) = String.length s1 + String.length s2.
Proof. induction s1 as [| c s1 IH]; simpl; [reflexivity | rewrite IH; reflexivity]. Qed.

Lemma substring0_length (n : nat) (s : string) :
  String.length (String.substring 0 n s) = Nat.min n (String.length s).
Proof.
  revert s. induction n as [| n IH]; intros [| c s]; simpl; try reflexivity.
  rewrite IH. reflexivity.
Qed.

Lemma substring0_app (n : nat) (s1 s2 : string) :
  String.length s1 = n -> String.substring 0 n (s1 ++ s2) = s1.
Proof.
  revert s1. induction n as [| n IH]; intros [| c s1]; simpl; try discriminate.
  - intros _. destruct s2; reflexivity.
  - intros [= H]. rewrite (IH s1 H). reflexivity.
Qed.

End StringFacts.

(** X29: a label made by [truncateAddress] is the address itself when that
    has at most 50 characters, and otherwise its first 47 characters followed
    by three dots.  So a label never has more than 50 characters, agrees with
    the address on the first 47, and is not changed by truncating it
    again. *)
Theorem truncateAddress_fits_fifty (address : string) :
  (String.length address <= 50 -> Session.truncateAddress address = address) /\
  (50 < String.length address ->
   Session.truncateAddress address = (String.substring 0 47 address ++ "...")%string) /\
  String.length (Session.truncateAddress address) = Nat.min (String.length address) 50 /\
  String.substring 0 47 (Session.truncateAddress address) = String.substring 0 47 address /\
  Session.truncateAddress (Session.truncateAddress address) = Session.truncateAddress address.
Proof.
  destruct (Nat.ltb_spec 50 (String.length address)) as [Hlong | Hshort].
  - assert (Ht : Session.truncateAddress address
                 = (String.substring 0 47 address ++ "...")%string).
    { unfold Session.truncateAddress.
      rewrite (proj2 (Nat.ltb_lt 50 (String.length address)) Hlong). reflexivity. }
    assert (Hlen : String.length (String.substring 0 47 address) = 47)
      by (rewrite substring0_length; lia).
    assert (Hlabel : String.length (String.substring 0 47 address ++ "...")%string = 50)
      by (rewrite string_length_app, Hlen; reflexivity).
    split; [intros Hle; lia |].
    split; [intros _; exact Ht |].
    rewrite Ht.
    split; [rewrite Hlabel; lia |].
    split; [apply substring0_app; exact Hlen |].
    unfold Session.truncateAddress. rewrite Hlabel. reflexivity.
  - assert (Ht : Session.truncateAddress address = address).
    { unfold Session.truncateAddress.
      rewrite (proj2 (Nat.ltb_ge 50 (String.length address)) Hshort). reflexivity. }
    split; [intros _; exact Ht |].
    split; [intros Hlt; lia |].
    rewrite !Ht. split; [lia | split; reflexivity].
Qed.

(** An address of 49 characters is its own label; one of 53 is cut. *)
Lemma truncateAddress_fits_fifty_witness :
  String.length "1600 Pennsylvania Avenue NW, Washington, DC 20500" <= 50 /\
  Session.truncateAddress "1600 Pennsylvania Avenue NW, Washington, DC 20500"
    = "1600 Pennsylvania Avenue NW, Washington, DC 20500"%string /\
  50 < String.length "Platform 9, King's Cross Station, Euston Road, London" /\
  Session.truncateAddress "Platform 9, King's Cross Station, Euston Road, London"
    = "Platform 9, King's Cross Station, Euston Road, ..."%string.
Proof.
  assert (Hshort : String.length "1600 Pennsylvania Avenue NW, Washington, DC 20500" <= 50)
    by (simpl; lia).
  assert (Hlong : 50 < String.length "Platform 9, King's Cross Station, Euston Road, London")
    by (simpl; lia).
  split; [exact Hshort |].
  split; [exact (proj1 (truncateAddress_fits_fifty _) Hshort) |].
  split; [exact Hlong |].
  exact (proj1 (proj2 (truncateAddress_fits_fifty _)) Hlong).
Defined.

Section ExportFacts.
Import Session.
Local Open Scope string_scope.

Variable numberToString : R -> string.
Variable typeErrorMessage : string.

Lemma legs_snoc (l : list string) (x : string) :
  legs (l ++ [x])%list = legs l ++ "/" ++ x.
Proof.
  induction l as [| y l IH]; simpl.
  - rewrite string_app_nil_r. reflexivity.
  - rewrite IH, !string_app_assoc. reflexivity.
Qed.

Lemma firstn_succ_nth {A : Type} (k : nat) (l : list A) (d : A) :
  k < length l -> firstn (S k) l = (firstn k l ++ [nth k l d])%list.
Proof.
  revert l. induction k as [| k IH]; intros [| x l] Hk; simpl in *; try lia.
  - reflexivity.
  - rewrite <- IH by lia. reflexivity.
Qed.

Lemma appendWaypoints_spec (waypoints : list string) (k : nat) (url : string) :
  k <= length waypoints ->
  appendWaypoints waypoints k url = url ++ legs (firstn k waypoints).
Proof.
  unfold appendWaypoints. induction k as [| k IH]; intros Hk.
  - simpl. rewrite string_app_nil_r. reflexivity.
  - rewrite seq_S, fold_left_app. cbn [fold_left Nat.add]. rewrite IH by lia.
    rewrite (firstn_succ_nth k waypoints "undefined") by lia.
    rewrite legs_snoc, !string_app_assoc. reflexivity.
Qed.

Lemma pairsOf_resolved (order : list Stop) :
  forall places,
    map stop_location order = map Some places ->
    pairsOf numberToString order = Some (map (coordinatePair numberToString) places).
Proof.
  induction order as [| d order IH]; intros [| p places] H; simpl in *; try discriminate.
  - reflexivity.
  - injection H as Hd Hrest. rewrite Hd, (IH places Hrest). reflexivity.
Qed.

End ExportFacts.

(** X30: for an optimized order whose locations are all present, the
    address [openInGoogleMaps] hands to the browser starts at the start
    location, names every stop once, in the optimized order, ends at the
    start again exactly when the return flag is set, and asks for driving
    directions when a departure time is set. *)
Theorem openInGoogleMaps_visits_stops_in_order
    (numberToString : R -> string) (typeErrorMessage : string)
    (start : Location) (order : list Session.Stop) (places : list Location)
    (returnToStart departureTime : bool)
    (Hsome : order <> [])
    (Hplaces : map Session.stop_location order = map Some places) :
  Session.openInGoogleMaps numberToString typeErrorMessage (Some start) order
    returnToStart departureTime
  = ([Toast "Opening Google Maps with traffic data..." "success"],
     Returned
       (Some ("https://www.google.com/maps/dir/"
              ++ Session.coordinatePair numberToString start
              ++ legs (map (Session.coordinatePair numberToString) places)
              ++ (if returnToStart
                  then "/" ++ Session.coordinatePair numberToString start else "")
              ++ (if departureTime then "?travelmode=driving" else ""))%string)).
Proof.
  unfold Session.openInGoogleMaps.
  destruct order as [| d order']; [contradiction |].
  change (Nat.eqb (length (d :: order')) 0) with false. cbv iota.
  rewrite (pairsOf_resolved numberToString _ _ Hplaces).
  set (origin := Session.coordinatePair numberToString start).
  set (waypoints := map (Session.coordinatePair numberToString) places).
  set (base := "https://www.google.com/maps/dir/"%string).
  assert (Hlen : length waypoints <> 0).
  { unfold waypoints. rewrite length_map.
    apply (f_equal (@length _)) in Hplaces. rewrite !length_map in Hplaces.
    simpl in Hplaces. lia. }
  unfold emit, ret, bind. cbn [app]. do 3 f_equal.
  destruct returnToStart.
  - rewrite appendWaypoints_spec by lia. rewrite firstn_all.
    destruct departureTime; rewrite ?string_app_assoc, ?string_app_nil_r; reflexivity.
  - rewrite appendWaypoints_spec by lia.
    assert (Hsplit : legs waypoints
                     = (legs (firstn (length waypoints - 1) waypoints) ++ "/"
                        ++ nth (length waypoints - 1) waypoints "undefined")%string).
    { rewrite <- legs_snoc, <- firstn_succ_nth by lia.
      replace (S (length waypoints - 1)) with (length waypoints) by lia.
      rewrite firstn_all. reflexivity. }
    rewrite Hsplit.
    destruct departureTime; rewrite ?string_app_assoc, ?string_app_nil_r; reflexivity.
Qed.

(** Two stops and no return: the second stop ends the directions. *)
Lemma openInGoogleMaps_visits_stops_in_order_witness :
  let order := [ stopAt 2 "Museum" (Some {| lat := 2; lng := 2 |}) true;
                 stopAt 1 "Harbour" (Some {| lat := 1; lng := 1 |}) false ] in
  let places := [ {| lat := 2; lng := 2 |}; {| lat := 1; lng := 1 |} ] in
  let pair := Session.coordinatePair (fun _ => "x"%string) in
  order <> [] /\
  map Session.stop_location order = map Some places /\
  completion (Session.openInGoogleMaps (fun _ => "x"%string) "TypeError"
                (Some {| lat := 0; lng := 0 |}) order false false)
  = Returned (Some "https://www.google.com/maps/dir/x,x/x,x/x,x"%string).
Proof.
  cbn zeta.
  assert (Hsome : [ stopAt 2 "Museum" (Some {| lat := 2; lng := 2 |}) true;
                    stopAt 1 "Harbour" (Some {| lat := 1; lng := 1 |}) false ] <> [])
    by discriminate.
  split; [exact Hsome | split; [reflexivity |]].
  rewrite (openInGoogleMaps_visits_stops_in_order (fun _ => "x"%string) "TypeError"
             {| lat := 0; lng := 0 |} _
             [ {| lat := 2; lng := 2 |}; {| lat := 1; lng := 1 |} ] false false
             Hsome eq_refl).
  reflexivity.
Defined.
